(** * SmoothScroller: a shallow embedding of [smooth-scroller.js]

    The module animates the scroll offset of one container along a
    cubic-Bezier easing curve.  JavaScript numbers are IEEE 754 binary64
    values, so they are modelled by Rocq's primitive [float]s, whose
    operations round exactly as the JavaScript ones do; [NaN], the signed
    zeros and the infinities are therefore the real ones.

    Layout of the development:
    - [JsNumber]: the handful of [Number]/[Math] built-ins the code calls;
    - [Js]: values, errors, completions and the imported [validateArgument];
    - [CubicBezierSolver]: the easing solver class;
    - [SmoothScroller]: the private state of one scroller, its container,
      the animation-frame queue, and the methods [scroll], [stopScroll],
      [getScrollEventData] together with the frame driver;
    - [Scenario]: the vocabulary of the statements and the worked example;
    - the theorems, one group per property of the specification.

    One scroller on one container is modelled: the static [scroll] method
    only finds or creates the scroller of a container and forwards its
    options to [#scroll].  Event listeners are not modelled, so dispatching
    an event has no effect but being recorded. *)

From Stdlib Require Import Floats ZArith List String Bool Lia.
From Stdlib Require Uint63.
Import ListNotations.

Set Warnings "-inexact-float,-level-tolerance".

Open Scope string_scope.
Open Scope list_scope.
Open Scope float_scope.

(* ================================================================== *)
(** ** Numbers *)

Module JsNumber.

(** [Number.isNaN]. *)
Definition isNaN (f : float) : bool := is_nan f.

(** [Number.isFinite]. *)
Definition isFinite (f : float) : bool := is_finite f.

(** Truthiness of a number: [NaN], [+0] and [-0] are falsy. *)
Definition truthy (f : float) : bool := negb (is_nan f || is_zero f).

(** [Number.MAX_SAFE_INTEGER], 2^53 - 1. *)
Definition MAX_SAFE_INTEGER : float := 9007199254740991.

(** [Math.abs]. *)
Definition Math_abs (f : float) : float := abs f.

(** [Math.min] of two arguments: [NaN] is contagious and [-0] is below
    [+0]. *)
Definition Math_min (a b : float) : float :=
  if is_nan a || is_nan b then nan
  else if a <? b then a
  else if b <? a then b
  else if get_sign a then a else b.

(** [Math.floor]: the largest integral value not above the argument.
    Zeros, infinities and [NaN] are returned unchanged. *)
Definition Math_floor (f : float) : float :=
  match Prim2SF f with
  | S754_finite s m e =>
      if (0 <=? e)%Z then f
      else
        let q := Z.shiftr (Zpos m) (- e) in
        let exact := (Z.shiftl q (- e) =? Zpos m)%Z in
        if s
        then - of_uint63 (Uint63.of_Z (if exact then q else q + 1))
        else of_uint63 (Uint63.of_Z q)
  | _ => f
  end.

(** [Math.hypot] of two arguments.  JavaScript leaves its accuracy to the
    implementation; it only fills the [distance] field of the event data,
    which the results below meet on zeros and [NaN] alone, where every
    implementation agrees. *)
Definition Math_hypot (a b : float) : float := sqrt (a * a + b * b).

End JsNumber.

(* ================================================================== *)
(** ** Values, errors and completions *)

Module Js.

(** The JavaScript values that reach [validateArgument]. *)
Inductive Value : Type :=
| Undefined
| Boolean (b : bool)
| Number (f : float)
| String (s : string)
| Array (l : list float).

(** The type names [validateArgument] knows, as its [allowedTypes]
    option spells them (an array is an ["array"], not an ["object"]). *)
Definition typeOf (v : Value) : string :=
  match v with
  | Undefined => "undefined"
  | Boolean _ => "boolean"
  | Number _ => "number"
  | String _ => "string"
  | Array _ => "array"
  end.

(** Strict equality on the values above; an array is equal only to
    itself, which cannot happen against a literal. *)
Definition strictEquals (a b : Value) : bool :=
  match a, b with
  | Undefined, Undefined => true
  | Boolean x, Boolean y => Bool.eqb x y
  | Number x, Number y => x =? y
  | String x, String y => String.eqb x y
  | _, _ => false
  end.

Inductive Error : Type :=
| ValidationError (argument : string)
| TypeError (message : string).

(** Outcome of running a piece of code: it returns, it throws, or it has
    not returned within the fuel given to its loops. *)
Inductive Completion (A : Type) : Type :=
| Normal (a : A)
| Throw (e : Error)
| OutOfFuel.

Arguments Normal {A} a.
Arguments Throw {A} e.
Arguments OutOfFuel {A}.

(** The options of [validateArgument] used by this module. *)
Inductive ValidationOption : Type :=
| allowedTypes (ts : list string)
| allowedValues (vs : list Value)
| allowedMin (m : float)
| allowedMax (m : float)
| allowFiniteNumbersOnly (b : bool)
| customErrorMessage (msg : string).

Definition satisfies (v : Value) (o : ValidationOption) : bool :=
  match o with
  | allowedTypes ts => existsb (String.eqb (typeOf v)) ts
  | allowedValues vs => existsb (strictEquals v) vs
  | allowedMin m => match v with Number f => m <=? f | _ => false end
  | allowedMax m => match v with Number f => f <=? m | _ => false end
  | allowFiniteNumbersOnly b =>
      match v with Number f => negb b || JsNumber.isFinite f | _ => true end
  | customErrorMessage _ => true
  end.

(** Modelled from the spec: [validateArgument] is imported from
    [utilities.js], which is not part of the sources.  It is read off its
    call sites and the error taxonomy of the specification: the value
    must satisfy every option it is called with, otherwise the call
    throws.  [true] means the call returns. *)
Definition validateArgument
    (name : string) (value : Value) (options : list ValidationOption) : bool :=
  forallb (satisfies value) options.

End Js.

Import Js.

(* ================================================================== *)
(** ** The easing solver *)

Module CubicBezierSolver.

Record ControlPoints : Type := {
  p1x : float;
  p1y : float;
  p2x : float;
  p2y : float
}.

Record t : Type := {
  controlPoints : ControlPoints;
  ax : float;
  bx : float;
  cx : float;
  ay : float;
  by_ : float;
  cy : float
}.

(** [static easingKeywordMap]; [None] is the [undefined] that [Map.get]
    returns for a missing key. *)
Definition easingKeywordMap (keyword : string) : option (list float) :=
  if String.eqb keyword "ease" then Some [0.25; 0.1; 0.25; 1]
  else if String.eqb keyword "ease-in" then Some [0.42; 0; 1; 1]
  else if String.eqb keyword "ease-out" then Some [0; 0; 0.58; 1]
  else if String.eqb keyword "ease-in-out" then Some [0.42; 0; 0.58; 1]
  else if String.eqb keyword "linear" then Some [0; 0; 1; 1]
  else None.

Definition easingKeywords : list string :=
  ["ease"; "ease-in"; "ease-out"; "ease-in-out"; "linear"].

(** The [yLimiter] closure of the constructor. *)
Definition yLimit : float :=
  JsNumber.Math_floor (JsNumber.MAX_SAFE_INTEGER / 6).

Definition yLimiter (y : float) : float :=
  let limit := yLimit in
  if (JsNumber.Math_abs y) <? limit then y else limit.

(** [controlPointValidator]: the validated (and y-limited) control points,
    or the error thrown.  The closure writes the limited y-coordinates
    into the array it was given and returns that array; what this leaves
    in the hands of the caller is [ArrayArgument.afterNew] below. *)
Definition controlPointValidator (controlPoints : Value)
  : Completion (list float) :=
  if negb (validateArgument "controlPoints" controlPoints
             [allowedTypes ["string"; "array"]])
  then Throw (ValidationError "controlPoints")
  else
    match controlPoints with
    | String keyword =>
        if negb (validateArgument "controlPoints" controlPoints
                   [allowedValues (map String easingKeywords)])
        then Throw (ValidationError "controlPoints")
        else
          match easingKeywordMap keyword with
          | Some l => Normal l
          | None => Throw (ValidationError "controlPoints")
          end
    | Array l =>
        if negb (validateArgument "controlPoints"
                   (Number (of_uint63 (Uint63.of_Z (Z.of_nat (List.length l)))))
                   [allowedValues [Number 4];
                    customErrorMessage
                      "controlPoints must comprise 4 numbers, e.g. [ 0, 0.25, 0.1, 0.25]"])
        then Throw (ValidationError "controlPoints")
        else if negb (forallb
                        (fun controlPoint =>
                           validateArgument "controlPoints values"
                             (Number controlPoint) [allowedTypes ["number"]])
                        l)
        then Throw (ValidationError "controlPoints values")
        else
          match l with
          | [x1; y1; x2; y2] =>
              if negb (validateArgument "x1" (Number x1)
                         [allowedMin 0; allowedMax 1])
              then Throw (ValidationError "x1")
              else if negb (validateArgument "x2" (Number x2)
                              [allowedMin 0; allowedMax 1])
              then Throw (ValidationError "x2")
              else Normal [x1; yLimiter y1; x2; yLimiter y2]
          | _ => Throw (ValidationError "controlPoints")
          end
    | _ => Throw (ValidationError "controlPoints")
    end.

(** [constructor(controlPoints)].  The validator returns arrays of four
    numbers only; a missing element of the destructured array would be
    [undefined], [NaN] in the arithmetic. *)
Definition new (controlPoints : Value) : Completion t :=
  match controlPointValidator controlPoints with
  | Normal validatedControlPoints =>
      let p1x := nth 0 validatedControlPoints nan in
      let p1y := nth 1 validatedControlPoints nan in
      let p2x := nth 2 validatedControlPoints nan in
      let p2y := nth 3 validatedControlPoints nan in
      let cx := 3.0 * p1x in
      let bx := 3.0 * (p2x - p1x) - cx in
      let ax := 1.0 - cx - bx in
      let cy := 3.0 * p1y in
      let by_ := 3.0 * (p2y - p1y) - cy in
      let ay := 1.0 - cy - by_ in
      Normal {| controlPoints :=
                  {| p1x := p1x; p1y := p1y; p2x := p2x; p2y := p2y |};
                ax := ax; bx := bx; cx := cx;
                ay := ay; by_ := by_; cy := cy |}
  | Throw e => Throw e
  | OutOfFuel => OutOfFuel
  end.

(** [controlPointsMatchCurrentControlPoints(p1x, p1y, p2x, p2y)], called
    with a spread array: a missing argument is [undefined], which is
    strictly equal to no number. *)
Definition controlPointsMatchCurrentControlPoints
    (this : t) (args : list float) : bool :=
  match args with
  | a :: b :: c :: d :: _ =>
      (a =? p1x (controlPoints this)) &&
      (b =? p1y (controlPoints this)) &&
      (c =? p2x (controlPoints this)) &&
      (d =? p2y (controlPoints this))
  | _ => false
  end.

Definition sampleCurveX (this : t) (t : float) : float :=
  ((ax this * t + bx this) * t + cx this) * t.

Definition sampleCurveY (this : t) (t : float) : float :=
  ((ay this * t + by_ this) * t + cy this) * t.

Definition sampleCurveDerivativeX (this : t) (t : float) : float :=
  (3.0 * ax this * t + 2.0 * bx this) * t + cx this.

(** The Newton loop of [solveCurveX], [i] iterations left, current
    estimate [t2].  [Some t] is [return t]; [None] is leaving the loop,
    by [break] or because the eight iterations are used up. *)
Fixpoint newton (this : t) (x epsilon : float) (i : nat) (t2 : float)
  : option float :=
  match i with
  | O => None
  | S i' =>
      let x2 := sampleCurveX this t2 - x in
      if (JsNumber.Math_abs x2) <? epsilon then Some t2
      else
        let d2 := sampleCurveDerivativeX this t2 in
        if (JsNumber.Math_abs d2) <? 1e-6 then None
        else newton this x epsilon i' (t2 - x2 / d2)
  end.

(** The variables of the bisection loop. *)
Record Bracket : Type := { t0 : float; t1 : float; t2 : float }.

(** One evaluation of the [while (t0 < t1)] loop: the value returned
    (inside the loop, or after it at [// Failed]), or the variables for
    the next iteration. *)
Definition bisectionStep (this : t) (x epsilon : float) (b : Bracket)
  : float + Bracket :=
  if t0 b <? t1 b then
    let x2 := sampleCurveX this (t2 b) in
    if (JsNumber.Math_abs (x2 - x)) <? epsilon then inl (t2 b)
    else
      let t0' := if x2 <? x then t2 b else t0 b in
      let t1' := if x2 <? x then t1 b else t2 b in
      inr {| t0 := t0'; t1 := t1'; t2 := (t1' - t0') * 0.5 + t0' |}
  else inl (t2 b).

Fixpoint bisection (this : t) (x epsilon : float) (fuel : nat) (b : Bracket)
  : Completion float :=
  match fuel with
  | O => OutOfFuel
  | S fuel' =>
      match bisectionStep this x epsilon b with
      | inl t => Normal t
      | inr b' => bisection this x epsilon fuel' b'
      end
  end.

(** [solveCurveX(x, epsilon)]; [fuel] bounds the iterations of the
    bisection loop, the only unbounded one. *)
Definition solveCurveX (this : t) (fuel : nat) (x epsilon : float)
  : Completion float :=
  if negb (validateArgument "x" (Number x)
             [allowedTypes ["number"]; allowedMin 0; allowedMax 1])
  then Throw (ValidationError "x")
  else
    match newton this x epsilon 8 x with
    | Some t2 => Normal t2
    | None => bisection this x epsilon fuel {| t0 := 0; t1 := 1; t2 := x |}
    end.

(** [solve(x, epsilon)]. *)
Definition solve (this : t) (fuel : nat) (x epsilon : float)
  : Completion float :=
  match solveCurveX this fuel x epsilon with
  | Normal t => Normal (sampleCurveY this t)
  | Throw e => Throw e
  | OutOfFuel => OutOfFuel
  end.

End CubicBezierSolver.


(* ================================================================== *)
(** ** The scroller *)

Module EventData.

(** The object built by [#getScrollEventData].  Its [scrollContainer]
    property, a reference to the one container of the scroller, is left
    out. *)
Record t : Type := {
  startPoint : float * float;
  endPoint : float * float;
  distance : float;
  duration : float;
  elapsedTime : float;
  interruptedBy : option string
}.

End EventData.

Module Options.

(** The easing argument: a keyword or an array of control points. *)
Inductive Easing : Type :=
| Keyword (keyword : string)
| Points (controlPoints : list float).

(** The options object of [#scroll]; [None] is a property that is absent
    or [undefined], which the parameter defaults replace. *)
Record t : Type := {
  x : option float;
  y : option float;
  duration : option float;
  easing : option Easing;
  stopScrollingOnPointerDown : option bool;
  currentTime : option float
}.

End Options.

Module SmoothScroller.

(** The part of the scroll container the scroller reads and writes.  An
    assignment to [scrollLeft] or [scrollTop] is modelled as a plain
    store; a browser may clamp or round the stored value. *)
Record Element : Type := {
  scrollLeft : float;
  scrollTop : float;
  scrollWidth : float;
  clientWidth : float;
  scrollHeight : float;
  clientHeight : float
}.

(** The private fields of a scroller.  [None] is [undefined] or [null];
    [scrollResolve] and [scrollRafId] hold the identifier of the promise
    whose [resolve] function is stored and of the requested frame. *)
Record Fields : Type := {
  cubicBezierSolver : option CubicBezierSolver.t;
  scrolling : bool;
  stopScrollingOnPointerDown : option bool;
  scrollDistanceX : float;
  scrollDistanceY : float;
  scrollDuration : float;
  scrollElapsedTime : float;
  scrollEndingPointX : float;
  scrollEndingPointY : float;
  scrollRafId : option nat;
  scrollResolve : option nat;
  scrollStartingPointX : float;
  scrollStartingPointY : float;
  scrollStartTime : float
}.

Definition set_cubicBezierSolver (v : option CubicBezierSolver.t) (s : Fields) : Fields :=
  {| cubicBezierSolver := v; scrolling := scrolling s;
     stopScrollingOnPointerDown := stopScrollingOnPointerDown s;
     scrollDistanceX := scrollDistanceX s; scrollDistanceY :=
     scrollDistanceY s; scrollDuration := scrollDuration s;
     scrollElapsedTime := scrollElapsedTime s; scrollEndingPointX :=
     scrollEndingPointX s; scrollEndingPointY := scrollEndingPointY s;
     scrollRafId := scrollRafId s; scrollResolve := scrollResolve s;
     scrollStartingPointX := scrollStartingPointX s; scrollStartingPointY
     := scrollStartingPointY s; scrollStartTime := scrollStartTime s |}.

Definition set_scrolling (v : bool) (s : Fields) : Fields :=
  {| cubicBezierSolver := cubicBezierSolver s; scrolling := v;
     stopScrollingOnPointerDown := stopScrollingOnPointerDown s;
     scrollDistanceX := scrollDistanceX s; scrollDistanceY :=
     scrollDistanceY s; scrollDuration := scrollDuration s;
     scrollElapsedTime := scrollElapsedTime s; scrollEndingPointX :=
     scrollEndingPointX s; scrollEndingPointY := scrollEndingPointY s;
     scrollRafId := scrollRafId s; scrollResolve := scrollResolve s;
     scrollStartingPointX := scrollStartingPointX s; scrollStartingPointY
     := scrollStartingPointY s; scrollStartTime := scrollStartTime s |}.

Definition set_stopScrollingOnPointerDown (v : option bool) (s : Fields) : Fields :=
  {| cubicBezierSolver := cubicBezierSolver s; scrolling := scrolling s;
     stopScrollingOnPointerDown := v; scrollDistanceX := scrollDistanceX
     s; scrollDistanceY := scrollDistanceY s; scrollDuration :=
     scrollDuration s; scrollElapsedTime := scrollElapsedTime s;
     scrollEndingPointX := scrollEndingPointX s; scrollEndingPointY :=
     scrollEndingPointY s; scrollRafId := scrollRafId s; scrollResolve :=
     scrollResolve s; scrollStartingPointX := scrollStartingPointX s;
     scrollStartingPointY := scrollStartingPointY s; scrollStartTime :=
     scrollStartTime s |}.

Definition set_scrollDistanceX (v : float) (s : Fields) : Fields :=
  {| cubicBezierSolver := cubicBezierSolver s; scrolling := scrolling s;
     stopScrollingOnPointerDown := stopScrollingOnPointerDown s;
     scrollDistanceX := v; scrollDistanceY := scrollDistanceY s;
     scrollDuration := scrollDuration s; scrollElapsedTime :=
     scrollElapsedTime s; scrollEndingPointX := scrollEndingPointX s;
     scrollEndingPointY := scrollEndingPointY s; scrollRafId :=
     scrollRafId s; scrollResolve := scrollResolve s; scrollStartingPointX
     := scrollStartingPointX s; scrollStartingPointY :=
     scrollStartingPointY s; scrollStartTime := scrollStartTime s |}.

Definition set_scrollDistanceY (v : float) (s : Fields) : Fields :=
  {| cubicBezierSolver := cubicBezierSolver s; scrolling := scrolling s;
     stopScrollingOnPointerDown := stopScrollingOnPointerDown s;
     scrollDistanceX := scrollDistanceX s; scrollDistanceY := v;
     scrollDuration := scrollDuration s; scrollElapsedTime :=
     scrollElapsedTime s; scrollEndingPointX := scrollEndingPointX s;
     scrollEndingPointY := scrollEndingPointY s; scrollRafId :=
     scrollRafId s; scrollResolve := scrollResolve s; scrollStartingPointX
     := scrollStartingPointX s; scrollStartingPointY :=
     scrollStartingPointY s; scrollStartTime := scrollStartTime s |}.

Definition set_scrollDuration (v : float) (s : Fields) : Fields :=
  {| cubicBezierSolver := cubicBezierSolver s; scrolling := scrolling s;
     stopScrollingOnPointerDown := stopScrollingOnPointerDown s;
     scrollDistanceX := scrollDistanceX s; scrollDistanceY :=
     scrollDistanceY s; scrollDuration := v; scrollElapsedTime :=
     scrollElapsedTime s; scrollEndingPointX := scrollEndingPointX s;
     scrollEndingPointY := scrollEndingPointY s; scrollRafId :=
     scrollRafId s; scrollResolve := scrollResolve s; scrollStartingPointX
     := scrollStartingPointX s; scrollStartingPointY :=
     scrollStartingPointY s; scrollStartTime := scrollStartTime s |}.

Definition set_scrollElapsedTime (v : float) (s : Fields) : Fields :=
  {| cubicBezierSolver := cubicBezierSolver s; scrolling := scrolling s;
     stopScrollingOnPointerDown := stopScrollingOnPointerDown s;
     scrollDistanceX := scrollDistanceX s; scrollDistanceY :=
     scrollDistanceY s; scrollDuration := scrollDuration s;
     scrollElapsedTime := v; scrollEndingPointX := scrollEndingPointX s;
     scrollEndingPointY := scrollEndingPointY s; scrollRafId :=
     scrollRafId s; scrollResolve := scrollResolve s; scrollStartingPointX
     := scrollStartingPointX s; scrollStartingPointY :=
     scrollStartingPointY s; scrollStartTime := scrollStartTime s |}.

Definition set_scrollEndingPointX (v : float) (s : Fields) : Fields :=
  {| cubicBezierSolver := cubicBezierSolver s; scrolling := scrolling s;
     stopScrollingOnPointerDown := stopScrollingOnPointerDown s;
     scrollDistanceX := scrollDistanceX s; scrollDistanceY :=
     scrollDistanceY s; scrollDuration := scrollDuration s;
     scrollElapsedTime := scrollElapsedTime s; scrollEndingPointX := v;
     scrollEndingPointY := scrollEndingPointY s; scrollRafId :=
     scrollRafId s; scrollResolve := scrollResolve s; scrollStartingPointX
     := scrollStartingPointX s; scrollStartingPointY :=
     scrollStartingPointY s; scrollStartTime := scrollStartTime s |}.

Definition set_scrollEndingPointY (v : float) (s : Fields) : Fields :=
  {| cubicBezierSolver := cubicBezierSolver s; scrolling := scrolling s;
     stopScrollingOnPointerDown := stopScrollingOnPointerDown s;
     scrollDistanceX := scrollDistanceX s; scrollDistanceY :=
     scrollDistanceY s; scrollDuration := scrollDuration s;
     scrollElapsedTime := scrollElapsedTime s; scrollEndingPointX :=
     scrollEndingPointX s; scrollEndingPointY := v; scrollRafId :=
     scrollRafId s; scrollResolve := scrollResolve s; scrollStartingPointX
     := scrollStartingPointX s; scrollStartingPointY :=
     scrollStartingPointY s; scrollStartTime := scrollStartTime s |}.

Definition set_scrollRafId (v : option nat) (s : Fields) : Fields :=
  {| cubicBezierSolver := cubicBezierSolver s; scrolling := scrolling s;
     stopScrollingOnPointerDown := stopScrollingOnPointerDown s;
     scrollDistanceX := scrollDistanceX s; scrollDistanceY :=
     scrollDistanceY s; scrollDuration := scrollDuration s;
     scrollElapsedTime := scrollElapsedTime s; scrollEndingPointX :=
     scrollEndingPointX s; scrollEndingPointY := scrollEndingPointY s;
     scrollRafId := v; scrollResolve := scrollResolve s;
     scrollStartingPointX := scrollStartingPointX s; scrollStartingPointY
     := scrollStartingPointY s; scrollStartTime := scrollStartTime s |}.

Definition set_scrollResolve (v : option nat) (s : Fields) : Fields :=
  {| cubicBezierSolver := cubicBezierSolver s; scrolling := scrolling s;
     stopScrollingOnPointerDown := stopScrollingOnPointerDown s;
     scrollDistanceX := scrollDistanceX s; scrollDistanceY :=
     scrollDistanceY s; scrollDuration := scrollDuration s;
     scrollElapsedTime := scrollElapsedTime s; scrollEndingPointX :=
     scrollEndingPointX s; scrollEndingPointY := scrollEndingPointY s;
     scrollRafId := scrollRafId s; scrollResolve := v;
     scrollStartingPointX := scrollStartingPointX s; scrollStartingPointY
     := scrollStartingPointY s; scrollStartTime := scrollStartTime s |}.

Definition set_scrollStartingPointX (v : float) (s : Fields) : Fields :=
  {| cubicBezierSolver := cubicBezierSolver s; scrolling := scrolling s;
     stopScrollingOnPointerDown := stopScrollingOnPointerDown s;
     scrollDistanceX := scrollDistanceX s; scrollDistanceY :=
     scrollDistanceY s; scrollDuration := scrollDuration s;
     scrollElapsedTime := scrollElapsedTime s; scrollEndingPointX :=
     scrollEndingPointX s; scrollEndingPointY := scrollEndingPointY s;
     scrollRafId := scrollRafId s; scrollResolve := scrollResolve s;
     scrollStartingPointX := v; scrollStartingPointY :=
     scrollStartingPointY s; scrollStartTime := scrollStartTime s |}.

Definition set_scrollStartingPointY (v : float) (s : Fields) : Fields :=
  {| cubicBezierSolver := cubicBezierSolver s; scrolling := scrolling s;
     stopScrollingOnPointerDown := stopScrollingOnPointerDown s;
     scrollDistanceX := scrollDistanceX s; scrollDistanceY :=
     scrollDistanceY s; scrollDuration := scrollDuration s;
     scrollElapsedTime := scrollElapsedTime s; scrollEndingPointX :=
     scrollEndingPointX s; scrollEndingPointY := scrollEndingPointY s;
     scrollRafId := scrollRafId s; scrollResolve := scrollResolve s;
     scrollStartingPointX := scrollStartingPointX s; scrollStartingPointY
     := v; scrollStartTime := scrollStartTime s |}.

Definition set_scrollStartTime (v : float) (s : Fields) : Fields :=
  {| cubicBezierSolver := cubicBezierSolver s; scrolling := scrolling s;
     stopScrollingOnPointerDown := stopScrollingOnPointerDown s;
     scrollDistanceX := scrollDistanceX s; scrollDistanceY :=
     scrollDistanceY s; scrollDuration := scrollDuration s;
     scrollElapsedTime := scrollElapsedTime s; scrollEndingPointX :=
     scrollEndingPointX s; scrollEndingPointY := scrollEndingPointY s;
     scrollRafId := scrollRafId s; scrollResolve := scrollResolve s;
     scrollStartingPointX := scrollStartingPointX s; scrollStartingPointY
     := scrollStartingPointY s; scrollStartTime := v |}.

(** What the scroller does to the outside, in the order it does it. *)
Inductive Effect : Type :=
| DispatchEvent (type : string) (detail : EventData.t)
| ResolvePromise (promise : nat) (value : EventData.t)
| SetScrollLeft (value : float)
| SetScrollTop (value : float)
| ScrollTo (x y : float)
| RequestAnimationFrame (id : nat)
| CancelAnimationFrame (id : option nat)
| StyleSetProperty (name value : string)
| StyleRemoveProperty (name : string).

(** One scroller with its container and the browser around it:
    [animationFrames] are the frame callbacks requested and neither run
    nor cancelled yet, [log] the effects so far, oldest first. *)
Record World : Type := {
  this : Fields;
  scrollContainer : Element;
  isIOsSafari : bool;
  animationFrames : list nat;
  nextAnimationFrame : nat;
  nextPromise : nat;
  log : list Effect
}.

Definition set_this (v : Fields) (w : World) : World :=
  {| this := v; scrollContainer := scrollContainer w;
     isIOsSafari := isIOsSafari w; animationFrames := animationFrames w;
     nextAnimationFrame := nextAnimationFrame w;
     nextPromise := nextPromise w; log := log w |}.

Definition set_scrollContainer (v : Element) (w : World) : World :=
  {| this := this w; scrollContainer := v;
     isIOsSafari := isIOsSafari w; animationFrames := animationFrames w;
     nextAnimationFrame := nextAnimationFrame w;
     nextPromise := nextPromise w; log := log w |}.

Definition set_animationFrames (v : list nat) (w : World) : World :=
  {| this := this w; scrollContainer := scrollContainer w;
     isIOsSafari := isIOsSafari w; animationFrames := v;
     nextAnimationFrame := nextAnimationFrame w;
     nextPromise := nextPromise w; log := log w |}.

Definition set_nextAnimationFrame (v : nat) (w : World) : World :=
  {| this := this w; scrollContainer := scrollContainer w;
     isIOsSafari := isIOsSafari w; animationFrames := animationFrames w;
     nextAnimationFrame := v;
     nextPromise := nextPromise w; log := log w |}.

Definition set_nextPromise (v : nat) (w : World) : World :=
  {| this := this w; scrollContainer := scrollContainer w;
     isIOsSafari := isIOsSafari w; animationFrames := animationFrames w;
     nextAnimationFrame := nextAnimationFrame w;
     nextPromise := v; log := log w |}.

Definition set_log (v : list Effect) (w : World) : World :=
  {| this := this w; scrollContainer := scrollContainer w;
     isIOsSafari := isIOsSafari w; animationFrames := animationFrames w;
     nextAnimationFrame := nextAnimationFrame w;
     nextPromise := nextPromise w; log := v |}.

(** *** Code that changes the world and may throw *)

Definition M (A : Type) : Type := World -> Completion A * World.

Definition ret {A : Type} (a : A) : M A := fun w => (Normal a, w).

Definition bind {A B : Type} (m : M A) (k : A -> M B) : M B :=
  fun w =>
    match m w with
    | (Normal a, w') => k a w'
    | (Throw e, w') => (Throw e, w')
    | (OutOfFuel, w') => (OutOfFuel, w')
    end.

Notation "x <- m ;; k" := (bind m (fun x => k))
  (at level 61, m at next level, right associativity).
Notation "m ;; k" := (bind m (fun _ => k))
  (at level 61, right associativity).

Definition throw {A : Type} (e : Error) : M A := fun w => (Throw e, w).

Definition lift {A : Type} (c : Completion A) : M A := fun w => (c, w).

Definition getWorld : M World := fun w => (Normal w, w).

Definition getThis : M Fields := fun w => (Normal (this w), w).

Definition modify (f : Fields -> Fields) : M unit :=
  fun w => (Normal tt, set_this (f (this w)) w).

Definition perform (e : Effect) : M unit :=
  fun w => (Normal tt, set_log (log w ++ [e]) w).

Definition when (b : bool) (m : M unit) : M unit := if b then m else ret tt.

Definition validate
    (name : string) (value : Value) (options : list ValidationOption)
  : M unit :=
  if validateArgument name value options then ret tt
  else throw (ValidationError name).

(** *** The browser *)

(** [dispatchEvent] with no listener registered for the scroller's events,
    or with listeners that leave the scroller and its container alone:
    the event is dispatched and the method goes on.  Listeners that act
    on the scroller while the event is dispatched are the subject of
    [Listeners] below. *)
Definition dispatchEvent (type : string) (detail : EventData.t) : M unit :=
  perform (DispatchEvent type detail).

Definition writeScrollLeft (v : float) : M unit :=
  fun w =>
    let c := scrollContainer w in
    perform (SetScrollLeft v)
      (set_scrollContainer
         {| scrollLeft := v; scrollTop := scrollTop c;
            scrollWidth := scrollWidth c; clientWidth := clientWidth c;
            scrollHeight := scrollHeight c; clientHeight := clientHeight c |}
         w).

Definition writeScrollTop (v : float) : M unit :=
  fun w =>
    let c := scrollContainer w in
    perform (SetScrollTop v)
      (set_scrollContainer
         {| scrollLeft := scrollLeft c; scrollTop := v;
            scrollWidth := scrollWidth c; clientWidth := clientWidth c;
            scrollHeight := scrollHeight c; clientHeight := clientHeight c |}
         w).

Definition scrollTo (x y : float) : M unit :=
  fun w =>
    let c := scrollContainer w in
    perform (ScrollTo x y)
      (set_scrollContainer
         {| scrollLeft := x; scrollTop := y;
            scrollWidth := scrollWidth c; clientWidth := clientWidth c;
            scrollHeight := scrollHeight c; clientHeight := clientHeight c |}
         w).

Definition requestAnimationFrame : M nat :=
  fun w =>
    let id := nextAnimationFrame w in
    (Normal id,
     set_log (log w ++ [RequestAnimationFrame id])
       (set_nextAnimationFrame (S id)
          (set_animationFrames (animationFrames w ++ [id]) w))).

Definition cancelAnimationFrame (id : option nat) : M unit :=
  fun w =>
    let remaining :=
      match id with
      | Some i => filter (fun j => negb (Nat.eqb i j)) (animationFrames w)
      | None => animationFrames w
      end in
    perform (CancelAnimationFrame id) (set_animationFrames remaining w).

(** [new Promise((resolve) => ...)]: a fresh promise, named by a number. *)
Definition newPromise : M nat :=
  fun w => (Normal (nextPromise w), set_nextPromise (S (nextPromise w)) w).

(** *** The methods *)

(** The argument of [#stopScroll] and [#getScrollEventData]: the only
    property ever passed is [interruptedBy]; [None] is the empty
    object. *)
Definition ExtraData : Type := option string.

(** [#getScrollEventData(extraData)]. *)
Definition getScrollEventData (extraData : ExtraData) : M EventData.t :=
  s <- getThis ;;
  ret {| EventData.startPoint :=
           (scrollStartingPointX s, scrollStartingPointY s);
         EventData.endPoint := (scrollEndingPointX s, scrollEndingPointY s);
         EventData.distance :=
           JsNumber.Math_hypot
             (JsNumber.Math_abs
                (scrollStartingPointX s - scrollEndingPointX s))
             (JsNumber.Math_abs
                (scrollStartingPointY s - scrollEndingPointY s));
         EventData.duration := scrollDuration s;
         EventData.elapsedTime := scrollElapsedTime s;
         EventData.interruptedBy := extraData |}.

(** The assignments that end [#stopScroll]. *)
Definition resetFields (s : Fields) : Fields :=
  {| cubicBezierSolver := cubicBezierSolver s;
     scrolling := false;
     stopScrollingOnPointerDown := stopScrollingOnPointerDown s;
     scrollDistanceX := nan;
     scrollDistanceY := nan;
     scrollDuration := nan;
     scrollElapsedTime := nan;
     scrollEndingPointX := nan;
     scrollEndingPointY := nan;
     scrollRafId := scrollRafId s;
     scrollResolve := None;
     scrollStartingPointX := nan;
     scrollStartingPointY := nan;
     scrollStartTime := nan |}.

(** [#stopScroll(extraData = {})]. *)
Definition stopScroll (extraData : ExtraData) : M unit :=
  eventData <- getScrollEventData extraData ;;
  s <- getThis ;;
  match scrollResolve s with
  | Some promise => perform (ResolvePromise promise eventData)
  | None => throw (TypeError "this.#scrollResolve is not a function")
  end ;;
  dispatchEvent "smoothScrollerScrollStop" eventData ;;
  w <- getWorld ;;
  when (isIOsSafari w) (perform (StyleRemoveProperty "overflow")) ;;
  cancelAnimationFrame (scrollRafId s) ;;
  modify resetFields.

(** The scrollable extent of the container along each axis, as the code
    computes it. *)
Definition rightEdge (c : Element) : float := scrollWidth c - clientWidth c.

Definition bottomEdge (c : Element) : float :=
  scrollHeight c - clientHeight c.

(** [limitCorrectedX] and [limitCorrectedY]. *)
Definition limitCorrectedX (c : Element) (x : float) : float :=
  let leftEdge := 0 in
  if x <? leftEdge then leftEdge
  else if rightEdge c <? x then rightEdge c else x.

Definition limitCorrectedY (c : Element) (y : float) : float :=
  let topEdge := 0 in
  if y <? topEdge then topEdge
  else if bottomEdge c <? y then bottomEdge c else y.

(** What the body of [#scroll] returns: a promise it has created, or
    nothing. *)
Inductive Returned : Type :=
| ReturnPromise (promise : nat)
| ReturnUndefined.

(** The first half of the block under [if (isNewScroll)]: the arguments
    are validated and the solver is kept or replaced. *)
Definition checkArguments
    (x y duration : float) (easing : Options.Easing)
    (stopScrollingOnPointerDown_ : bool)
  : M unit :=
  validate "x" (Number x) [allowedTypes ["number"]] ;;
  validate "y" (Number y) [allowedTypes ["number"]] ;;
  validate "duration" (Number duration)
    [allowedTypes ["number"]; allowedMin 0; allowFiniteNumbersOnly true] ;;
  validate "stopScrollingOnPointerDown"
    (Boolean stopScrollingOnPointerDown_) [allowedTypes ["boolean"]] ;;
  let easing : option (list float) :=
    match easing with
    | Options.Keyword keyword => CubicBezierSolver.easingKeywordMap keyword
    | Options.Points l => Some l
    end in
  s <- getThis ;;
  match cubicBezierSolver s with
  | None =>
      solver <- lift (CubicBezierSolver.new
                        (match easing with
                         | Some l => Array l
                         | None => Undefined
                         end)) ;;
      modify (set_cubicBezierSolver (Some solver))
  | Some current =>
      match easing with
      | None => throw (TypeError "easing is not iterable")
      | Some l =>
          if negb (CubicBezierSolver.controlPointsMatchCurrentControlPoints
                     current l)
          then
            solver <- lift (CubicBezierSolver.new (Array l)) ;;
            modify (set_cubicBezierSolver (Some solver))
          else ret tt
      end
  end.

(** The second half of the block: a scroll in progress is stopped, the
    distances are computed and the new scroll is finished at once or
    handed to the first animation frame.  [Some r] is a [return r];
    [None] is reaching the end of the block, after which the code below
    it runs. *)
Definition beginScroll
    (x y duration : float) (stopScrollingOnPointerDown_ : bool)
  : M (option Returned) :=
  s <- getThis ;;
  when (match scrollResolve s with Some _ => true | None => false end)
    (stopScroll (Some "New smooth scroll")) ;;
  w <- getWorld ;;
  when (isIOsSafari w) (perform (StyleSetProperty "overflow" "hidden")) ;;
  modify (set_stopScrollingOnPointerDown (Some stopScrollingOnPointerDown_)) ;;
  modify (set_scrollStartingPointX (scrollLeft (scrollContainer w))) ;;
  modify (set_scrollStartingPointY (scrollTop (scrollContainer w))) ;;
  let limitCorrectedX := limitCorrectedX (scrollContainer w) x in
  let limitCorrectedY := limitCorrectedY (scrollContainer w) y in
  modify (fun s =>
            set_scrollDistanceX (limitCorrectedX - scrollStartingPointX s) s) ;;
  modify (fun s =>
            set_scrollDistanceY (limitCorrectedY - scrollStartingPointY s) s) ;;
  s <- getThis ;;
  let absoluteScrollDistanceX := JsNumber.Math_abs (scrollDistanceX s) in
  let absoluteScrollDistanceY := JsNumber.Math_abs (scrollDistanceY s) in
  if (absoluteScrollDistanceX <? 1) && (absoluteScrollDistanceY <? 1) then
    promise <- newPromise ;;
    modify (set_scrollResolve (Some promise)) ;;
    stopScroll None ;;
    ret (Some (ReturnPromise promise))
  else if (1 <=? absoluteScrollDistanceX) || (1 <=? absoluteScrollDistanceY)
  then
    modify (set_scrollDuration duration) ;;
    s <- getThis ;;
    if scrollDuration s <=? 0 then
      scrollTo limitCorrectedX limitCorrectedY ;;
      promise <- newPromise ;;
      modify (set_scrollResolve (Some promise)) ;;
      stopScroll None ;;
      ret (Some (ReturnPromise promise))
    else if 0 <? scrollDuration s then
      promise <- newPromise ;;
      modify (set_scrollResolve (Some promise)) ;;
      id <- requestAnimationFrame ;;
      modify (set_scrollRafId (Some id)) ;;
      ret (Some (ReturnPromise promise))
    else ret None
  else ret None.

(** The block under [if (isNewScroll)]. *)
Definition newScroll
    (x y duration : float) (easing : Options.Easing)
    (stopScrollingOnPointerDown_ : bool)
  : M (option Returned) :=
  checkArguments x y duration easing stopScrollingOnPointerDown_ ;;
  beginScroll x y duration stopScrollingOnPointerDown_.

(** The code of [#scroll] below the [if (isNewScroll)] block: one step of
    the animation at time [currentTime]. *)
Definition animate (fuel : nat) (currentTime : float) : M Returned :=
  s <- getThis ;;
  when (negb (JsNumber.truthy (scrollStartTime s)))
    (modify (set_scrollStartTime currentTime) ;;
     modify (set_scrolling true) ;;
     detail <- getScrollEventData None ;;
     dispatchEvent "smoothScrollerScrollStart" detail) ;;
  detail <- getScrollEventData None ;;
  dispatchEvent "smoothScrollerScroll" detail ;;
  modify (fun s => set_scrollElapsedTime (currentTime - scrollStartTime s) s) ;;
  s <- getThis ;;
  let elapsedTimeRatio :=
    JsNumber.Math_min (scrollElapsedTime s / scrollDuration s) 1 in
  solver <- match cubicBezierSolver s with
            | Some solver => ret solver
            | None => throw (TypeError "this.#cubicBezierSolver is undefined")
            end ;;
  scrollRatio <- lift (CubicBezierSolver.solve solver fuel elapsedTimeRatio
                         (1 / (200 * scrollDuration s))) ;;
  let getNextScrollPosition (startingPoint scrollDistance : float) :=
    startingPoint + scrollRatio * scrollDistance in
  when (JsNumber.truthy (scrollDistanceX s))
    (let nextScrollLeft :=
       getNextScrollPosition (scrollStartingPointX s) (scrollDistanceX s) in
     writeScrollLeft nextScrollLeft) ;;
  when (JsNumber.truthy (scrollDistanceY s))
    (let nextScrollTop :=
       getNextScrollPosition (scrollStartingPointY s) (scrollDistanceY s) in
     writeScrollTop nextScrollTop) ;;
  w <- getWorld ;;
  modify (set_scrollEndingPointX (scrollLeft (scrollContainer w))) ;;
  modify (set_scrollEndingPointY (scrollTop (scrollContainer w))) ;;
  if elapsedTimeRatio <? 1 then
    id <- requestAnimationFrame ;;
    modify (set_scrollRafId (Some id)) ;;
    ret ReturnUndefined
  else if 1 <=? elapsedTimeRatio then
    stopScroll None ;;
    ret ReturnUndefined
  else ret ReturnUndefined.

(** The body of [#scroll(options)], with the parameter defaults. *)
Definition scrollBody (fuel : nat) (options : Options.t) : M Returned :=
  w <- getWorld ;;
  let x := match Options.x options with
           | Some x => x
           | None => scrollLeft (scrollContainer w)
           end in
  let y := match Options.y options with
           | Some y => y
           | None => scrollTop (scrollContainer w)
           end in
  let duration := match Options.duration options with
                  | Some d => d
                  | None => 600
                  end in
  let easing := match Options.easing options with
                | Some e => e
                | None => Options.Keyword "ease"
                end in
  let stopScrollingOnPointerDown_ :=
    match Options.stopScrollingOnPointerDown options with
    | Some b => b
    | None => true
    end in
  let currentTime := match Options.currentTime options with
                     | Some t => t
                     | None => nan
                     end in
  let isNewScroll := JsNumber.isNaN currentTime in
  returned <- (if isNewScroll
               then newScroll x y duration easing stopScrollingOnPointerDown_
               else ret None) ;;
  match returned with
  | Some r => ret r
  | None => animate fuel currentTime
  end.

(** The promise an [async] function hands to its caller. *)
Inductive Promise : Type :=
| Follows (promise : nat)
| FulfilledWithUndefined
| RejectedWith (e : Error).

(** What a call gives its caller: a value, or an exception thrown at the
    caller. *)
Inductive Call (A : Type) : Type :=
| Returns (a : A)
| Throws (e : Error)
| Hangs.

Arguments Returns {A} a.
Arguments Throws {A} e.
Arguments Hangs {A}.

(** [async]: the function always returns a promise; an exception thrown
    by its body rejects that promise. *)
Definition async (body : M Returned) (w : World) : Call Promise * World :=
  match body w with
  | (Normal (ReturnPromise promise), w') => (Returns (Follows promise), w')
  | (Normal ReturnUndefined, w') => (Returns FulfilledWithUndefined, w')
  | (Throw e, w') => (Returns (RejectedWith e), w')
  | (OutOfFuel, w') => (Hangs, w')
  end.

(** [async #scroll(options)]. *)
Definition scroll (fuel : nat) (options : Options.t) (w : World)
  : Call Promise * World :=
  async (scrollBody fuel options) w.

(** The [pointerdown] listener installed by the constructor. *)
Definition pointerdown : M unit :=
  s <- getThis ;;
  when (match scrollResolve s with Some _ => true | None => false end
        && match stopScrollingOnPointerDown s with
           | Some b => b
           | None => false
           end)
    (stopScroll (Some "Pointer down on scroll container")).

(** The field initialisers of the class. *)
Definition initialFields : Fields :=
  {| cubicBezierSolver := None;
     scrolling := false;
     stopScrollingOnPointerDown := None;
     scrollDistanceX := nan;
     scrollDistanceY := nan;
     scrollDuration := nan;
     scrollElapsedTime := nan;
     scrollEndingPointX := nan;
     scrollEndingPointY := nan;
     scrollRafId := None;
     scrollResolve := None;
     scrollStartingPointX := nan;
     scrollStartingPointY := nan;
     scrollStartTime := nan |}.

(** A scroller freshly constructed on a container. *)
Definition newWorld (container : Element) (iOsSafari : bool) : World :=
  {| this := initialFields; scrollContainer := container;
     isIOsSafari := iOsSafari; animationFrames := [];
     nextAnimationFrame := 0; nextPromise := 0; log := [] |}.

(** *** The frame driver *)

(** The callback passed to [requestAnimationFrame]:
    [(currentTime) => this.#scroll({ currentTime })]. *)
Definition frameCallback (fuel : nat) (currentTime : float) (w : World)
  : Call Promise * World :=
  scroll fuel
    {| Options.x := None; Options.y := None; Options.duration := None;
       Options.easing := None; Options.stopScrollingOnPointerDown := None;
       Options.currentTime := Some currentTime |}
    w.

(** One animation frame at time [timestamp]: every callback that was
    requested before the frame and is not cancelled by the time its turn
    comes is run once.  [None] when a callback does not return. *)
Fixpoint runCallbacks
    (fuel : nat) (timestamp : float) (ids : list nat) (w : World)
  : option World :=
  match ids with
  | [] => Some w
  | id :: rest =>
      if existsb (Nat.eqb id) (animationFrames w) then
        let w1 :=
          set_animationFrames
            (filter (fun j => negb (Nat.eqb id j)) (animationFrames w)) w in
        match frameCallback fuel timestamp w1 with
        | (Hangs, _) => None
        | (_, w2) => runCallbacks fuel timestamp rest w2
        end
      else runCallbacks fuel timestamp rest w
  end.

Definition animationFrame (fuel : nat) (timestamp : float) (w : World)
  : option World :=
  runCallbacks fuel timestamp (animationFrames w) w.

End SmoothScroller.

(* ================================================================== *)
(** ** Vocabulary of the statements *)

Module Scenario.

Import SmoothScroller.


Definition tallContainer : Element :=
  {| scrollLeft := 0; scrollTop := 0;
     scrollWidth := 500; clientWidth := 500;
     scrollHeight := 2000; clientHeight := 1000 |}.


(** The solver of the keyword ["linear"], control points [0, 0, 1, 1]. *)
Definition linearSolver : CubicBezierSolver.t :=
  {| CubicBezierSolver.controlPoints :=
       {| CubicBezierSolver.p1x := 0; CubicBezierSolver.p1y := 0;
          CubicBezierSolver.p2x := 1; CubicBezierSolver.p2y := 1 |};
     CubicBezierSolver.ax := -2; CubicBezierSolver.bx := 3;
     CubicBezierSolver.cx := 0;
     CubicBezierSolver.ay := -2; CubicBezierSolver.by_ := 3;
     CubicBezierSolver.cy := 0 |}.

(** The bracket after [n] iterations of the bisection loop, when none of
    them returns. *)
Fixpoint bisectionAfter
    (this : CubicBezierSolver.t) (x epsilon : float) (n : nat)
    (b : CubicBezierSolver.Bracket) : option CubicBezierSolver.Bracket :=
  match n with
  | O => Some b
  | S n' =>
      match CubicBezierSolver.bisectionStep this x epsilon b with
      | inl _ => None
      | inr b' => bisectionAfter this x epsilon n' b'
      end
  end.

(** The bracket on which the loop stays for the time ratio 0.7 and the
    tolerance 1e-16 on the linear curve: two neighbouring doubles whose
    midpoint rounds to the lower one. *)
Definition stuckBracket : CubicBezierSolver.Bracket :=
  {| CubicBezierSolver.t0 := 0x1.46031d377a5e4p-1;
     CubicBezierSolver.t1 := 0x1.46031d377a5e5p-1;
     CubicBezierSolver.t2 := 0x1.46031d377a5e4p-1 |}.

(** *** Runs *)

(** Successive animation frames at the given timestamps. *)
Fixpoint runFrames (fuel : nat) (timestamps : list float) (w : World)
  : option World :=
  match timestamps with
  | [] => Some w
  | timestamp :: rest =>
      match animationFrame fuel timestamp w with
      | Some w' => runFrames fuel rest w'
      | None => None
      end
  end.

(** Successive calls of [#scroll], with what each returned. *)
Fixpoint requestScrolls (fuel : nat) (requests : list Options.t) (w : World)
  : list (Call Promise) * World :=
  match requests with
  | [] => ([], w)
  | options :: rest =>
      let (returned, w1) := scroll fuel options w in
      let (others, w2) := requestScrolls fuel rest w1 in
      (returned :: others, w2)
  end.

(** The effects a run has added to the log of the world it started in. *)
Definition effectsSince (before after : World) : list Effect :=
  skipn (List.length (log before)) (log after).

(** The resolutions in a list of effects: which promise, and the
    [interruptedBy] it is resolved with. *)
Fixpoint resolutions (l : list Effect) : list (nat * option string) :=
  match l with
  | [] => []
  | ResolvePromise promise value :: rest =>
      (promise, EventData.interruptedBy value) :: resolutions rest
  | _ :: rest => resolutions rest
  end.

(** The values a given promise is resolved with in a list of effects. *)
Fixpoint valuesResolved (promise : nat) (l : list Effect)
  : list EventData.t :=
  match l with
  | [] => []
  | ResolvePromise promise' value :: rest =>
      if Nat.eqb promise' promise then value :: valuesResolved promise rest
      else valuesResolved promise rest
  | _ :: rest => valuesResolved promise rest
  end.

(** The events of a given type in a list of effects. *)
Fixpoint eventsOfType (type : string) (l : list Effect)
  : list EventData.t :=
  match l with
  | [] => []
  | DispatchEvent type' detail :: rest =>
      if String.eqb type type' then detail :: eventsOfType type rest
      else eventsOfType type rest
  | _ :: rest => eventsOfType type rest
  end.

Definition isScrollLeftWrite (e : Effect) : bool :=
  match e with SetScrollLeft _ => true | _ => false end.

Definition isScrollTopWrite (e : Effect) : bool :=
  match e with SetScrollTop _ => true | _ => false end.

Definition isOffsetWrite (e : Effect) : bool :=
  isScrollLeftWrite e || isScrollTopWrite e.

(** A run from [w] to [w'] that writes no offset on an axis whose
    distance in [w] is zero or unset, and leaves such a distance zero or
    unset. *)
Definition quiet (w w' : World) : Prop :=
  exists l,
    log w' = log w ++ l /\
    (JsNumber.truthy (scrollDistanceX (this w)) = false ->
     filter isScrollLeftWrite l = [] /\
     JsNumber.truthy (scrollDistanceX (this w')) = false) /\
    (JsNumber.truthy (scrollDistanceY (this w)) = false ->
     filter isScrollTopWrite l = [] /\
     JsNumber.truthy (scrollDistanceY (this w')) = false).

(** *** Requests *)

(** The arguments of a request once the parameter defaults are applied. *)
Definition requestedX (options : Options.t) (w : World) : float :=
  match Options.x options with
  | Some x => x
  | None => scrollLeft (scrollContainer w)
  end.

Definition requestedY (options : Options.t) (w : World) : float :=
  match Options.y options with
  | Some y => y
  | None => scrollTop (scrollContainer w)
  end.

Definition requestedDuration (options : Options.t) : float :=
  match Options.duration options with Some d => d | None => 600 end.

Definition requestedEasing (options : Options.t) : Options.Easing :=
  match Options.easing options with
  | Some e => e
  | None => Options.Keyword "ease"
  end.

Definition requestedStopScrollingOnPointerDown (options : Options.t)
  : bool :=
  match Options.stopScrollingOnPointerDown options with
  | Some b => b
  | None => true
  end.

(** The request passes the validation of its arguments and of its
    easing. *)
Definition passesValidation (options : Options.t) (w : World) : bool :=
  match fst (checkArguments (requestedX options w) (requestedY options w)
               (requestedDuration options) (requestedEasing options)
               (requestedStopScrollingOnPointerDown options) w) with
  | Normal _ => true
  | _ => false
  end.

(** The signed distances of a request: clamped target minus current
    offset. *)
Definition distanceX (options : Options.t) (w : World) : float :=
  limitCorrectedX (scrollContainer w) (requestedX options w)
  - scrollLeft (scrollContainer w).

Definition distanceY (options : Options.t) (w : World) : float :=
  limitCorrectedY (scrollContainer w) (requestedY options w)
  - scrollTop (scrollContainer w).

(** The easing is a known keyword or an array the solver's constructor
    accepts. *)
Definition validEasing (easing : Options.Easing) : bool :=
  match (match easing with
         | Options.Keyword keyword =>
             CubicBezierSolver.easingKeywordMap keyword
         | Options.Points l => Some l
         end) with
  | Some l =>
      match CubicBezierSolver.new (Array l) with
      | Normal _ => true
      | _ => false
      end
  | None => false
  end.

(** A request as the exactly-once property takes it: a new, valid request
    with a positive duration whose clamped target is at least one unit
    away from the offset of the container of [w] on some axis. *)
Definition startsAnimation (options : Options.t) (w : World) : bool :=
  match Options.currentTime options with None => true | Some _ => false end
  && validateArgument "duration" (Number (requestedDuration options))
       [allowedTypes ["number"]; allowedMin 0; allowFiniteNumbersOnly true]
  && validEasing (requestedEasing options)
  && (0 <? requestedDuration options)
  && ((1 <=? JsNumber.Math_abs (distanceX options w))
      || (1 <=? JsNumber.Math_abs (distanceY options w))).

(** The promise, if any, that a world holds unresolved. *)
Definition pendingOf (w : World) : list nat :=
  match scrollResolve (this w) with
  | Some promise => [promise]
  | None => []
  end.

(** Without a scroll in progress no frame is requested; with one, at most
    the frame whose identifier the scroller remembers. *)
Definition framesConsistent (w : World) : Prop :=
  match scrollResolve (this w) with
  | None => animationFrames w = []
  | Some _ =>
      animationFrames w = [] \/
      exists id, animationFrames w = [id] /\ scrollRafId (this w) = Some id
  end.

(** No scroll in progress. *)
Definition idle (w : World) : Prop :=
  scrollResolve (this w) = None /\ animationFrames w = [].

(** The resolutions the exactly-once property expects of [n] successive
    requests whose promises are numbered from [first]: every promise but
    the last interrupted with [cause], and the last one, once the scroll
    has completed, resolved with [interruptedBy] [null]. *)
Definition expectedResolutions
    (cause : string) (first n : nat) (completed : bool)
  : list (nat * option string) :=
  map (fun promise => (promise, Some cause)) (seq first (n - 1))
  ++ (if completed then [((first + (n - 1))%nat, None)] else []).

Definition completed (w : World) : bool :=
  match scrollResolve (this w) with None => true | Some _ => false end.

(** A world between operations: the promise of a scroll in progress has
    been created, and without a scroll in progress the elapsed time is
    unset. *)
Definition settled (w : World) : bool :=
  match scrollResolve (this w) with
  | Some promise => Nat.ltb promise (nextPromise w)
  | None => is_nan (scrollElapsedTime (this w))
  end.

(** *** The worlds the operations reach *)

(** What keeps holding between operations: the frames requested are those
    of the scroll in progress, whose promise has been created; without a
    scroll in progress the timing fields are unset. *)
Definition consistent (w : World) : Prop :=
  framesConsistent w /\
  match scrollResolve (this w) with
  | Some promise => (promise < nextPromise w)%nat
  | None =>
      scrollElapsedTime (this w) = nan /\
      scrollStartTime (this w) = nan /\
      scrollDuration (this w) = nan
  end.

(** One operation on a scroller: a request (the static [scroll] method
    forwards no [currentTime]), an animation frame, or a pointer going down
    on the container. *)
Inductive step : World -> World -> Prop :=
| step_request (fuel : nat) (options : Options.t) (p : Promise) (w w' : World) :
    Options.currentTime options = None ->
    scroll fuel options w = (Returns p, w') ->
    step w w'
| step_frame (fuel : nat) (timestamp : float) (w w' : World) :
    animationFrame fuel timestamp w = Some w' ->
    step w w'
| step_pointerdown (w : World) :
    step w (snd (pointerdown w)).

Inductive reachable : World -> Prop :=
| reachable_new (container : Element) (iOsSafari : bool) :
    reachable (newWorld container iOsSafari)
| reachable_step (w w' : World) :
    reachable w -> step w w' -> reachable w'.

(** The errors that the validation of a request throws: those of the
    [duration] check, of the solver's constructor, and of spreading an
    easing that the keyword map does not know. *)
Definition raisedByRequestValidation (e : Error) : bool :=
  match e with
  | ValidationError name =>
      existsb (String.eqb name)
        ["duration"; "controlPoints"; "controlPoints values"; "x1"; "x2"]
  | TypeError message => String.eqb message "easing is not iterable"
  end.

(** *** The example of the specification *)

(** [{ y: 1500, duration: 1000, easing: "ease-out" }] on a container of
    content height 2000 and visible height 1000. *)
Definition exampleRequest : Options.t :=
  {| Options.x := None; Options.y := Some 1500;
     Options.duration := Some 1000;
     Options.easing := Some (Options.Keyword "ease-out");
     Options.stopScrollingOnPointerDown := None;
     Options.currentTime := None |}.

Definition exampleStart : World := newWorld tallContainer false.

(** The same request with the invalid duration -1. *)
Definition negativeDurationRequest : Options.t :=
  {| Options.x := None; Options.y := Some 1500;
     Options.duration := Some (-1);
     Options.easing := Some (Options.Keyword "ease-out");
     Options.stopScrollingOnPointerDown := None;
     Options.currentTime := None |}.

(** A request half a pixel away from the current offset. *)
Definition subpixelRequest : Options.t :=
  {| Options.x := None; Options.y := Some 0.5;
     Options.duration := None; Options.easing := None;
     Options.stopScrollingOnPointerDown := None;
     Options.currentTime := None |}.

(** The event data of the example session before its first tick has
    stored anything, and after that tick. *)
Definition exampleDataBeforeFirstTick : EventData.t :=
  {| EventData.startPoint := (0, 0);
     EventData.endPoint := (nan, nan);
     EventData.distance := nan;
     EventData.duration := 1000;
     EventData.elapsedTime := nan;
     EventData.interruptedBy := None |}.

Definition exampleDataAfterFirstTick : EventData.t :=
  {| EventData.startPoint := (0, 0);
     EventData.endPoint := (0, 0);
     EventData.distance := 0;
     EventData.duration := 1000;
     EventData.elapsedTime := 0;
     EventData.interruptedBy := None |}.

(** The world once the example request has returned its promise. *)
Definition exampleRequested : World :=
  snd (scroll 0 exampleRequest exampleStart).

End Scenario.

Import Scenario.

(* ================================================================== *)
(** ** The static members of the class *)

Module SmoothScrollerClass.

Import SmoothScroller.

(** What a caller can pass as [scrollContainer]: an element of the page,
    named by a number, or a value that is no element. *)
Inductive Container : Type :=
| AnElement (element : nat)
| NotAnElement (v : Value).

(** The second argument of the constructor: the symbol private to the
    module, or anything else. *)
Inductive Key : Type :=
| smoothScrollerKey
| otherKey (v : Value).

(** A scroller: the element in [#scrollContainer], and the rest of its
    state with its view of the browser. *)
Definition Scroller : Type := nat * World.

(** The page around the class: its elements, as they are when a scroller
    is created for them; [#scrollerMap], in insertion order; and the
    calls of [classList.add] and [addEventListener] made so far, each
    with the element it was made on. *)
Record Page : Type := {
  elements : nat -> Element;
  browserIsIOsSafari : bool;
  scrollerMap : list Scroller;
  classListAdditions : list (nat * string);
  listenersAdded : list (nat * string)
}.

(** [Map.prototype.get], the scrollers being kept under their
    containers. *)
Fixpoint get (element : nat) (map : list Scroller) : option Scroller :=
  match map with
  | [] => None
  | scroller :: rest =>
      if Nat.eqb (fst scroller) element then Some scroller
      else get element rest
  end.

(** [Map.prototype.set]: the value of a key already present is replaced
    in place, a new key is added at the end.  It also stands for a
    scroller of the map changing its own fields. *)
Fixpoint set (scroller : Scroller) (map : list Scroller) : list Scroller :=
  match map with
  | [] => [scroller]
  | current :: rest =>
      if Nat.eqb (fst current) (fst scroller) then scroller :: rest
      else current :: set scroller rest
  end.

Definition set_scrollerMap (map : list Scroller) (page : Page) : Page :=
  {| elements := elements page;
     browserIsIOsSafari := browserIsIOsSafari page;
     scrollerMap := map;
     classListAdditions := classListAdditions page;
     listenersAdded := listenersAdded page |}.

(** [static getScroller(scrollContainer)]; only elements are ever keys
    of the map. *)
Definition getScroller (scrollContainer : Container) (page : Page)
  : option Scroller :=
  match scrollContainer with
  | AnElement element => get element (scrollerMap page)
  | NotAnElement _ => None
  end.

(** [static getAllScrollers()]. *)
Definition getAllScrollers (page : Page) : list Scroller :=
  scrollerMap page.

(** [constructor(scrollContainer, key)]: the new scroller, and the page
    with the class and the listener added to the container. *)
Definition new (scrollContainer : Container) (key : Key) (page : Page)
  : Completion Scroller * Page :=
  match key with
  | otherKey _ => (Throw (ValidationError "key"), page)
  | smoothScrollerKey =>
      match scrollContainer with
      | NotAnElement _ =>
          (Throw (TypeError "this.#scrollContainer.classList is undefined"),
           page)
      | AnElement element =>
          (Normal (element,
                   newWorld (elements page element)
                     (browserIsIOsSafari page)),
           {| elements := elements page;
              browserIsIOsSafari := browserIsIOsSafari page;
              scrollerMap := scrollerMap page;
              classListAdditions :=
                classListAdditions page ++ [(element, "smooth-scroller")];
              listenersAdded :=
                listenersAdded page ++ [(element, "pointerdown")] |})
      end
  end.

(** The [createScroller] closure of [static scroll]. *)
Definition createScroller (scrollContainer : Container) (page : Page)
  : Completion Scroller * Page :=
  match scrollContainer with
  | NotAnElement _ => (Throw (ValidationError "scrollContainer"), page)
  | AnElement _ =>
      match new scrollContainer smoothScrollerKey page with
      | (Normal scroller, page1) =>
          (Normal scroller,
           set_scrollerMap (set scroller (scrollerMap page1)) page1)
      | (Throw e, page1) => (Throw e, page1)
      | (OutOfFuel, page1) => (OutOfFuel, page1)
      end
  end.

(** The options [static scroll] hands to [#scroll]: all but
    [currentTime]. *)
Definition forwarded (options : Options.t) : Options.t :=
  {| Options.x := Options.x options;
     Options.y := Options.y options;
     Options.duration := Options.duration options;
     Options.easing := Options.easing options;
     Options.stopScrollingOnPointerDown :=
       Options.stopScrollingOnPointerDown options;
     Options.currentTime := None |}.

(** [static scroll({ scrollContainer, x, y, duration, easing,
    stopScrollingOnPointerDown })].  It is not an [async] function: what
    [createScroller] throws is thrown at the caller. *)
Definition scroll
    (fuel : nat) (scrollContainer : Container) (options : Options.t)
    (page : Page) : Call Promise * Page :=
  let matchingScroller := getScroller scrollContainer page in
  match (match matchingScroller with
         | Some scroller => (Normal scroller, page)
         | None => createScroller scrollContainer page
         end) with
  | (Normal scroller, page1) =>
      let (returned, world) :=
        SmoothScroller.scroll fuel (forwarded options) (snd scroller) in
      (returned,
       set_scrollerMap (set (fst scroller, world) (scrollerMap page1)) page1)
  | (Throw e, page1) => (Throws e, page1)
  | (OutOfFuel, page1) => (Hangs, page1)
  end.

(** [getScrollerData()]: the container and whether the scroller is
    scrolling. *)
Definition getScrollerData (scroller : Scroller) : nat * bool :=
  (fst scroller, scrolling (this (snd scroller))).

(** A page on which no scroller has been created. *)
Definition newPage (elements : nat -> Element) (iOsSafari : bool) : Page :=
  {| elements := elements; browserIsIOsSafari := iOsSafari;
     scrollerMap := []; classListAdditions := []; listenersAdded := [] |}.

(** One thing happening on a page: a call of [static scroll] that
    returns or throws, an animation frame reaching the callbacks of one
    scroller, or a pointer going down on the container of a scroller. *)
Inductive step : Page -> Page -> Prop :=
| step_scroll fuel scrollContainer options page returned page' :
    scroll fuel scrollContainer options page = (returned, page') ->
    returned <> Hangs ->
    step page page'
| step_frame fuel timestamp element scroller world page :
    get element (scrollerMap page) = Some scroller ->
    animationFrame fuel timestamp (snd scroller) = Some world ->
    step page
      (set_scrollerMap (set (fst scroller, world) (scrollerMap page)) page)
| step_pointerdown element scroller page :
    get element (scrollerMap page) = Some scroller ->
    step page
      (set_scrollerMap
         (set (fst scroller, snd (pointerdown (snd scroller)))
            (scrollerMap page)) page).

Inductive reachable : Page -> Prop :=
| reachable_new elements iOsSafari : reachable (newPage elements iOsSafari)
| reachable_step page page' :
    reachable page -> step page page' -> reachable page'.

(** What holds of every page that is reached: the map holds one scroller
    for each of its containers, each in a state its operations reach and
    with the browser of the page, and the containers that have been given
    the class and the listener are those of the map, once each. *)
Definition wellFormed (page : Page) : Prop :=
  NoDup (map fst (scrollerMap page)) /\
  (forall scroller,
      In scroller (scrollerMap page) ->
      Scenario.reachable (snd scroller) /\
      isIOsSafari (snd scroller) = browserIsIOsSafari page) /\
  classListAdditions page
  = map (fun element => (element, "smooth-scroller"))
      (map fst (scrollerMap page)) /\
  listenersAdded page
  = map (fun element => (element, "pointerdown"))
      (map fst (scrollerMap page)).

(** *** An example page *)

(** Every element of the example page is like the container of the
    example. *)
Definition examplePage : Page := newPage (fun _ => tallContainer) false.

(** The example request on element 7, then on element 3, then again on
    element 7. *)
Definition examplePageScrolled : Page :=
  snd (scroll 0 (AnElement 7) exampleRequest
         (snd (scroll 0 (AnElement 3) exampleRequest
                 (snd (scroll 0 (AnElement 7) exampleRequest
                         examplePage))))).

End SmoothScrollerClass.

(* ================================================================== *)
(** ** Vocabulary of the results on traces *)

Module Traces.

Import SmoothScroller.

(** The effects of one call of [#stopScroll], in order: the promise is
    resolved, the [smoothScrollerScrollStop] event is dispatched with the
    same data, on iOS Safari the [overflow] property is removed, and the
    frame is cancelled. *)
Definition stopEffects
    (iOsSafari : bool) (promise : nat) (data : EventData.t)
    (rafId : option nat) : list Effect :=
  [ResolvePromise promise data;
   DispatchEvent "smoothScrollerScrollStop" data]
  ++ (if iOsSafari then [StyleRemoveProperty "overflow"] else [])
  ++ [CancelAnimationFrame rafId].

(** The kinds of effect that [#stopScroll] has. *)
Definition endsScroll (e : Effect) : bool :=
  match e with
  | ResolvePromise _ _ => true
  | DispatchEvent type _ => String.eqb type "smoothScrollerScrollStop"
  | StyleRemoveProperty _ => true
  | CancelAnimationFrame _ => true
  | _ => false
  end.

(** A list of effects in which the effects of [#stopScroll] only occur
    together, as whole calls. *)
Inductive stopsAsAWhole (iOsSafari : bool) : list Effect -> Prop :=
| whole_nil : stopsAsAWhole iOsSafari []
| whole_stop promise data rafId rest :
    stopsAsAWhole iOsSafari rest ->
    stopsAsAWhole iOsSafari
      (stopEffects iOsSafari promise data rafId ++ rest)
| whole_other e rest :
    endsScroll e = false ->
    stopsAsAWhole iOsSafari rest ->
    stopsAsAWhole iOsSafari (e :: rest).

Definition isStyleEffect (e : Effect) : bool :=
  match e with
  | StyleSetProperty _ _ => true
  | StyleRemoveProperty _ => true
  | _ => false
  end.

(** Whether the inline style of the container has [overflow: hidden]
    after a list of effects, given whether it had before. *)
Fixpoint overflowHidden (l : list Effect) (hidden : bool) : bool :=
  match l with
  | [] => hidden
  | StyleSetProperty name value :: rest =>
      overflowHidden rest
        (if String.eqb name "overflow" then String.eqb value "hidden"
         else hidden)
  | StyleRemoveProperty name :: rest =>
      overflowHidden rest
        (if String.eqb name "overflow" then false else hidden)
  | _ :: rest => overflowHidden rest hidden
  end.

(** The promises resolved by a list of effects, in order. *)
Definition resolved (l : list Effect) : list nat :=
  map fst (resolutions l).

(** What every operation does to the trace: it appends effects in which
    the promises resolved, followed by the promise left pending, are the
    promise that was pending followed by the promises created; in which
    [#stopScroll] occurs as a whole; and which, on iOS Safari, leave
    [overflow: hidden] in place when a promise is left pending. *)
Definition orderly (w w' : World) : Prop :=
  isIOsSafari w' = isIOsSafari w /\
  (nextPromise w <= nextPromise w')%nat /\
  exists l,
    log w' = log w ++ l /\
    resolved l ++ pendingOf w'
    = pendingOf w ++ seq (nextPromise w) (nextPromise w' - nextPromise w) /\
    stopsAsAWhole (isIOsSafari w) l /\
    (isIOsSafari w = false -> filter isStyleEffect l = []) /\
    (isIOsSafari w = true ->
     forall hidden,
       pendingOf w' <> [] ->
       (pendingOf w <> [] -> hidden = true) ->
       overflowHidden l hidden = true).

(** The values the promises are resolved with in a list of effects. *)
Fixpoint valuesOfResolutions (l : list Effect) : list EventData.t :=
  match l with
  | [] => []
  | ResolvePromise _ value :: rest => value :: valuesOfResolutions rest
  | _ :: rest => valuesOfResolutions rest
  end.

Definition isScrollToCall (e : Effect) : bool :=
  match e with ScrollTo _ _ => true | _ => false end.

Definition isFrameRequest (e : Effect) : bool :=
  match e with RequestAnimationFrame _ => true | _ => false end.

(** *** A scroll in progress *)

(** What stays the same from the request of a scroll to its last tick. *)
Record Session : Type := {
  promise : nat;
  solver : CubicBezierSolver.t;
  duration : float;
  startingPointX : float;
  startingPointY : float;
  distanceOnX : float;
  distanceOnY : float
}.

(** The scroll in progress in a world is that session. *)
Definition inSession (session : Session) (w : World) : Prop :=
  scrollResolve (this w) = Some (promise session) /\
  cubicBezierSolver (this w) = Some (solver session) /\
  scrollDuration (this w) = duration session /\
  scrollStartingPointX (this w) = startingPointX session /\
  scrollStartingPointY (this w) = startingPointY session /\
  scrollDistanceX (this w) = distanceOnX session /\
  scrollDistanceY (this w) = distanceOnY session.

(** The offsets of a container after a tick with progress [ratio]: an
    axis that has a distance is at start + ratio * distance, an axis
    without is where it was. *)
Definition offsetsAfterTick
    (session : Session) (ratio : float) (before : Element) : float * float :=
  (if JsNumber.truthy (distanceOnX session)
   then startingPointX session + ratio * distanceOnX session
   else scrollLeft before,
   if JsNumber.truthy (distanceOnY session)
   then startingPointY session + ratio * distanceOnY session
   else scrollTop before).

(** The session that a request opens in a world. *)
Definition sessionOf
    (options : Options.t) (solver : CubicBezierSolver.t) (w : World)
  : Session :=
  {| promise := nextPromise w;
     solver := solver;
     duration := requestedDuration options;
     startingPointX := scrollLeft (scrollContainer w);
     startingPointY := scrollTop (scrollContainer w);
     distanceOnX := distanceX options w;
     distanceOnY := distanceY options w |}.

(** *** Further example worlds *)

(** The example request repeated while its first scroll is waiting for a
    frame. *)
Definition exampleRepeated : World :=
  snd (scroll 0 exampleRequest exampleRequested).

(** The repeated request after frames at 100 and 1200, which complete
    it. *)
Definition exampleCompleted : World :=
  match runFrames 0 [100; 1200] exampleRepeated with
  | Some w => w
  | None => exampleRepeated
  end.

(** The example request on iOS Safari. *)
Definition exampleOnIOsSafari : World :=
  snd (scroll 0 exampleRequest (newWorld tallContainer true)).

(** The solver of the keyword ["ease-out"], which the example uses. *)
Definition easeOutSolver : CubicBezierSolver.t :=
  match CubicBezierSolver.new (Array [0; 0; 0.58; 1]) with
  | Normal solver => solver
  | _ => linearSolver
  end.

(** The example after its first tick, at time 100. *)
Definition exampleAfterFirstTick : World :=
  match animationFrame 0 100 exampleRequested with
  | Some w => set_animationFrames [] w
  | None => exampleRequested
  end.

(** A pointer goes down on the container of the example while its scroll
    is waiting for a frame. *)
Definition examplePointerDown : World := snd (pointerdown exampleRequested).

(** The example request with [stopScrollingOnPointerDown: false]. *)
Definition unstoppableRequest : Options.t :=
  {| Options.x := None; Options.y := Some 1500;
     Options.duration := Some 1000;
     Options.easing := Some (Options.Keyword "ease-out");
     Options.stopScrollingOnPointerDown := Some false;
     Options.currentTime := None |}.

(** The example request with duration 0. *)
Definition instantRequest : Options.t :=
  {| Options.x := None; Options.y := Some 1500;
     Options.duration := Some 0;
     Options.easing := Some (Options.Keyword "ease-out");
     Options.stopScrollingOnPointerDown := None;
     Options.currentTime := None |}.

End Traces.

(* ================================================================== *)
(** ** The array a caller passes as control points *)

Module ArrayArgument.

(** The caller's array once [new CubicBezierSolver(controlPoints)] has
    run: [controlPointValidator] assigns the limited y-coordinates to
    elements 1 and 3 of the very array it was given, and returns that
    array.  Every check comes before the two assignments, so an array
    that is refused is left as it was. *)
Definition afterNew (controlPoints : list float) : list float :=
  match CubicBezierSolver.new (Array controlPoints), controlPoints with
  | Normal _, [x1; y1; x2; y2] =>
      [x1; CubicBezierSolver.yLimiter y1; x2; CubicBezierSolver.yLimiter y2]
  | _, _ => controlPoints
  end.

End ArrayArgument.

(* ================================================================== *)
(** ** Listeners of the scroller's events *)

Module Listeners.

Import SmoothScroller.

(** What the listeners registered for the scroller's events do when an
    event is dispatched.  [dispatchEvent] runs them before it returns, so
    they run in the middle of the method that dispatches; an exception of
    a listener is reported by the browser and not thrown at the
    dispatcher.  [None] is a listener that does not return. *)
Definition Listener : Type :=
  string -> EventData.t -> World -> option World.

(** No listener, or listeners that leave the scroller and its container
    alone. *)
Definition passive (listener : Listener) : Prop :=
  forall type detail w, listener type detail w = Some w.

(** No listener at all. *)
Definition noListener : Listener := fun _ _ w => Some w.

(** A listener that does nothing when it is told of a scroll that was
    interrupted. *)
Definition quietOnInterruptions (listener : Listener) : Prop :=
  forall detail w,
    EventData.interruptedBy detail <> None ->
    listener "smoothScrollerScrollStop" detail w = Some w.

Section Dispatching.

Variable listener : Listener.

(** [this.#scrollContainer.dispatchEvent(new CustomEvent(type,
    { detail }))]. *)
Definition dispatchEvent (type : string) (detail : EventData.t) : M unit :=
  perform (DispatchEvent type detail) ;;
  fun w =>
    match listener type detail w with
    | Some w' => (Normal tt, w')
    | None => (OutOfFuel, w)
    end.

(** [#stopScroll(extraData = {})].  The resolver is read before the event
    is dispatched, [#scrollRafId] after it. *)
Definition stopScroll (extraData : ExtraData) : M unit :=
  eventData <- getScrollEventData extraData ;;
  s <- getThis ;;
  match scrollResolve s with
  | Some promise => perform (ResolvePromise promise eventData)
  | None => throw (TypeError "this.#scrollResolve is not a function")
  end ;;
  dispatchEvent "smoothScrollerScrollStop" eventData ;;
  w <- getWorld ;;
  when (isIOsSafari w) (perform (StyleRemoveProperty "overflow")) ;;
  s <- getThis ;;
  cancelAnimationFrame (scrollRafId s) ;;
  modify resetFields.

(** The second half of the block under [if (isNewScroll)]. *)
Definition beginScroll
    (x y duration : float) (stopScrollingOnPointerDown_ : bool)
  : M (option Returned) :=
  s <- getThis ;;
  when (match scrollResolve s with Some _ => true | None => false end)
    (stopScroll (Some "New smooth scroll")) ;;
  w <- getWorld ;;
  when (isIOsSafari w) (perform (StyleSetProperty "overflow" "hidden")) ;;
  modify (set_stopScrollingOnPointerDown (Some stopScrollingOnPointerDown_)) ;;
  modify (set_scrollStartingPointX (scrollLeft (scrollContainer w))) ;;
  modify (set_scrollStartingPointY (scrollTop (scrollContainer w))) ;;
  let limitCorrectedX := limitCorrectedX (scrollContainer w) x in
  let limitCorrectedY := limitCorrectedY (scrollContainer w) y in
  modify (fun s =>
            set_scrollDistanceX (limitCorrectedX - scrollStartingPointX s) s) ;;
  modify (fun s =>
            set_scrollDistanceY (limitCorrectedY - scrollStartingPointY s) s) ;;
  s <- getThis ;;
  let absoluteScrollDistanceX := JsNumber.Math_abs (scrollDistanceX s) in
  let absoluteScrollDistanceY := JsNumber.Math_abs (scrollDistanceY s) in
  if (absoluteScrollDistanceX <? 1) && (absoluteScrollDistanceY <? 1) then
    promise <- newPromise ;;
    modify (set_scrollResolve (Some promise)) ;;
    stopScroll None ;;
    ret (Some (ReturnPromise promise))
  else if (1 <=? absoluteScrollDistanceX) || (1 <=? absoluteScrollDistanceY)
  then
    modify (set_scrollDuration duration) ;;
    s <- getThis ;;
    if scrollDuration s <=? 0 then
      scrollTo limitCorrectedX limitCorrectedY ;;
      promise <- newPromise ;;
      modify (set_scrollResolve (Some promise)) ;;
      stopScroll None ;;
      ret (Some (ReturnPromise promise))
    else if 0 <? scrollDuration s then
      promise <- newPromise ;;
      modify (set_scrollResolve (Some promise)) ;;
      id <- requestAnimationFrame ;;
      modify (set_scrollRafId (Some id)) ;;
      ret (Some (ReturnPromise promise))
    else ret None
  else ret None.

(** The block under [if (isNewScroll)]. *)
Definition newScroll
    (x y duration : float) (easing : Options.Easing)
    (stopScrollingOnPointerDown_ : bool)
  : M (option Returned) :=
  checkArguments x y duration easing stopScrollingOnPointerDown_ ;;
  beginScroll x y duration stopScrollingOnPointerDown_.

(** The code of [#scroll] below that block. *)
Definition animate (fuel : nat) (currentTime : float) : M Returned :=
  s <- getThis ;;
  when (negb (JsNumber.truthy (scrollStartTime s)))
    (modify (set_scrollStartTime currentTime) ;;
     modify (set_scrolling true) ;;
     detail <- getScrollEventData None ;;
     dispatchEvent "smoothScrollerScrollStart" detail) ;;
  detail <- getScrollEventData None ;;
  dispatchEvent "smoothScrollerScroll" detail ;;
  modify (fun s => set_scrollElapsedTime (currentTime - scrollStartTime s) s) ;;
  s <- getThis ;;
  let elapsedTimeRatio :=
    JsNumber.Math_min (scrollElapsedTime s / scrollDuration s) 1 in
  solver <- match cubicBezierSolver s with
            | Some solver => ret solver
            | None => throw (TypeError "this.#cubicBezierSolver is undefined")
            end ;;
  scrollRatio <- lift (CubicBezierSolver.solve solver fuel elapsedTimeRatio
                         (1 / (200 * scrollDuration s))) ;;
  let getNextScrollPosition (startingPoint scrollDistance : float) :=
    startingPoint + scrollRatio * scrollDistance in
  when (JsNumber.truthy (scrollDistanceX s))
    (let nextScrollLeft :=
       getNextScrollPosition (scrollStartingPointX s) (scrollDistanceX s) in
     writeScrollLeft nextScrollLeft) ;;
  when (JsNumber.truthy (scrollDistanceY s))
    (let nextScrollTop :=
       getNextScrollPosition (scrollStartingPointY s) (scrollDistanceY s) in
     writeScrollTop nextScrollTop) ;;
  w <- getWorld ;;
  modify (set_scrollEndingPointX (scrollLeft (scrollContainer w))) ;;
  modify (set_scrollEndingPointY (scrollTop (scrollContainer w))) ;;
  if elapsedTimeRatio <? 1 then
    id <- requestAnimationFrame ;;
    modify (set_scrollRafId (Some id)) ;;
    ret ReturnUndefined
  else if 1 <=? elapsedTimeRatio then
    stopScroll None ;;
    ret ReturnUndefined
  else ret ReturnUndefined.

(** The body of [#scroll(options)], with the parameter defaults. *)
Definition scrollBody (fuel : nat) (options : Options.t) : M Returned :=
  w <- getWorld ;;
  let x := match Options.x options with
           | Some x => x
           | None => scrollLeft (scrollContainer w)
           end in
  let y := match Options.y options with
           | Some y => y
           | None => scrollTop (scrollContainer w)
           end in
  let duration := match Options.duration options with
                  | Some d => d
                  | None => 600
                  end in
  let easing := match Options.easing options with
                | Some e => e
                | None => Options.Keyword "ease"
                end in
  let stopScrollingOnPointerDown_ :=
    match Options.stopScrollingOnPointerDown options with
    | Some b => b
    | None => true
    end in
  let currentTime := match Options.currentTime options with
                     | Some t => t
                     | None => nan
                     end in
  let isNewScroll := JsNumber.isNaN currentTime in
  returned <- (if isNewScroll
               then newScroll x y duration easing stopScrollingOnPointerDown_
               else ret None) ;;
  match returned with
  | Some r => ret r
  | None => animate fuel currentTime
  end.

(** [async #scroll(options)]. *)
Definition scroll (fuel : nat) (options : Options.t) (w : World)
  : Call Promise * World :=
  async (scrollBody fuel options) w.

(** The [pointerdown] listener installed by the constructor. *)
Definition pointerdown : M unit :=
  s <- getThis ;;
  when (match scrollResolve s with Some _ => true | None => false end
        && match stopScrollingOnPointerDown s with
           | Some b => b
           | None => false
           end)
    (stopScroll (Some "Pointer down on scroll container")).

(** The callback passed to [requestAnimationFrame]. *)
Definition frameCallback (fuel : nat) (currentTime : float) (w : World)
  : Call Promise * World :=
  scroll fuel
    {| Options.x := None; Options.y := None; Options.duration := None;
       Options.easing := None; Options.stopScrollingOnPointerDown := None;
       Options.currentTime := Some currentTime |}
    w.

(** One animation frame at time [timestamp]. *)
Fixpoint runCallbacks
    (fuel : nat) (timestamp : float) (ids : list nat) (w : World)
  : option World :=
  match ids with
  | [] => Some w
  | id :: rest =>
      if existsb (Nat.eqb id) (animationFrames w) then
        let w1 :=
          set_animationFrames
            (filter (fun j => negb (Nat.eqb id j)) (animationFrames w)) w in
        match frameCallback fuel timestamp w1 with
        | (Hangs, _) => None
        | (_, w2) => runCallbacks fuel timestamp rest w2
        end
      else runCallbacks fuel timestamp rest w
  end.

Definition animationFrame (fuel : nat) (timestamp : float) (w : World)
  : option World :=
  runCallbacks fuel timestamp (animationFrames w) w.

(** One operation on a scroller whose events are listened to. *)
Inductive step : World -> World -> Prop :=
| step_request (fuel : nat) (options : Options.t) (p : Promise) (w w' : World) :
    Options.currentTime options = None ->
    scroll fuel options w = (Returns p, w') ->
    step w w'
| step_frame (fuel : nat) (timestamp : float) (w w' : World) :
    animationFrame fuel timestamp w = Some w' ->
    step w w'
| step_pointerdown (w w' : World) :
    pointerdown w = (Normal tt, w') ->
    step w w'.

Inductive reachable : World -> Prop :=
| reachable_new (container : Element) (iOsSafari : bool) :
    reachable (newWorld container iOsSafari)
| reachable_step (w w' : World) :
    reachable w -> step w w' -> reachable w'.

End Dispatching.






End Listeners.

(* ================================================================== *)
(** ** Facts about binary64 comparisons *)

Module FloatFacts.

Lemma SFcompare_antisym (a b : spec_float) (c : comparison) :
  SFcompare a b = Some c -> SFcompare b a = Some (CompOpp c).
Proof.
  destruct a as [sa | sa | | sa ma ea], b as [sb | sb | | sb mb eb];
    simpl; intros H; inversion H; subst; clear H;
    try (destruct sa; reflexivity);
    try (destruct sb; reflexivity);
    try (destruct sa, sb; reflexivity).
  destruct sa, sb; try reflexivity;
    rewrite (Z.compare_antisym ea eb);
    destruct (ea ?= eb)%Z; simpl; try reflexivity;
    rewrite (ZC4 mb ma); now rewrite ?CompOpp_involutive.
Qed.

Lemma SFcompare_refl (a : spec_float) :
  a <> S754_nan -> SFcompare a a = Some Eq.
Proof.
  destruct a as [s | s | | s m e]; simpl; intros H;
    try reflexivity; try congruence.
  - now destruct s.
  - rewrite Z.compare_refl, Pcompare_refl. now destruct s.
Qed.

Lemma SFcompare_defined (a b : spec_float) :
  a <> S754_nan -> b <> S754_nan -> exists c, SFcompare a b = Some c.
Proof.
  destruct a, b; simpl; intros Ha Hb; try congruence; eauto.
Qed.

Lemma is_nan_false_iff (a : float) :
  is_nan a = false <-> Prim2SF a <> S754_nan.
Proof.
  unfold is_nan. rewrite FloatAxioms.eqb_spec. unfold SFeqb. split.
  - intros H E. rewrite E in H. simpl in H. discriminate.
  - intros H. now rewrite (SFcompare_refl _ H).
Qed.

Lemma leb_ltb_false (a b : float) : (a <=? b) = true -> (b <? a) = false.
Proof.
  rewrite FloatAxioms.leb_spec, FloatAxioms.ltb_spec. unfold SFleb, SFltb.
  destruct (SFcompare (Prim2SF a) (Prim2SF b)) as [c |] eqn:E;
    [ | discriminate ].
  rewrite (SFcompare_antisym _ _ _ E).
  destruct c; simpl; congruence.
Qed.

Lemma ltb_false_leb (a b : float) :
  is_nan a = false -> is_nan b = false ->
  (a <? b) = false -> (b <=? a) = true.
Proof.
  rewrite !is_nan_false_iff, FloatAxioms.leb_spec, FloatAxioms.ltb_spec. unfold SFleb, SFltb.
  intros Ha Hb.
  destruct (SFcompare_defined _ _ Ha Hb) as [c E]. rewrite E.
  rewrite (SFcompare_antisym _ _ _ E).
  destruct c; simpl; congruence.
Qed.


Lemma leb_not_nan (a b : float) :
  (a <=? b) = true -> is_nan a = false /\ is_nan b = false.
Proof.
  rewrite FloatAxioms.leb_spec, !is_nan_false_iff. unfold SFleb.
  destruct (Prim2SF a), (Prim2SF b); simpl; intros H;
    split; congruence.
Qed.

Lemma ltb_leb_false (a b : float) : (a <? b) = true -> (b <=? a) = false.
Proof.
  rewrite FloatAxioms.leb_spec, FloatAxioms.ltb_spec. unfold SFleb, SFltb.
  destruct (SFcompare (Prim2SF a) (Prim2SF b)) as [c |] eqn:E;
    [| discriminate].
  rewrite (SFcompare_antisym _ _ _ E).
  destruct c; simpl; congruence.
Qed.

Lemma leb_ltb_andb_false (a b : float) :
  (1 <=? a) || (1 <=? b) = true -> (a <? 1) && (b <? 1) = false.
Proof.
  intros H. apply orb_true_iff in H. destruct H as [H | H];
    rewrite (leb_ltb_false _ _ H); [reflexivity | apply andb_false_r].
Qed.

Lemma is_nan_eq (a : float) : is_nan a = true -> a = nan.
Proof.
  intros H. rewrite <- (SF2Prim_Prim2SF a).
  destruct (Prim2SF a) eqn:E; try reflexivity;
    assert (Hn : Prim2SF a <> S754_nan) by (rewrite E; discriminate);
    apply is_nan_false_iff in Hn; congruence.
Qed.

Lemma is_finite_not_nan (a : float) : is_finite a = true -> is_nan a = false.
Proof.
  unfold is_finite. destruct (is_nan a); simpl; congruence.
Qed.

End FloatFacts.

(* ================================================================== *)
(** ** The y-limit of the control points *)

Section YLimiter.

Import CubicBezierSolver.

Lemma yLimit_value : yLimit = 1501199875790165.
Proof. reflexivity. Qed.

Lemma yLimiter_above (y : float) :
  (yLimit <=? abs y) = true -> yLimiter y = yLimit.
Proof.
  intros H. unfold yLimiter, JsNumber.Math_abs.
  now rewrite (FloatFacts.leb_ltb_false _ _ H).
Qed.

Lemma yLimiter_below (y : float) :
  (abs y <? yLimit) = true -> yLimiter y = y.
Proof.
  intros H. unfold yLimiter, JsNumber.Math_abs. now rewrite H.
Qed.

Lemma new_array_points (x1 y1 x2 y2 : float) (solver : CubicBezierSolver.t) :
  CubicBezierSolver.new (Array [x1; y1; x2; y2]) = Normal solver ->
  controlPoints solver =
    {| p1x := x1; p1y := yLimiter y1; p2x := x2; p2y := yLimiter y2 |}.
Proof.
  unfold CubicBezierSolver.new, controlPointValidator.
  repeat match goal with
         | |- context [if ?b then _ else _] => destruct b
         end;
    intros H; inversion H; reflexivity.
Qed.

(** C10: in the constructor, a y-coordinate whose absolute value is at
    least [floor(MAX_SAFE_INTEGER / 6)] is stored as that positive limit,
    whatever its sign, and a y-coordinate whose absolute value is strictly
    below the limit is stored unchanged. *)
Theorem yLimiter_replaces_large_y_by_positive_limit
    (x1 y1 x2 y2 : float) (solver : CubicBezierSolver.t) :
  CubicBezierSolver.new (Array [x1; y1; x2; y2]) = Normal solver ->
  let limit := JsNumber.Math_floor (JsNumber.MAX_SAFE_INTEGER / 6) in
  (0 <? limit) = true /\
  ((limit <=? JsNumber.Math_abs y1) = true -> p1y (controlPoints solver) = limit) /\
  ((limit <=? JsNumber.Math_abs y2) = true -> p2y (controlPoints solver) = limit) /\
  ((JsNumber.Math_abs y1 <? limit) = true -> p1y (controlPoints solver) = y1) /\
  ((JsNumber.Math_abs y2 <? limit) = true -> p2y (controlPoints solver) = y2).
Proof.
  intros H limit. rewrite (new_array_points _ _ _ _ _ H). simpl.
  change limit with yLimit. unfold JsNumber.Math_abs.
  repeat split; auto using yLimiter_above, yLimiter_below.
Qed.

(** A large negative [p1y] and a small [p2y]. *)
Lemma yLimiter_replaces_large_y_by_positive_limit_witness :
  exists solver,
    CubicBezierSolver.new (Array [0.25; -2e15; 0.25; 1]) = Normal solver /\
    p1y (controlPoints solver) = 1501199875790165 /\
    p2y (controlPoints solver) = 1.
Proof.
  destruct (CubicBezierSolver.new (Array [0.25; -2e15; 0.25; 1]))
    as [solver | e |] eqn:E; try (vm_compute in E; discriminate).
  exists solver. split; [reflexivity |].
  destruct (yLimiter_replaces_large_y_by_positive_limit _ _ _ _ _ E)
    as (_ & H1 & _ & _ & H2).
  split; [apply H1 | apply H2]; reflexivity.
Defined.

End YLimiter.

(* ================================================================== *)
(** ** Clamping of the target *)

Section Clamping.

Import SmoothScroller.






End Clamping.

(* ================================================================== *)
(** ** The bisection loop of [solveCurveX] *)

Section Bisection.

Import CubicBezierSolver.

Variable this : CubicBezierSolver.t.
Variables x epsilon : float.

Lemma bisection_skip (n fuel : nat) (b b' : Bracket) :
  bisectionAfter this x epsilon n b = Some b' ->
  bisection this x epsilon (n + fuel) b = bisection this x epsilon fuel b'.
Proof.
  revert b. induction n as [| n IH]; simpl; intros b H.
  - now inversion H.
  - destruct (bisectionStep this x epsilon b) as [t | b1];
      [discriminate | now apply IH].
Qed.

(** A bracket that an iteration maps to itself is never left. *)
Lemma bisection_stuck (b : Bracket) :
  bisectionStep this x epsilon b = inr b ->
  forall fuel, bisection this x epsilon fuel b = OutOfFuel.
Proof.
  intros H fuel. induction fuel as [| fuel IH]; simpl;
    [reflexivity | now rewrite H].
Qed.

Lemma bisection_more_fuel (fuel k : nat) (b : Bracket) (t : float) :
  bisection this x epsilon fuel b = Normal t ->
  bisection this x epsilon (fuel + k) b = Normal t.
Proof.
  revert b. induction fuel as [| fuel IH]; simpl; intros b H;
    [discriminate |].
  destruct (bisectionStep this x epsilon b); [exact H | now apply IH].
Qed.

Lemma bisection_never_throws (fuel : nat) (b : Bracket) (e : Error) :
  bisection this x epsilon fuel b <> Throw e.
Proof.
  revert b. induction fuel as [| fuel IH]; simpl; intros b;
    [discriminate |].
  destruct (bisectionStep this x epsilon b); [discriminate | apply IH].
Qed.

(** Reaching a stuck bracket after [n] iterations: no amount of fuel
    makes the loop return. *)
Lemma bisection_diverges (n : nat) (b stuck : Bracket) :
  bisectionAfter this x epsilon n b = Some stuck ->
  bisectionStep this x epsilon stuck = inr stuck ->
  forall fuel, bisection this x epsilon fuel b = OutOfFuel.
Proof.
  intros Hreach Hstuck fuel.
  destruct (bisection this x epsilon fuel b) as [t | e |] eqn:E.
  - apply (bisection_more_fuel _ n) in E.
    rewrite Nat.add_comm, (bisection_skip _ _ _ _ Hreach) in E.
    now rewrite (bisection_stuck _ Hstuck) in E.
  - now apply bisection_never_throws in E.
  - reflexivity.
Qed.

End Bisection.

Section LinearCurve.

Import CubicBezierSolver.

Lemma linearSolver_constructed :
  CubicBezierSolver.new (Array [0; 0; 1; 1]) = Normal linearSolver.
Proof. reflexivity. Qed.

Lemma linear_bisection_reaches_stuckBracket :
  bisectionAfter linearSolver 0.7 1e-16 55
    {| t0 := 0; t1 := 1; t2 := 0.7 |} = Some stuckBracket.
Proof. vm_compute. reflexivity. Qed.

Lemma linear_stuckBracket_is_stuck :
  bisectionStep linearSolver 0.7 1e-16 stuckBracket = inr stuckBracket.
Proof. vm_compute. reflexivity. Qed.

(** C4 at the time ratio 0.7 with tolerance 1e-16 on the linear curve:
    the arguments are valid ([x] in [0, 1], [epsilon > 0]), Newton's
    method uses its eight iterations without meeting the tolerance, and
    the bisection loop then returns for no amount of fuel: [solveCurveX]
    does not terminate. *)
Theorem solveCurveX_linear_does_not_terminate :
  (0 <=? 0.7) = true /\ (0.7 <=? 1) = true /\ (0 <? 1e-16) = true /\
  newton linearSolver 0.7 1e-16 8 0.7 = None /\
  forall fuel, solveCurveX linearSolver fuel 0.7 1e-16 = OutOfFuel.
Proof.
  repeat split. intros fuel. unfold solveCurveX.
  change (newton linearSolver 0.7 1e-16 8 0.7) with (@None float).
  cbv beta iota.
  replace (negb (validateArgument "x" (Number 0.7)
                   [allowedTypes ["number"]; allowedMin 0; allowedMax 1]))
    with false by reflexivity.
  exact (bisection_diverges linearSolver 0.7 1e-16 55 _ _
           linear_bisection_reaches_stuckBracket
           linear_stuckBracket_is_stuck fuel).
Qed.


(** A value returned from inside the Newton loop meets the tolerance. *)
Lemma newton_meets_tolerance (this : CubicBezierSolver.t)
    (x epsilon : float) (i : nat) :
  forall start t,
    newton this x epsilon i start = Some t ->
    (JsNumber.Math_abs (sampleCurveX this t - x) <? epsilon) = true.
Proof.
  induction i as [| i IH]; simpl; intros start t H; [discriminate |].
  destruct (JsNumber.Math_abs (sampleCurveX this start - x) <? epsilon)
    eqn:E.
  - inversion H; subst. exact E.
  - destruct (JsNumber.Math_abs (sampleCurveDerivativeX this start) <? 1e-6);
      [discriminate | now apply IH in H].
Qed.

(** A value returned by the bisection loop comes from some iteration. *)
Lemma bisection_returns_from_a_step (this : CubicBezierSolver.t)
    (x epsilon : float) (fuel : nat) :
  forall b t,
    bisection this x epsilon fuel b = Normal t ->
    exists n b',
      bisectionAfter this x epsilon n b = Some b' /\
      bisectionStep this x epsilon b' = inl t.
Proof.
  induction fuel as [| fuel IH]; simpl; intros b t H; [discriminate |].
  destruct (bisectionStep this x epsilon b) as [t' | b1] eqn:E.
  - inversion H; subst. exists 0%nat, b. auto.
  - destruct (IH _ _ H) as (n & b' & Hn & Hstep).
    exists (S n), b'. simpl. rewrite E. auto.
Qed.

End LinearCurve.

(* ================================================================== *)
(** ** The example session, frame by frame *)

Section ExampleSession.

Import SmoothScroller.

Lemma exampleRequest_returns_promise :
  scroll 0 exampleRequest exampleStart = (Returns (Follows 0), exampleRequested)
  /\ scrollResolve (this exampleRequested) = Some 0%nat
  /\ animationFrames exampleRequested = [0%nat]
  /\ log exampleRequested = [RequestAnimationFrame 0].
Proof.
  split; [vm_compute; reflexivity |].
  split; [vm_compute; reflexivity |].
  split; vm_compute; reflexivity.
Qed.

(** C6 on the example session, with the first frame at timestamp 0 and
    the second at 16: the first tick latches the start time 0 and reports
    the start; the second tick of the same session latches again, to 16,
    and reports the start a second time. *)
Theorem start_latched_twice_when_first_tick_is_at_zero :
  option_map
    (fun w => (scrollStartTime (this w), scrollResolve (this w),
               List.length (eventsOfType "smoothScrollerScrollStart" (log w))))
    (runFrames 0 [0] exampleRequested)
  = Some (0, Some 0%nat, 1%nat)
  /\
  option_map
    (fun w => (scrollStartTime (this w), scrollResolve (this w),
               List.length (eventsOfType "smoothScrollerScrollStart" (log w))))
    (runFrames 0 [0; 16] exampleRequested)
  = Some (16, Some 0%nat, 2%nat).
Proof. split; vm_compute; reflexivity. Qed.

End ExampleSession.

(* ================================================================== *)
(** ** Running the methods on a symbolic world *)

Import SmoothScroller.

Ltac innermost t :=
  match t with
  | context [match ?x with _ => _ end] => innermost x
  | _ => t
  end.

(** Unfold the monad, the browser primitives and the record accessors. *)
Ltac run_in H :=
  cbv beta iota zeta delta
    [
     bind ret throw lift getWorld getThis modify perform when validate
     dispatchEvent writeScrollLeft writeScrollTop scrollTo
     requestAnimationFrame cancelAnimationFrame newPromise
     getScrollEventData stopScroll resetFields cubicBezierSolver
     scrolling stopScrollingOnPointerDown scrollDistanceX
     scrollDistanceY scrollDuration scrollElapsedTime
     scrollEndingPointX scrollEndingPointY scrollRafId scrollResolve
     scrollStartingPointX scrollStartingPointY scrollStartTime
     set_cubicBezierSolver set_scrolling
     set_stopScrollingOnPointerDown set_scrollDistanceX
     set_scrollDistanceY set_scrollDuration set_scrollElapsedTime
     set_scrollEndingPointX set_scrollEndingPointY set_scrollRafId
     set_scrollResolve set_scrollStartingPointX
     set_scrollStartingPointY set_scrollStartTime this scrollContainer
     isIOsSafari animationFrames nextAnimationFrame nextPromise log
     set_this set_scrollContainer set_animationFrames
     set_nextAnimationFrame set_nextPromise set_log scrollLeft
     scrollTop scrollWidth clientWidth scrollHeight clientHeight
    ] in H.

(** Split on the first test that the execution in [H] is stuck on. *)
Ltac case_hyp H :=
  match type of H with
  | context [match ?x with _ => _ end] =>
      let y := innermost x in
      revert H; destruct y eqn:?; intros H; cbv beta iota zeta in H
  end.

Ltac open_world w :=
  let s := fresh "s" in
  let c := fresh "c" in
  destruct w as [s c ? ? ? ? ?]; destruct s; destruct c.

Ltac absurd_type_check :=
  match goal with
  | E : validateArgument _ _ [allowedTypes _] = false |- _ =>
      cbv in E; discriminate E
  end.

Section Errors.

Import SmoothScroller.

Lemma new_throws (v : Value) (e : Error) :
  CubicBezierSolver.new v = Throw e -> raisedByRequestValidation e = true.
Proof.
  unfold CubicBezierSolver.new, CubicBezierSolver.controlPointValidator.
  intros H.
  repeat case_hyp H; try discriminate; inversion H; subst; reflexivity.
Qed.

Lemma new_returns_or_throws (v : Value) :
  CubicBezierSolver.new v <> OutOfFuel.
Proof.
  unfold CubicBezierSolver.new, CubicBezierSolver.controlPointValidator.
  intros H. repeat case_hyp H; discriminate.
Qed.

Lemma solve_throws solver fuel x eps e :
  CubicBezierSolver.solve solver fuel x eps = Throw e ->
  e = ValidationError "x".
Proof.
  unfold CubicBezierSolver.solve, CubicBezierSolver.solveCurveX. intros H.
  repeat case_hyp H; try discriminate; try (inversion H; reflexivity).
  now apply bisection_never_throws in Heqc.
Qed.

(** A request that fails validation has changed nothing when it throws. *)
Lemma checkArguments_throws x y d e s w err w' :
  checkArguments x y d e s w = (Throw err, w') ->
  w' = w /\ raisedByRequestValidation err = true.
Proof.
  unfold checkArguments. intros H. open_world w. run_in H.
  repeat case_hyp H; try absurd_type_check; inversion H; subst;
    split; try reflexivity;
    match goal with
    | E : CubicBezierSolver.new _ = Throw _ |- _ => exact (new_throws _ _ E)
    end.
Qed.

(** A request that passes validation has a valid duration, and has at
    most replaced the solver. *)
Lemma checkArguments_returns x y d e s w w' :
  checkArguments x y d e s w = (Normal tt, w') ->
  validateArgument "duration" (Number d)
    [allowedTypes ["number"]; allowedMin 0; allowFiniteNumbersOnly true]
  = true /\
  ((w' = w /\ exists solver, cubicBezierSolver (this w) = Some solver) \/
   exists solver,
     w' = set_this (set_cubicBezierSolver (Some solver) (this w)) w).
Proof.
  unfold checkArguments. intros H. open_world w. run_in H.
  repeat case_hyp H; try absurd_type_check; inversion H; subst;
    (split; [assumption |]);
    first [ left; split; [reflexivity | eexists; reflexivity]
          | right; eexists; reflexivity ].
Qed.

Lemma checkArguments_has_fuel x y d e s w w' :
  checkArguments x y d e s w <> (OutOfFuel, w').
Proof.
  unfold checkArguments. intros H. open_world w. run_in H.
  repeat case_hyp H; try discriminate H;
    match goal with
    | E : CubicBezierSolver.new _ = OutOfFuel |- _ =>
        exact (new_returns_or_throws _ E)
    end.
Qed.

Lemma beginScroll_never_throws x y d s w err w' :
  beginScroll x y d s w <> (Throw err, w').
Proof.
  unfold beginScroll. intros H. open_world w. run_in H.
  repeat case_hyp H; discriminate H.
Qed.

Lemma beginScroll_has_fuel x y d s w w' :
  beginScroll x y d s w <> (OutOfFuel, w').
Proof.
  unfold beginScroll. intros H. open_world w. run_in H.
  repeat case_hyp H; discriminate H.
Qed.

(** What the animation step throws is no request-validation error. *)
Lemma animate_throws fuel t w err w' :
  animate fuel t w = (Throw err, w') ->
  raisedByRequestValidation err = false.
Proof.
  unfold animate. intros H. open_world w. run_in H.
  repeat case_hyp H; try discriminate H;
    inversion H; subst; try reflexivity;
    match goal with
    | E : CubicBezierSolver.solve _ _ _ _ = Throw _ |- _ =>
        now rewrite (solve_throws _ _ _ _ _ E)
    end.
Qed.

Lemma effectsSince_app (w w' : World) (l : list Effect) :
  log w' = log w ++ l -> effectsSince w w' = l.
Proof.
  intros H. unfold effectsSince. rewrite H.
  rewrite skipn_app, skipn_all, Nat.sub_diag. reflexivity.
Qed.

Lemma ltb_not_eqb (n m : nat) : Nat.ltb n m = true -> Nat.eqb n m = false.
Proof.
  intros H. apply Nat.ltb_lt in H. apply Nat.eqb_neq. lia.
Qed.

End Errors.

(* ================================================================== *)
(** ** Requests that fail validation *)

Section InvalidRequests.

Import SmoothScroller.

Ltac run_scroll_in H :=
  cbv beta iota zeta delta
    [scroll async scrollBody newScroll bind getWorld ret] in H;
  change (JsNumber.isNaN nan) with true in H;
  cbv beta iota zeta in H.

(** C8, as the code has it.  [#scroll] is an [async] function: it throws
    nothing at its caller.  When a request (a call without
    [currentTime]) fails the validation of its duration or of its easing,
    the error comes back as the rejection of the promise the call
    returns, and the world is left exactly as it was: no field of the
    scroller is changed, the frame of a running animation stays
    requested, no promise is created and none is resolved.  Every request
    that does not pass validation is rejected in this way, a request with
    an invalid duration with the error of the [duration] check. *)
Theorem invalid_request_rejects_its_promise_and_changes_nothing
    (fuel : nat) (options : Options.t) (w : World) :
  Options.currentTime options = None ->
  (forall e, fst (scroll fuel options w) <> Throws e) /\
  (forall e w',
      scroll fuel options w = (Returns (RejectedWith e), w') ->
      raisedByRequestValidation e = true ->
      w' = w) /\
  (passesValidation options w = false ->
   exists e,
     scroll fuel options w = (Returns (RejectedWith e), w) /\
     raisedByRequestValidation e = true) /\
  (forall duration,
      Options.duration options = Some duration ->
      validateArgument "duration" (Number duration)
        [allowedTypes ["number"]; allowedMin 0; allowFiniteNumbersOnly true]
      = false ->
      scroll fuel options w
      = (Returns (RejectedWith (ValidationError "duration")), w)).
Proof.
  intros Hnew. split; [| split; [| split]].
  - intros e H. unfold scroll, async in H.
    destruct (scrollBody fuel options w) as [[[] | |] ?]; discriminate H.
  - intros e w' H Hraised. rewrite (surjective_pairing (scroll _ _ _)) in H.
    run_scroll_in H. rewrite Hnew in H. run_scroll_in H.
    match type of H with
    | context [checkArguments ?x ?y ?d ?ea ?s w] =>
        destruct (checkArguments x y d ea s w) as [[[] | e0 |] w1] eqn:HC
    end; cbv beta iota zeta in H.
    + match type of H with
      | context [beginScroll ?x ?y ?d ?s w1] =>
          destruct (beginScroll x y d s w1) as [[[r |] | e1 |] w2] eqn:HB
      end; cbv beta iota zeta in H.
      * destruct r; simpl in H; inversion H.
      * destruct (animate fuel nan w2) as [[[] | e2 |] w3] eqn:HA;
          simpl in H; inversion H; subst.
        rewrite (animate_throws _ _ _ _ _ HA) in Hraised. discriminate.
      * now apply beginScroll_never_throws in HB.
      * simpl in H. inversion H.
    + simpl in H. inversion H; subst.
      now destruct (checkArguments_throws _ _ _ _ _ _ _ _ HC).
    + simpl in H. inversion H.
  - intros Hinvalid. unfold passesValidation in Hinvalid.
    unfold requestedX, requestedY, requestedDuration, requestedEasing,
      requestedStopScrollingOnPointerDown in Hinvalid.
    cbv beta iota zeta delta
      [scroll async scrollBody newScroll bind getWorld ret].
    rewrite Hnew. change (JsNumber.isNaN nan) with true.
    cbv beta iota zeta.
    match type of Hinvalid with
    | context [checkArguments ?x ?y ?d ?ea ?s w] =>
        destruct (checkArguments x y d ea s w) as [[[] | e0 |] w1] eqn:HC
    end; simpl in Hinvalid; try discriminate Hinvalid.
    + destruct (checkArguments_throws _ _ _ _ _ _ _ _ HC) as [-> Hraised].
      exists e0. split; [reflexivity | exact Hraised].
    + now apply checkArguments_has_fuel in HC.
  - intros duration Hd Hinvalid.
    rewrite (surjective_pairing (scroll _ _ _)).
    cbv beta iota zeta delta
      [scroll async scrollBody newScroll bind getWorld ret checkArguments
       validate throw].
    rewrite Hnew, Hd.
    change (JsNumber.isNaN nan) with true. cbv beta iota zeta.
    rewrite Hinvalid.
    replace (validateArgument "x" _ _) with true by reflexivity.
    replace (validateArgument "y" _ _) with true by reflexivity.
    reflexivity.
Qed.

(** The example session is running; a request with duration -1 arrives. *)
Lemma invalid_request_rejects_its_promise_and_changes_nothing_witness :
  scroll 0 negativeDurationRequest exampleRequested
  = (Returns (RejectedWith (ValidationError "duration")), exampleRequested).
Proof.
  destruct (invalid_request_rejects_its_promise_and_changes_nothing
              0 negativeDurationRequest exampleRequested eq_refl)
    as (_ & _ & _ & H).
  apply (H (-1)); [reflexivity | vm_compute; reflexivity].
Defined.

(** C8 as stated fails on that request: nothing is thrown at the caller,
    and the promise the call returns is settled with the error. *)
Lemma invalid_request_is_not_thrown_synchronously :
  fst (scroll 0 negativeDurationRequest exampleRequested)
  = Returns (RejectedWith (ValidationError "duration"))
  /\ fst (scroll 0 negativeDurationRequest exampleRequested)
     <> Throws (ValidationError "duration").
Proof. split; [vm_compute; reflexivity | vm_compute; discriminate]. Qed.

End InvalidRequests.



(* ================================================================== *)
(** ** Axes that are not asked to move *)

Section UnmovedAxes.

Import SmoothScroller.

Lemma truthy_nan : JsNumber.truthy nan = false.
Proof. reflexivity. Qed.

Lemma truthy_zero (d : float) : (d =? 0) = true -> JsNumber.truthy d = false.
Proof.
  intros H. unfold JsNumber.truthy, is_zero.
  change zero with 0. rewrite H. now rewrite orb_true_r.
Qed.

Lemma quiet_refl (w : World) : quiet w w.
Proof.
  exists []. rewrite app_nil_r. repeat split; auto.
Qed.

Lemma quiet_trans (w1 w2 w3 : World) :
  quiet w1 w2 -> quiet w2 w3 -> quiet w1 w3.
Proof.
  intros (l1 & E1 & X1 & Y1) (l2 & E2 & X2 & Y2).
  exists (l1 ++ l2). rewrite E2, E1, app_assoc.
  split; [reflexivity |].
  split; intros H; rewrite filter_app.
  - destruct (X1 H) as [F1 T1]. destruct (X2 T1) as [F2 T2].
    now rewrite F1, F2.
  - destruct (Y1 H) as [F1 T1]. destruct (Y2 T1) as [F2 T2].
    now rewrite F1, F2.
Qed.

(** One step of the animation writes [scrollLeft] only under
    [if (this.#scrollDistanceX)], and [scrollTop] likewise. *)
Lemma animate_quiet fuel t w c w' :
  animate fuel t w = (c, w') -> quiet w w'.
Proof.
  unfold animate, quiet. intros H. open_world w. run_in H.
  repeat case_hyp H;
    inversion H; subst; clear H;
    cbv beta iota zeta delta [log this scrollDistanceX scrollDistanceY];
    eexists; (split; [rewrite <- ?app_assoc; reflexivity |]);
    split; intros Hz; simpl;
    try (rewrite Hz in *; discriminate);
    auto using truthy_nan.
Qed.

(** With a timestamp that is a number, the frame callback runs the
    animation step. *)
Lemma frameCallback_animates fuel t w :
  is_nan t = false ->
  frameCallback fuel t w = async (animate fuel t) w.
Proof.
  intros H.
  cbv beta iota zeta delta
    [frameCallback scroll async scrollBody bind getWorld ret
     Options.currentTime JsNumber.isNaN].
  rewrite H. reflexivity.
Qed.

(** A frame with nothing requested does nothing. *)
Lemma animationFrame_without_callbacks fuel t w :
  animationFrames w = [] -> animationFrame fuel t w = Some w.
Proof.
  intros H. unfold animationFrame. now rewrite H.
Qed.

Lemma frameCallback_quiet fuel t w r w' :
  is_nan t = false -> frameCallback fuel t w = (r, w') -> quiet w w'.
Proof.
  intros Ht H. rewrite (frameCallback_animates _ _ _ Ht) in H.
  unfold async in H.
  destruct (animate fuel t w) as [c w1] eqn:HA.
  assert (w1 = w') as <-
      by (destruct c as [[] | |]; now inversion H).
  exact (animate_quiet _ _ _ _ _ HA).
Qed.

Lemma runCallbacks_quiet fuel t ids w w' :
  is_nan t = false -> runCallbacks fuel t ids w = Some w' -> quiet w w'.
Proof.
  intros Ht. revert w. induction ids as [| id rest IH]; simpl; intros w H.
  - inversion H. apply quiet_refl.
  - destruct (existsb (Nat.eqb id) (animationFrames w)); [| now apply IH].
    destruct (frameCallback fuel t _) as [r w2] eqn:HF.
    apply frameCallback_quiet in HF; [| exact Ht].
    assert (Hrest : runCallbacks fuel t rest w2 = Some w')
      by (destruct r; [exact H | exact H | discriminate H]).
    exact (quiet_trans _ _ _ HF (IH _ Hrest)).
Qed.

Lemma runFrames_quiet fuel timestamps w w' :
  Forall (fun t => is_nan t = false) timestamps ->
  runFrames fuel timestamps w = Some w' -> quiet w w'.
Proof.
  intros Hts. revert w.
  induction Hts as [| t rest Ht _ IH]; simpl; intros w H.
  - inversion H. apply quiet_refl.
  - destruct (animationFrame fuel t w) as [w1 |] eqn:HF; [| discriminate].
    apply (quiet_trans _ w1); [| now apply IH].
    exact (runCallbacks_quiet _ _ _ _ _ Ht HF).
Qed.

Lemma animate_returns_undefined fuel t w r w' :
  animate fuel t w = (Normal r, w') -> r = ReturnUndefined.
Proof.
  unfold animate. intros H. open_world w. run_in H.
  repeat case_hyp H; inversion H; reflexivity.
Qed.

(** The distances a request leaves in the fields: those of its clamped
    target, or [NaN] when the scroll has already finished. *)
Lemma beginScroll_distances x y d s w r w' :
  beginScroll x y d s w = (Normal (Some r), w') ->
  (scrollDistanceX (this w')
   = limitCorrectedX (scrollContainer w) x - scrollLeft (scrollContainer w)
   \/ scrollDistanceX (this w') = nan) /\
  (scrollDistanceY (this w')
   = limitCorrectedY (scrollContainer w) y - scrollTop (scrollContainer w)
   \/ scrollDistanceY (this w') = nan).
Proof.
  unfold beginScroll. intros H. open_world w. run_in H.
  cbv beta iota zeta delta
    [this scrollContainer scrollDistanceX scrollDistanceY scrollLeft
     scrollTop].
  repeat case_hyp H; inversion H; subst; clear H; simpl; auto.
Qed.

Lemma scroll_distances fuel options w p w' :
  Options.currentTime options = None ->
  scroll fuel options w = (Returns (Follows p), w') ->
  (scrollDistanceX (this w') = distanceX options w
   \/ scrollDistanceX (this w') = nan) /\
  (scrollDistanceY (this w') = distanceY options w
   \/ scrollDistanceY (this w') = nan).
Proof.
  intros Hnew H.
  cbv beta iota zeta delta
    [scroll async scrollBody newScroll bind getWorld ret] in H.
  rewrite Hnew in H. change (JsNumber.isNaN nan) with true in H.
  cbv beta iota zeta in H.
  match type of H with
  | context [checkArguments ?x ?y ?d ?ea ?s w] =>
      destruct (checkArguments x y d ea s w) as [[[] | e0 |] w1] eqn:HC
  end; cbv beta iota zeta in H; try discriminate H.
  assert (Hc : scrollContainer w1 = scrollContainer w).
  { destruct (checkArguments_returns _ _ _ _ _ _ _ HC)
      as [_ [[-> _] | [solver ->]]]; reflexivity. }
  match type of H with
  | context [beginScroll ?x ?y ?d ?s w1] =>
      destruct (beginScroll x y d s w1) as [[[r |] | e1 |] w2] eqn:HB
  end; cbv beta iota zeta in H; try discriminate H.
  - assert (w2 = w') as <- by (destruct r; now inversion H).
    pose proof (beginScroll_distances _ _ _ _ _ _ _ HB) as Hd.
    rewrite Hc in Hd. exact Hd.
  - destruct (animate fuel nan w2) as [[r | |] w3] eqn:HA;
      try discriminate H.
    rewrite (animate_returns_undefined _ _ _ _ _ HA) in H. discriminate H.
Qed.

(** C9: in the session of a request, over any run of animation frames, an
    axis whose signed distance, clamped target minus start, is zero
    receives no offset write; the only writes of the ticks are on axes
    whose distance is not zero. *)
Theorem zero_distance_axis_is_never_written
    (fuel : nat) (options : Options.t) (timestamps : list float)
    (p : nat) (w0 w w' : World) :
  Options.currentTime options = None ->
  scroll fuel options w0 = (Returns (Follows p), w) ->
  Forall (fun t => is_nan t = false) timestamps ->
  runFrames fuel timestamps w = Some w' ->
  ((distanceX options w0 =? 0) = true ->
   filter isScrollLeftWrite (effectsSince w w') = []) /\
  ((distanceY options w0 =? 0) = true ->
   filter isScrollTopWrite (effectsSince w w') = []).
Proof.
  intros Hnew Hscroll Hts H.
  destruct (scroll_distances _ _ _ _ _ Hnew Hscroll) as [HdX HdY].
  destruct (runFrames_quiet _ _ _ _ Hts H) as (l & Hlog & HX & HY).
  rewrite (effectsSince_app _ _ _ Hlog).
  split; intros Hz.
  - apply HX. destruct HdX as [-> | ->];
      [exact (truthy_zero _ Hz) | exact truthy_nan].
  - apply HY. destruct HdY as [-> | ->];
      [exact (truthy_zero _ Hz) | exact truthy_nan].
Qed.

(** The example session moves along y only: over its three frames
    [scrollTop] is written and [scrollLeft] never is. *)
Lemma zero_distance_axis_is_never_written_witness :
  (distanceX exampleRequest exampleStart =? 0) = true /\
  exists w',
    runFrames 0 [100; 600; 1100] exampleRequested = Some w' /\
    filter isScrollLeftWrite (effectsSince exampleRequested w') = [] /\
    List.length (filter isScrollTopWrite (effectsSince exampleRequested w'))
    = 3%nat.
Proof.
  split; [vm_compute; reflexivity |].
  destruct (runFrames 0 [100; 600; 1100] exampleRequested) as [w' |] eqn:E;
    [| vm_compute in E; discriminate E].
  exists w'. split; [reflexivity |]. split.
  - apply (zero_distance_axis_is_never_written
             0 exampleRequest [100; 600; 1100] 0 exampleStart
             exampleRequested w').
    + reflexivity.
    + vm_compute; reflexivity.
    + repeat constructor.
    + exact E.
    + vm_compute; reflexivity.
  - revert E. vm_compute. intros E. inversion E. reflexivity.
Defined.

End UnmovedAxes.

(* ================================================================== *)
(** ** What holds in every world the operations reach *)

Section Reachable.

Import SmoothScroller.

Lemma valid_duration_sign (d : float) :
  validateArgument "duration" (Number d)
    [allowedTypes ["number"]; allowedMin 0; allowFiniteNumbersOnly true]
  = true ->
  (d <=? 0) = false -> (0 <? d) = true.
Proof.
  intros H Hle. cbn in H.
  destruct (0 <=? d) eqn:H0; [| discriminate].
  destruct (0 <? d) eqn:E; [reflexivity |].
  destruct (FloatFacts.leb_not_nan _ _ H0) as [Hz Hd].
  rewrite (FloatFacts.ltb_false_leb _ _ Hz Hd E) in Hle. discriminate.
Qed.

(** With every timing field unset the time ratio is [NaN], which
    [solveCurveX] refuses. *)
Lemma solve_unset_ratio solver fuel epsilon :
  CubicBezierSolver.solve solver fuel
    (JsNumber.Math_min ((nan - nan) / nan) 1) epsilon
  = Throw (ValidationError "x").
Proof. reflexivity. Qed.

Ltac nan_absurd :=
  match goal with
  | H : JsNumber.truthy nan = true |- _ => vm_compute in H; discriminate H
  | H : CubicBezierSolver.solve _ _
          (JsNumber.Math_min ((nan - nan) / nan) 1) _ = Normal _ |- _ =>
      rewrite solve_unset_ratio in H; discriminate H
  end.

Ltac use_consistency :=
  repeat match goal with
    | H : _ \/ _ |- _ => destruct H
    | H : exists _, _ |- _ => destruct H
    | H : _ /\ _ |- _ => destruct H
    | H : Some _ = Some _ |- _ => inversion H; clear H
    | H : None = Some _ |- _ => discriminate H
    end; subst; simpl; rewrite ?Nat.eqb_refl; simpl.

Lemma newWorld_consistent container iOsSafari :
  consistent (newWorld container iOsSafari).
Proof. repeat split. Qed.

Lemma consistent_set_cubicBezierSolver solver w :
  consistent w ->
  consistent (set_this (set_cubicBezierSolver solver (this w)) w).
Proof. intros H. destruct w as [[] ? ? ? ? ? ?]. exact H. Qed.

Lemma consistent_settled w : consistent w -> settled w = true.
Proof.
  intros [_ H]. unfold settled.
  destruct (scrollResolve (this w)).
  - now apply Nat.ltb_lt.
  - destruct H as (-> & _). reflexivity.
Qed.

Lemma consistent_idle w :
  consistent w -> scrollResolve (this w) = None -> idle w.
Proof.
  intros [H _] Hnone. unfold framesConsistent in H. rewrite Hnone in H.
  now split.
Qed.

Lemma beginScroll_consistent x y d s w r w' :
  beginScroll x y d s w = (Normal r, w') ->
  validateArgument "duration" (Number d)
    [allowedTypes ["number"]; allowedMin 0; allowFiniteNumbersOnly true]
  = true ->
  consistent w ->
  consistent w' /\
  (r = None -> scrollResolve (this w') = None /\ animationFrames w' = []).
Proof.
  intros H Hd [Hf Hs].
  pose proof (valid_duration_sign _ Hd) as Hsign.
  unfold beginScroll, consistent, framesConsistent in *. open_world w.
  run_in H. run_in Hf. run_in Hs.
  cbv beta iota zeta delta
    [this scrollResolve nextPromise animationFrames scrollRafId
     scrollElapsedTime scrollStartTime scrollDuration].
  repeat case_hyp H; try discriminate H;
    try (rewrite Hsign in *; [discriminate | assumption]);
    inversion H; subst; clear H; use_consistency;
    repeat match goal with |- _ /\ _ => split | |- _ -> _ => intro end;
    try reflexivity; try discriminate; try lia; eauto.
Qed.

(** The animation step keeps the world consistent, whether it runs for a
    scroll in progress or, with [currentTime] [NaN], at the end of a
    request block that returned nothing. *)
Lemma animate_consistent fuel t w c w' :
  animate fuel t w = (c, w') ->
  c <> OutOfFuel ->
  animationFrames w = [] ->
  consistent w ->
  (scrollResolve (this w) = None -> t = nan) ->
  consistent w'.
Proof.
  intros H Hc Hfr [Hf Hs] Ht.
  unfold animate, consistent, framesConsistent in *. open_world w.
  run_in Hfr. run_in Hf. run_in Hs. run_in Ht. subst.
  destruct scrollResolve0 as [p |];
    [clear Ht | rewrite (Ht eq_refl) in *; destruct Hs as (-> & -> & ->)];
    run_in H;
    cbv beta iota zeta delta
      [this scrollResolve nextPromise animationFrames scrollRafId
       scrollElapsedTime scrollStartTime scrollDuration];
    repeat case_hyp H; try nan_absurd;
    inversion H; subst; clear H; try congruence;
    simpl; rewrite ?Nat.eqb_refl; simpl;
    repeat match goal with |- _ /\ _ => split end;
    try reflexivity; try assumption; eauto.
Qed.

Lemma pointerdown_consistent w : consistent w -> consistent (snd (pointerdown w)).
Proof.
  intros [Hf Hs].
  destruct (pointerdown w) as [c w'] eqn:H. simpl.
  unfold pointerdown, consistent, framesConsistent in *. open_world w.
  run_in H. run_in Hf. run_in Hs.
  cbv beta iota zeta delta
    [this scrollResolve nextPromise animationFrames scrollRafId
     scrollElapsedTime scrollStartTime scrollDuration].
  repeat case_hyp H; inversion H; subst; clear H; use_consistency;
    repeat match goal with |- _ /\ _ => split end;
    try reflexivity; try assumption; try lia; eauto.
Qed.

(** A call of [#scroll] that takes the request block. *)
Lemma scroll_consistent fuel options w p w' :
  JsNumber.isNaN (match Options.currentTime options with
                  | Some t => t
                  | None => nan
                  end) = true ->
  consistent w ->
  scroll fuel options w = (Returns p, w') ->
  consistent w'.
Proof.
  intros Hnew Hinv H.
  cbv beta iota zeta delta
    [scroll async scrollBody newScroll bind getWorld ret] in H.
  rewrite Hnew in H. cbv beta iota zeta in H.
  match type of H with
  | context [checkArguments ?x ?y ?d ?ea ?s w] =>
      destruct (checkArguments x y d ea s w) as [[[] | e0 |] w1] eqn:HC
  end; cbv beta iota zeta in H.
  - destruct (checkArguments_returns _ _ _ _ _ _ _ HC) as [Hd Hw1].
    assert (Hinv1 : consistent w1).
    { destruct Hw1 as [[-> _] | [solver ->]];
        [exact Hinv | now apply consistent_set_cubicBezierSolver]. }
    match type of H with
    | context [beginScroll ?x ?y ?d ?s w1] =>
        destruct (beginScroll x y d s w1) as [[r | e1 |] w2] eqn:HB
    end; cbv beta iota zeta in H.
    + destruct (beginScroll_consistent _ _ _ _ _ _ _ HB Hd Hinv1)
        as [Hinv2 Hnone].
      destruct r as [r |]; cbv beta iota zeta in H.
      * assert (w2 = w') as <- by (destruct r; now inversion H).
        exact Hinv2.
      * destruct (Hnone eq_refl) as [Hres Hfr].
        match type of H with
        | context [animate fuel ?t w2] =>
            destruct (animate fuel t w2) as [c w3] eqn:HA
        end.
        assert (w3 = w') as <- by (destruct c as [[] | |]; now inversion H).
        apply (animate_consistent _ _ _ _ _ HA); try assumption.
        -- intros ->. discriminate H.
        -- intros _. now apply FloatFacts.is_nan_eq.
    + now apply beginScroll_never_throws in HB.
    + discriminate H.
  - inversion H; subst.
    now destruct (checkArguments_throws _ _ _ _ _ _ _ _ HC) as [-> _].
  - discriminate H.
Qed.

Lemma frameCallback_consistent fuel t w r w' :
  consistent w -> animationFrames w = [] ->
  (exists p, scrollResolve (this w) = Some p) ->
  frameCallback fuel t w = (r, w') -> r <> Hangs ->
  consistent w'.
Proof.
  intros Hinv Hfr [p Hp] H Hr.
  destruct (is_nan t) eqn:Ht.
  - destruct r as [q | e |]; [| | congruence].
    + unfold frameCallback in H.
      refine (scroll_consistent _ _ _ _ _ _ Hinv H). exact Ht.
    + unfold frameCallback, scroll, async in H.
      destruct (scrollBody _ _ _) as [[[] | |] ?]; discriminate H.
  - rewrite (frameCallback_animates _ _ _ Ht) in H. unfold async in H.
    destruct (animate fuel t w) as [c w1] eqn:HA.
    assert (w1 = w') as <- by (destruct c as [[] | |]; now inversion H).
    apply (animate_consistent _ _ _ _ _ HA); try assumption.
    + intros ->. apply Hr. now inversion H.
    + rewrite Hp. discriminate.
Qed.

Lemma animationFrame_consistent fuel t w w' :
  consistent w -> animationFrame fuel t w = Some w' -> consistent w'.
Proof.
  intros Hinv H. pose proof Hinv as [Hf Hs].
  unfold framesConsistent in Hf.
  destruct (scrollResolve (this w)) as [p |] eqn:Hp.
  - destruct Hf as [Hnone | (id & Hone & _)].
    + rewrite (animationFrame_without_callbacks _ _ _ Hnone) in H.
      now inversion H; subst.
    + unfold animationFrame in H. rewrite Hone in H. simpl in H.
      rewrite Hone in H. simpl in H. rewrite Nat.eqb_refl in H. simpl in H.
      destruct (frameCallback fuel t (set_animationFrames [] w))
        as [r w2] eqn:HF.
      assert (Hr : r <> Hangs) by (intros ->; discriminate H).
      assert (w2 = w') as <- by (destruct r; now inversion H).
      apply (frameCallback_consistent _ _ _ _ _ ) with (4 := HF);
        [| destruct w; reflexivity | exists p; destruct w; exact Hp
         | exact Hr].
      unfold consistent, framesConsistent. destruct w as [[] ? ? ? ? ? ?].
      simpl in *. rewrite Hp. split; [now left | exact Hs].
  - rewrite (animationFrame_without_callbacks _ _ _ Hf) in H.
    now inversion H; subst.
Qed.

(** Every world the operations reach is consistent. *)
Lemma reachable_consistent w : reachable w -> consistent w.
Proof.
  induction 1 as [container iOsSafari | w w' _ IH Hstep].
  - apply newWorld_consistent.
  - destruct Hstep as [fuel options p w w' Hnew H | fuel t w w' H | w].
    + apply (scroll_consistent fuel options w p w'); try assumption.
      now rewrite Hnew.
    + exact (animationFrame_consistent _ _ _ _ IH H).
    + now apply pointerdown_consistent.
Qed.

End Reachable.

(* ================================================================== *)
(** ** Requests less than one unit away *)

Section SubpixelRequests.

Import SmoothScroller.

(** The second half of the request block when both distances are below
    one unit: a scroll in progress is interrupted, then the new promise
    is created and resolved on the spot, with the fields as [#stopScroll]
    finds them. *)
Lemma beginScroll_subpixel x y d s w c w' :
  beginScroll x y d s w = (c, w') ->
  (JsNumber.Math_abs
     (limitCorrectedX (scrollContainer w) x - scrollLeft (scrollContainer w))
   <? 1) = true ->
  (JsNumber.Math_abs
     (limitCorrectedY (scrollContainer w) y - scrollTop (scrollContainer w))
   <? 1) = true ->
  settled w = true ->
  c = Normal (Some (ReturnPromise (nextPromise w))) /\
  scrollResolve (this w') = None /\
  exists l data,
    log w' = log w ++ l /\
    valuesResolved (nextPromise w) l = [data] /\
    is_nan (EventData.elapsedTime data) = true /\
    EventData.interruptedBy data = None /\
    eventsOfType "smoothScrollerScroll" l = [].
Proof.
  unfold beginScroll, settled. intros H Hx Hy Hs. open_world w.
  run_in H. run_in Hx. run_in Hy. run_in Hs.
  repeat case_hyp H;
    try (rewrite Hx, Hy in *; simpl in *; discriminate);
    inversion H; subst; clear H;
    (split; [reflexivity | split; [reflexivity |]]);
    cbv beta iota zeta delta [log nextPromise];
    rewrite <- ?app_assoc; simpl;
    do 2 eexists; (split; [reflexivity |]);
    cbn [valuesResolved eventsOfType String.eqb Ascii.eqb Bool.eqb];
    rewrite ?Nat.eqb_refl, ?(ltb_not_eqb _ _ Hs);
    (split; [reflexivity |]);
    (split; [first [reflexivity | exact Hs] | split; reflexivity]).
Qed.

(** C3, as the code has it: in any world the operations reach, a valid
    request whose clamped target is less than one unit from the current
    offset on both axes returns a promise that is resolved before the call
    returns, as a completed scroll ([interruptedBy] is [null]); no
    frame-sample event is dispatched; and the [elapsedTime] it resolves
    with is [NaN], the value of the field while no scroll is running,
    not 0. *)
Theorem subpixel_request_resolves_at_once_with_unset_elapsed_time
    (fuel : nat) (options : Options.t) (w : World) :
  reachable w ->
  Options.currentTime options = None ->
  passesValidation options w = true ->
  (JsNumber.Math_abs (distanceX options w) <? 1) = true ->
  (JsNumber.Math_abs (distanceY options w) <? 1) = true ->
  exists w' data,
    scroll fuel options w = (Returns (Follows (nextPromise w)), w') /\
    scrollResolve (this w') = None /\
    valuesResolved (nextPromise w) (effectsSince w w') = [data] /\
    is_nan (EventData.elapsedTime data) = true /\
    EventData.interruptedBy data = None /\
    eventsOfType "smoothScrollerScroll" (effectsSince w w') = [].
Proof.
  intros Hreach Hnew Hvalid Hx Hy.
  pose proof (consistent_settled _ (reachable_consistent _ Hreach)) as Hs.
  unfold passesValidation in Hvalid.
  destruct (checkArguments _ _ _ _ _ w) as [[[] | e |] w1] eqn:HC;
    simpl in Hvalid; try discriminate Hvalid. clear Hvalid.
  assert (Hsame : scrollContainer w1 = scrollContainer w /\
                  log w1 = log w /\ nextPromise w1 = nextPromise w /\
                  settled w1 = settled w).
  { destruct (checkArguments_returns _ _ _ _ _ _ _ HC)
      as [_ [[-> _] | [solver ->]]]; repeat split. }
  destruct Hsame as (Hc & Hl & Hp & Hset).
  destruct (beginScroll (requestedX options w) (requestedY options w)
              (requestedDuration options)
              (requestedStopScrollingOnPointerDown options) w1)
    as [c w'] eqn:HB.
  destruct (beginScroll_subpixel _ _ _ _ _ _ _ HB)
    as (-> & Hres & l & data & Hlog & Hvalues & Hnan & Hint & Hev).
  { rewrite Hc. exact Hx. }
  { rewrite Hc. exact Hy. }
  { rewrite Hset. exact Hs. }
  rewrite Hl in Hlog. rewrite Hp in *.
  exists w', data.
  rewrite (effectsSince_app _ _ _ Hlog).
  repeat split; try assumption.
  unfold requestedX, requestedY, requestedDuration, requestedEasing,
    requestedStopScrollingOnPointerDown in HC, HB.
  cbv beta iota zeta delta
    [scroll async scrollBody newScroll bind getWorld ret].
  rewrite Hnew. change (JsNumber.isNaN nan) with true.
  cbv beta iota zeta. rewrite HC. cbv beta iota zeta. rewrite HB.
  reflexivity.
Qed.

(** Half a pixel down on a scroller that has never scrolled. *)
Lemma subpixel_request_resolves_at_once_with_unset_elapsed_time_witness :
  exists w' data,
    scroll 0 subpixelRequest exampleStart = (Returns (Follows 0), w') /\
    scrollResolve (this w') = None /\
    valuesResolved 0 (effectsSince exampleStart w') = [data] /\
    is_nan (EventData.elapsedTime data) = true /\
    EventData.interruptedBy data = None /\
    eventsOfType "smoothScrollerScroll" (effectsSince exampleStart w') = [].
Proof.
  apply (subpixel_request_resolves_at_once_with_unset_elapsed_time
           0 subpixelRequest exampleStart);
    [apply reachable_new | vm_compute; reflexivity ..].
Defined.

(** C3 as stated fails on that request: the promise is resolved with
    [elapsedTime] [NaN], which is not 0. *)
Lemma subpixel_request_elapsed_time_is_not_zero :
  fst (scroll 0 subpixelRequest exampleStart) = Returns (Follows 0) /\
  map EventData.elapsedTime
    (valuesResolved 0 (log (snd (scroll 0 subpixelRequest exampleStart))))
  = [nan] /\
  (nan =? 0) = false /\
  nan <> 0.
Proof.
  split; [vm_compute; reflexivity |].
  split; [vm_compute; reflexivity |].
  split; [vm_compute; reflexivity |].
  intros H. apply (f_equal is_nan) in H. vm_compute in H. discriminate H.
Qed.

End SubpixelRequests.

(* ================================================================== *)
(** ** Order of the frame-sample event and the offset writes *)

Section TickOrder.

Import SmoothScroller.

(** In every animation step the [smoothScrollerScroll] event is
    dispatched before any offset is written, and its detail is built from
    the fields as the previous step left them. *)
Lemma animate_reports_before_writing fuel t w c w' :
  animate fuel t w = (c, w') ->
  exists before detail after,
    log w' = log w ++ before ++ DispatchEvent "smoothScrollerScroll" detail
                                :: after /\
    filter isOffsetWrite before = [] /\
    eventsOfType "smoothScrollerScroll" after = [] /\
    EventData.endPoint detail
    = (scrollEndingPointX (this w), scrollEndingPointY (this w)) /\
    EventData.elapsedTime detail = scrollElapsedTime (this w).
Proof.
  unfold animate. intros H. open_world w. run_in H.
  repeat case_hyp H;
    inversion H; subst; clear H;
    cbv beta iota zeta delta
      [log this scrollEndingPointX scrollEndingPointY scrollElapsedTime];
    rewrite <- ?app_assoc; simpl;
    first [ exists []; do 2 eexists;
            split; [reflexivity | repeat split; reflexivity]
          | eexists [_]; do 2 eexists;
            split; [reflexivity | repeat split; reflexivity] ].
Qed.

(** C7 on the example session, frames at 100 and 600.  In the first
    tick the frame-sample event is dispatched with an unset end point and
    elapsed time, then [scrollTop] is written.  In the second tick the
    event carries the end point (0, 0) and the elapsed time 0 stored by
    the first tick, and only then is [scrollTop] set to 684.6...: the
    report precedes the write and does not carry the offset it
    produces. *)
Theorem frame_sample_is_dispatched_before_the_offset_is_written :
  option_map (effectsSince exampleRequested)
    (runFrames 0 [100; 600] exampleRequested)
  = Some
      [DispatchEvent "smoothScrollerScrollStart" exampleDataBeforeFirstTick;
       DispatchEvent "smoothScrollerScroll" exampleDataBeforeFirstTick;
       SetScrollTop 0;
       RequestAnimationFrame 1;
       DispatchEvent "smoothScrollerScroll" exampleDataAfterFirstTick;
       SetScrollTop 684.64318749410688;
       RequestAnimationFrame 2].
Proof. vm_compute. reflexivity. Qed.

End TickOrder.

(* ================================================================== *)
(** ** Every promise is resolved once *)

Section ExactlyOnce.

Import SmoothScroller.

Lemma resolutions_app (l1 l2 : list Effect) :
  resolutions (l1 ++ l2) = resolutions l1 ++ resolutions l2.
Proof.
  induction l1 as [| e l1 IH]; simpl; [reflexivity |].
  destruct e; simpl; now rewrite ?IH.
Qed.

(** A valid request gets through the checks, which touch nothing but the
    solver. *)
Lemma checkArguments_valid x y d e s w :
  validateArgument "duration" (Number d)
    [allowedTypes ["number"]; allowedMin 0; allowFiniteNumbersOnly true]
  = true ->
  validEasing e = true ->
  exists w1,
    checkArguments x y d e s w = (Normal tt, w1) /\
    scrollContainer w1 = scrollContainer w /\ log w1 = log w /\
    nextPromise w1 = nextPromise w /\
    nextAnimationFrame w1 = nextAnimationFrame w /\
    animationFrames w1 = animationFrames w /\
    scrollResolve (this w1) = scrollResolve (this w) /\
    scrollRafId (this w1) = scrollRafId (this w).
Proof.
  intros Hd He.
  destruct (checkArguments x y d e s w) as [c w1] eqn:H. exists w1.
  unfold checkArguments, validEasing in *. open_world w. run_in H.
  repeat case_hyp H; try absurd_type_check; try congruence;
    inversion H; subst; clear H; repeat split.
Qed.

(** The second half of the request block for a request that animates: a
    scroll in progress is interrupted with "New smooth scroll", a new
    promise is created and kept, and one frame is requested. *)
Lemma beginScroll_starts x y d s w c w' :
  beginScroll x y d s w = (c, w') ->
  (0 <? d) = true ->
  (1 <=? JsNumber.Math_abs
           (limitCorrectedX (scrollContainer w) x
            - scrollLeft (scrollContainer w)))
  || (1 <=? JsNumber.Math_abs
              (limitCorrectedY (scrollContainer w) y
               - scrollTop (scrollContainer w)))
  = true ->
  framesConsistent w ->
  c = Normal (Some (ReturnPromise (nextPromise w))) /\
  scrollResolve (this w') = Some (nextPromise w) /\
  nextPromise w' = S (nextPromise w) /\
  scrollContainer w' = scrollContainer w /\
  animationFrames w' = [nextAnimationFrame w] /\
  scrollRafId (this w') = Some (nextAnimationFrame w) /\
  exists l,
    log w' = log w ++ l /\
    resolutions l
    = map (fun p => (p, Some "New smooth scroll")) (pendingOf w).
Proof.
  intros H Hd Hdist Hinv.
  pose proof (FloatFacts.ltb_leb_false _ _ Hd) as Hd'.
  pose proof (FloatFacts.leb_ltb_andb_false _ _ Hdist) as Hsub.
  unfold beginScroll, framesConsistent, pendingOf in *. open_world w.
  run_in H. run_in Hdist. run_in Hsub. run_in Hinv.
  cbv beta iota zeta delta
    [this scrollResolve nextPromise scrollContainer animationFrames
     nextAnimationFrame scrollRafId log].
  repeat case_hyp H; try congruence;
    inversion H; subst; clear H;
    try simpl in Hinv;
    repeat match goal with
      | H : _ \/ _ |- _ => destruct H
      | H : exists _, _ |- _ => destruct H
      | H : _ /\ _ |- _ => destruct H
      | H : Some _ = Some _ |- _ => inversion H; clear H
      | H : None = Some _ |- _ => discriminate H
      end; subst; simpl; rewrite ?Nat.eqb_refl; simpl;
    repeat match goal with |- _ /\ _ => split end; try reflexivity;
    eexists; (split; [rewrite <- ?app_assoc; reflexivity | reflexivity]).
Qed.

(** One step of the animation of a scroll in progress: its promise stays
    unresolved, or the step is the last and resolves it, once, with
    [interruptedBy] [null]. *)
Lemma animate_resolves fuel t w c w' p :
  animate fuel t w = (c, w') ->
  scrollResolve (this w) = Some p ->
  animationFrames w = [] ->
  nextPromise w' = nextPromise w /\
  framesConsistent w' /\
  exists l,
    log w' = log w ++ l /\
    ((scrollResolve (this w') = Some p /\ resolutions l = []) \/
     (scrollResolve (this w') = None /\ resolutions l = [(p, None)])).
Proof.
  intros H Hp Hf. unfold animate, framesConsistent in *. open_world w.
  run_in H. run_in Hp. run_in Hf. subst.
  repeat case_hyp H; try discriminate;
    inversion H; subst; clear H;
    cbv beta iota zeta delta
      [this scrollResolve nextPromise animationFrames scrollRafId log];
    (split; [reflexivity |]);
    simpl; rewrite ?Nat.eqb_refl; simpl;
    (split; [first [reflexivity | eauto] |]);
    eexists; (split; [rewrite <- ?app_assoc; reflexivity |]);
    first [left; split; reflexivity | right; split; reflexivity].
Qed.

Lemma scroll_new_request fuel options w w1 w' p :
  Options.currentTime options = None ->
  checkArguments (requestedX options w) (requestedY options w)
    (requestedDuration options) (requestedEasing options)
    (requestedStopScrollingOnPointerDown options) w = (Normal tt, w1) ->
  beginScroll (requestedX options w) (requestedY options w)
    (requestedDuration options)
    (requestedStopScrollingOnPointerDown options) w1
  = (Normal (Some (ReturnPromise p)), w') ->
  scroll fuel options w = (Returns (Follows p), w').
Proof.
  intros Hnew HC HB.
  unfold requestedX, requestedY, requestedDuration, requestedEasing,
    requestedStopScrollingOnPointerDown in HC, HB.
  cbv beta iota zeta delta
    [scroll async scrollBody newScroll bind getWorld ret].
  rewrite Hnew. change (JsNumber.isNaN nan) with true.
  cbv beta iota zeta. rewrite HC. cbv beta iota zeta. rewrite HB.
  reflexivity.
Qed.

Lemma startsAnimation_same_container options w1 w :
  scrollContainer w1 = scrollContainer w ->
  startsAnimation options w1 = startsAnimation options w.
Proof.
  intros H.
  unfold startsAnimation, distanceX, distanceY, requestedX, requestedY.
  now rewrite H.
Qed.

(** A request that animates, on any consistent world. *)
Lemma scroll_starts fuel options w :
  startsAnimation options w = true ->
  framesConsistent w ->
  exists w',
    scroll fuel options w = (Returns (Follows (nextPromise w)), w') /\
    scrollResolve (this w') = Some (nextPromise w) /\
    nextPromise w' = S (nextPromise w) /\
    scrollContainer w' = scrollContainer w /\
    framesConsistent w' /\
    exists l,
      log w' = log w ++ l /\
      resolutions l
      = map (fun p => (p, Some "New smooth scroll")) (pendingOf w).
Proof.
  intros Hs Hinv. unfold startsAnimation in Hs.
  repeat (apply andb_true_iff in Hs; destruct Hs as [Hs ?]).
  destruct (Options.currentTime options) eqn:Hnew; [discriminate |].
  destruct (checkArguments_valid
              (requestedX options w) (requestedY options w)
              (requestedDuration options) (requestedEasing options)
              (requestedStopScrollingOnPointerDown options) w)
    as (w1 & HC & Hc1 & Hl1 & Hp1 & Ha1 & Hf1 & Hr1 & Hid1);
    [assumption | assumption |].
  destruct (beginScroll (requestedX options w) (requestedY options w)
              (requestedDuration options)
              (requestedStopScrollingOnPointerDown options) w1)
    as [c w'] eqn:HB.
  destruct (beginScroll_starts _ _ _ _ _ _ _ HB)
    as (-> & Hres & Hnp & Hc & Hfr & Hid & l & Hlog & Hresol).
  { assumption. }
  { rewrite Hc1. assumption. }
  { unfold framesConsistent in *. now rewrite Hr1, Hf1, Hid1. }
  exists w'. rewrite Hp1 in *.
  split; [exact (scroll_new_request _ _ _ _ _ _ Hnew HC HB) |].
  split; [exact Hres |]. split; [exact Hnp |].
  split; [now rewrite Hc |].
  split.
  - unfold framesConsistent. rewrite Hres. right. eauto.
  - exists l. rewrite Hlog, Hl1. split; [reflexivity |].
    rewrite Hresol. unfold pendingOf. now rewrite Hr1.
Qed.

(** Requests in a row: each returns the next promise, and each but the
    last is interrupted by its successor. *)
Lemma requestScrolls_resolutions fuel rest :
  forall options w,
    framesConsistent w ->
    Forall (fun o => startsAnimation o w = true) (options :: rest) ->
    exists w',
      requestScrolls fuel (options :: rest) w
      = (map (fun p => Returns (Follows p))
           (seq (nextPromise w) (S (List.length rest))), w') /\
      scrollResolve (this w') = Some (nextPromise w + List.length rest)%nat /\
      framesConsistent w' /\
      exists l,
        log w' = log w ++ l /\
        resolutions l
        = map (fun p => (p, Some "New smooth scroll"))
            (pendingOf w ++ seq (nextPromise w) (List.length rest)).
Proof.
  induction rest as [| next rest IH]; intros options w Hinv Hall;
    inversion Hall as [| ? ? Hfirst Hrest]; subst;
    destruct (scroll_starts fuel options w Hfirst Hinv)
      as (w1 & Hscroll & Hres & Hnp & Hc & Hinv1 & l1 & Hlog1 & Hresol1).
  - exists w1. simpl. rewrite Hscroll. simpl.
    rewrite Nat.add_0_r, app_nil_r. eauto 10.
  - destruct (IH next w1 Hinv1) as (w' & Hreq & Hres' & Hinv' & l2 & Hlog2 & Hresol2).
    { eapply Forall_impl; [| exact Hrest]. intros o Ho.
      now rewrite (startsAnimation_same_container _ _ _ Hc). }
    exists w'.
    change (requestScrolls fuel (options :: next :: rest) w)
      with (let (returned, w1) := scroll fuel options w in
            let (others, w2) := requestScrolls fuel (next :: rest) w1 in
            (returned :: others, w2)).
    rewrite Hscroll, Hreq, Hnp.
    split; [reflexivity |].
    split; [rewrite Hres', Hnp; f_equal; simpl; lia |].
    split; [exact Hinv' |].
    exists (l1 ++ l2). rewrite Hlog2, Hlog1, app_assoc.
    split; [reflexivity |].
    rewrite resolutions_app, Hresol1, Hresol2, <- map_app, Hnp.
    unfold pendingOf at 2. rewrite Hres. simpl.
    now rewrite <- ?app_assoc.
Qed.

(** One frame of a scroll in progress. *)
Lemma animationFrame_resolves fuel t w w' p :
  is_nan t = false ->
  scrollResolve (this w) = Some p ->
  framesConsistent w ->
  animationFrame fuel t w = Some w' ->
  framesConsistent w' /\
  exists l,
    log w' = log w ++ l /\
    ((scrollResolve (this w') = Some p /\ resolutions l = []) \/
     (scrollResolve (this w') = None /\ resolutions l = [(p, None)])).
Proof.
  intros Ht Hp Hinv H. pose proof Hinv as Hinv0.
  unfold framesConsistent in Hinv. rewrite Hp in Hinv.
  destruct Hinv as [Hnone | (id & Hone & _)].
  - rewrite (animationFrame_without_callbacks _ _ _ Hnone) in H.
    inversion H; subst. split; [exact Hinv0 |].
    exists []. rewrite app_nil_r. auto.
  - unfold animationFrame in H. rewrite Hone in H. simpl in H.
    rewrite Hone in H. simpl in H. rewrite Nat.eqb_refl in H. simpl in H.
    rewrite (frameCallback_animates _ _ _ Ht) in H. unfold async in H.
    destruct (animate fuel t (set_animationFrames [] w)) as [c w2] eqn:HA.
    destruct (animate_resolves _ _ _ _ _ p HA) as (_ & Hinv2 & Hl);
      [destruct w; exact Hp | destruct w; reflexivity |].
    assert (w2 = w') as <-
        by (destruct c as [[] | |]; now inversion H).
    split; [exact Hinv2 |].
    destruct Hl as (l & Hlog & Hcases). exists l.
    split; [| exact Hcases]. rewrite Hlog. now destruct w.
Qed.

(** Frames of a scroll in progress: its promise is resolved at most once,
    by the step that completes the scroll. *)
Lemma runFrames_resolves fuel timestamps :
  forall w w' p,
    Forall (fun t => is_nan t = false) timestamps ->
    scrollResolve (this w) = Some p ->
    framesConsistent w ->
    runFrames fuel timestamps w = Some w' ->
    exists l,
      log w' = log w ++ l /\
      ((scrollResolve (this w') = Some p /\ resolutions l = []) \/
       (scrollResolve (this w') = None /\ resolutions l = [(p, None)])).
Proof.
  induction timestamps as [| t rest IH]; intros w w' p Hts Hp Hinv H;
    simpl in H.
  - inversion H; subst. exists []. rewrite app_nil_r. auto.
  - inversion Hts as [| ? ? Ht Hrest]; subst.
    destruct (animationFrame fuel t w) as [w1 |] eqn:HF; [| discriminate].
    destruct (animationFrame_resolves _ _ _ _ _ Ht Hp Hinv HF)
      as (Hinv1 & l1 & Hlog1 & [[Hp1 Hr1] | [Hp1 Hr1]]).
    + destruct (IH _ _ _ Hrest Hp1 Hinv1 H) as (l2 & Hlog2 & Hcases).
      exists (l1 ++ l2). rewrite Hlog2, Hlog1, app_assoc.
      split; [reflexivity |]. rewrite resolutions_app, Hr1. exact Hcases.
    + assert (Hidle : forall ts w0, animationFrames w0 = [] ->
                                    runFrames fuel ts w0 = Some w0).
      { induction ts as [| t0 ts IHts]; intros w0 H0; simpl;
          [reflexivity |].
        rewrite (animationFrame_without_callbacks _ _ _ H0). now apply IHts. }
      unfold framesConsistent in Hinv1. rewrite Hp1 in Hinv1.
      rewrite (Hidle _ _ Hinv1) in H. inversion H; subst.
      exists l1. split; [exact Hlog1 |]. right. auto.
Qed.

(** C1, as the code has it.  In any world the operations reach in which
    no scroll is in progress, [n >= 1] successive requests, each valid,
    with a positive duration and at least one unit to travel on some axis,
    return [n] distinct promises.  Whatever
    frames follow, the promises resolved are exactly these: every promise
    but the last has been resolved once, with [interruptedBy] equal to
    "New smooth scroll", by the request that followed it; the last one is
    resolved once, with [interruptedBy] [null], if its scroll has run to
    completion, and is otherwise still held, unresolved. *)
Theorem successive_requests_resolve_every_promise_once
    (fuel : nat) (requests : list Options.t) (timestamps : list float)
    (w w' : World) :
  reachable w ->
  scrollResolve (this w) = None ->
  requests <> [] ->
  Forall (fun options => startsAnimation options w = true) requests ->
  Forall (fun t => is_nan t = false) timestamps ->
  runFrames fuel timestamps (snd (requestScrolls fuel requests w))
  = Some w' ->
  let n := List.length requests in
  fst (requestScrolls fuel requests w)
  = map (fun p => Returns (Follows p)) (seq (nextPromise w) n) /\
  resolutions (effectsSince w w')
  = expectedResolutions "New smooth scroll" (nextPromise w) n (completed w')
  /\
  (scrollResolve (this w') = None \/
   scrollResolve (this w') = Some (nextPromise w + (n - 1))%nat).
Proof.
  intros Hreach Hnone Hne Hall Hts Hrun n.
  destruct (consistent_idle _ (reachable_consistent _ Hreach) Hnone)
    as [Hidle Hframes].
  destruct requests as [| options rest]; [congruence |]. subst n.
  assert (Hinv : framesConsistent w)
    by (unfold framesConsistent; now rewrite Hidle).
  destruct (requestScrolls_resolutions fuel rest options w Hinv Hall)
    as (w1 & Hreq & Hres & Hinv1 & l1 & Hlog1 & Hresol1).
  rewrite Hreq in *. simpl fst. simpl snd in Hrun.
  destruct (runFrames_resolves _ _ _ _ _ Hts Hres Hinv1 Hrun)
    as (l2 & Hlog2 & Hcases).
  assert (Hlog : log w' = log w ++ (l1 ++ l2))
    by (now rewrite Hlog2, Hlog1, app_assoc).
  rewrite (effectsSince_app _ _ _ Hlog), resolutions_app, Hresol1.
  unfold pendingOf, expectedResolutions, completed. rewrite Hidle.
  simpl List.length. simpl Nat.sub. rewrite Nat.sub_0_r. simpl app.
  split; [reflexivity |].
  destruct Hcases as [[Hp Hr] | [Hp Hr]]; rewrite Hp, Hr; auto.
Qed.

(** Three example requests in a row, then frames at 100, 600 and 1200:
    promises 0 and 1 are interrupted, promise 2 completes. *)
Lemma successive_requests_resolve_every_promise_once_witness :
  exists w',
    runFrames 0 [100; 600; 1200]
      (snd (requestScrolls 0 [exampleRequest; exampleRequest; exampleRequest]
              exampleStart))
    = Some w' /\
    resolutions (effectsSince exampleStart w')
    = [(0%nat, Some "New smooth scroll"); (1%nat, Some "New smooth scroll");
       (2%nat, None)].
Proof.
  destruct (runFrames 0 [100; 600; 1200]
              (snd (requestScrolls 0
                      [exampleRequest; exampleRequest; exampleRequest]
                      exampleStart)))
    as [w' |] eqn:E; [| vm_compute in E; discriminate E].
  exists w'. split; [reflexivity |].
  destruct (successive_requests_resolve_every_promise_once
              0 [exampleRequest; exampleRequest; exampleRequest]
              [100; 600; 1200] exampleStart w')
    as (_ & H & _).
  - apply reachable_new.
  - reflexivity.
  - discriminate.
  - repeat constructor; vm_compute; reflexivity.
  - repeat constructor.
  - exact E.
  - rewrite H. revert E. vm_compute. intros E. inversion E. reflexivity.
Defined.

(** C1 as stated fails on two example requests followed by frames at 100
    and 1200: the first promise is resolved with "New smooth scroll", not
    with "new scroll request". *)
Lemma interrupted_promise_is_not_resolved_with_new_scroll_request :
  option_map (fun w' => resolutions (effectsSince exampleStart w'))
    (runFrames 0 [100; 1200]
       (snd (requestScrolls 0 [exampleRequest; exampleRequest]
               exampleStart)))
  = Some [(0%nat, Some "New smooth scroll"); (1%nat, None)]
  /\ [(0%nat, Some "New smooth scroll"); (1%nat, @None string)]
     <> expectedResolutions "new scroll request" 0 2 true.
Proof.
  split; [vm_compute; reflexivity | vm_compute; discriminate].
Qed.

End ExactlyOnce.
(* ================================================================== *)
(** ** More facts about binary64 comparisons *)

Module FloatEquality.

Lemma Prim2SF_inj (a b : float) : Prim2SF a = Prim2SF b -> a = b.
Proof.
  intros H. rewrite <- (SF2Prim_Prim2SF a), <- (SF2Prim_Prim2SF b).
  now rewrite H.
Qed.

Lemma eqb_refl (a : float) : is_nan a = false -> (a =? a) = true.
Proof.
  unfold is_nan. now destruct (a =? a).
Qed.

(** Two numbers that compare equal are the same number, or both are
    zeros. *)
Lemma eqb_true (a b : float) :
  (a =? b) = true -> a = b \/ (is_zero a = true /\ is_zero b = true).
Proof.
  unfold is_zero. rewrite !FloatAxioms.eqb_spec. unfold SFeqb.
  change (Prim2SF 0) with (S754_zero false).
  intros H.
  destruct (Prim2SF a) as [sa | sa | | sa ma ea] eqn:Ea,
           (Prim2SF b) as [sb | sb | | sb mb eb] eqn:Eb;
    try destruct sa; try destruct sb;
    simpl in H; try discriminate H;
    try (right; split; reflexivity);
    left; apply Prim2SF_inj; rewrite Ea, Eb; try reflexivity.
  all: destruct (ea ?= eb)%Z eqn:Ee; try discriminate H;
    apply Z.compare_eq in Ee; subst eb;
    destruct (Pos.compare_cont Eq ma mb) eqn:Em; try discriminate H;
    apply Pos.compare_eq in Em; subst mb; reflexivity.
Qed.

Lemma ltb_leb (a b : float) : (a <? b) = true -> (a <=? b) = true.
Proof.
  rewrite FloatAxioms.leb_spec, FloatAxioms.ltb_spec. unfold SFleb, SFltb.
  destruct (SFcompare (Prim2SF a) (Prim2SF b)) as [[] |];
    congruence.
Qed.

(** A number whose absolute value is below some bound is finite. *)
Lemma abs_ltb_is_finite (a bound : float) :
  (abs a <? bound) = true -> is_finite a = true.
Proof.
  unfold is_finite, is_infinity, is_nan.
  rewrite FloatAxioms.ltb_spec, !FloatAxioms.eqb_spec, FloatAxioms.abs_spec.
  change (Prim2SF infinity) with (S754_infinity false).
  unfold SFltb, SFeqb.
  destruct (Prim2SF a) as [[] | [] | | [] m e],
           (Prim2SF bound) as [[] | [] | | [] m' e'];
    simpl; intros H; try discriminate H; try reflexivity;
    rewrite Z.compare_refl, Pcompare_refl; reflexivity.
Qed.

End FloatEquality.

(* ================================================================== *)
(** ** The constructor of the solver *)

Section SolverConstruction.

Import CubicBezierSolver.

Lemma easingKeywordMap_keys (keyword : string) :
  In keyword easingKeywords <-> easingKeywordMap keyword <> None.
Proof.
  unfold easingKeywordMap, easingKeywords. split.
  - intros H. simpl in H.
    repeat (destruct H as [H | H]; [subst; discriminate |]).
    contradiction.
  - intros H.
    repeat match type of H with
           | context [String.eqb keyword ?k] =>
               destruct (String.eqb_spec keyword k);
               [subst; simpl; tauto |]
           end.
    congruence.
Qed.

(** A keyword is accepted exactly when the keyword map has it, and then
    the solver is the one of the control points the map gives; any other
    string is refused with the error of the [controlPoints] check. *)
Theorem new_of_keyword (keyword : string) :
  match easingKeywordMap keyword with
  | Some points =>
      In keyword easingKeywords /\
      exists solver,
        CubicBezierSolver.new (String keyword) = Normal solver /\
        CubicBezierSolver.new (Array points) = Normal solver
  | None =>
      ~ In keyword easingKeywords /\
      CubicBezierSolver.new (String keyword)
      = Throw (ValidationError "controlPoints")
  end.
Proof.
  destruct (easingKeywordMap keyword) as [points |] eqn:E.
  - assert (Hin : In keyword easingKeywords)
      by (apply easingKeywordMap_keys; congruence).
    split; [exact Hin |].
    simpl in Hin.
    repeat (destruct Hin as [Hin | Hin];
            [subst keyword; vm_compute in E; inversion E; subst points;
             eexists; split; vm_compute; reflexivity |]).
    contradiction.
  - assert (Hout : ~ In keyword easingKeywords)
      by (rewrite easingKeywordMap_keys; congruence).
    split; [exact Hout |].
    unfold CubicBezierSolver.new, controlPointValidator.
    replace (validateArgument "controlPoints" (String keyword)
               [allowedTypes ["string"; "array"]]) with true by reflexivity.
    cbv beta iota delta [negb].
    replace (validateArgument "controlPoints" (String keyword)
               [allowedValues (map String easingKeywords)]) with false;
      [reflexivity |].
    symmetry. unfold validateArgument, easingKeywords.
    cbv [forallb satisfies existsb map strictEquals].
    unfold easingKeywordMap in E.
    repeat match type of E with
           | context [String.eqb keyword ?k] =>
               destruct (String.eqb keyword k); [discriminate E |]
           end.
    reflexivity.
Qed.

(** The range check of an x-coordinate. *)
Lemma validate_unit_interval (name : string) (x : float) :
  validateArgument name (Number x) [allowedMin 0; allowedMax 1]
  = (0 <=? x) && (x <=? 1).
Proof.
  unfold validateArgument. simpl. now rewrite andb_true_r.
Qed.

(** Every element of an array of numbers passes the type check. *)
Lemma control_point_values_are_numbers (l : list float) :
  forallb
    (fun controlPoint =>
       validateArgument "controlPoints values" (Number controlPoint)
         [allowedTypes ["number"]])
    l = true.
Proof.
  induction l as [| a l IH]; [reflexivity |].
  cbn [forallb]. rewrite IH. reflexivity.
Qed.

Lemma new_array_cases (l : list float) :
  match l with
  | [x1; y1; x2; y2] =>
      if negb ((0 <=? x1) && (x1 <=? 1))
      then CubicBezierSolver.new (Array l) = Throw (ValidationError "x1")
      else if negb ((0 <=? x2) && (x2 <=? 1))
      then CubicBezierSolver.new (Array l) = Throw (ValidationError "x2")
      else
        exists solver,
          CubicBezierSolver.new (Array l) = Normal solver /\
          controlPoints solver
          = {| p1x := x1; p1y := yLimiter y1;
               p2x := x2; p2y := yLimiter y2 |}
  | _ =>
      CubicBezierSolver.new (Array l)
      = Throw (ValidationError "controlPoints")
  end.
Proof.
  destruct l as [| x1 [| y1 [| x2 [| y2 [| extra l]]]]];
    try reflexivity.
  - unfold CubicBezierSolver.new, controlPointValidator.
    rewrite !validate_unit_interval.
    replace (validateArgument "controlPoints" (Array [x1; y1; x2; y2])
               [allowedTypes ["string"; "array"]]) with true by reflexivity.
    replace (validateArgument "controlPoints"
               (Number (of_uint63 (Uint63.of_Z (Z.of_nat (List.length [x1; y1; x2; y2])))))
               _) with true by reflexivity.
    replace (forallb _ [x1; y1; x2; y2]) with true by reflexivity.
    cbv beta iota delta [negb].
    destruct ((0 <=? x1) && (x1 <=? 1)); [| reflexivity].
    destruct ((0 <=? x2) && (x2 <=? 1)); [| reflexivity].
    eexists. split; reflexivity.
  - unfold CubicBezierSolver.new, controlPointValidator.
    replace (validateArgument "controlPoints" (Array _)
               [allowedTypes ["string"; "array"]]) with true by reflexivity.
    cbv beta iota delta [negb].
    match goal with
    | |- context [validateArgument "controlPoints" (Number ?n) ?o] =>
        destruct (validateArgument "controlPoints" (Number n) o)
    end; [| reflexivity].
    now rewrite control_point_values_are_numbers.
Qed.

(** What the constructor makes of an array.  An array that does not hold
    exactly four numbers is refused with the error of the [controlPoints]
    check; of four numbers, the first and then the third must lie in
    [0, 1], or the error names [x1], respectively [x2]; otherwise the
    solver is built, its y-coordinates passed through the limiter. *)
Theorem new_of_array (l : list float) :
  (List.length l <> 4%nat ->
   CubicBezierSolver.new (Array l)
   = Throw (ValidationError "controlPoints")) /\
  (forall x1 y1 x2 y2,
      l = [x1; y1; x2; y2] ->
      ((0 <=? x1) && (x1 <=? 1) = false ->
       CubicBezierSolver.new (Array l) = Throw (ValidationError "x1")) /\
      ((0 <=? x1) && (x1 <=? 1) = true ->
       (0 <=? x2) && (x2 <=? 1) = false ->
       CubicBezierSolver.new (Array l) = Throw (ValidationError "x2")) /\
      ((0 <=? x1) && (x1 <=? 1) = true ->
       (0 <=? x2) && (x2 <=? 1) = true ->
       exists solver,
         CubicBezierSolver.new (Array l) = Normal solver /\
         controlPoints solver
         = {| p1x := x1; p1y := yLimiter y1;
              p2x := x2; p2y := yLimiter y2 |})).
Proof.
  pose proof (new_array_cases l) as H. split.
  - intros Hlen.
    destruct l as [| x1 [| y1 [| x2 [| y2 [| extra l]]]]];
      try exact H. now elim Hlen.
  - intros x1 y1 x2 y2 ->. cbv beta iota in H.
    destruct ((0 <=? x1) && (x1 <=? 1)); simpl in H.
    + destruct ((0 <=? x2) && (x2 <=? 1)); simpl in H;
        repeat split; intros; try discriminate; exact H.
    + repeat split; intros; try discriminate; exact H.
Qed.

(** The curve ["ease"] with a first x-coordinate out of range, a third
    one out of range, one number too many, and with a first y-coordinate
    beyond the limit. *)
Lemma new_of_array_witness :
  CubicBezierSolver.new (Array [1.25; 0.1; 0.25; 1])
  = Throw (ValidationError "x1") /\
  CubicBezierSolver.new (Array [0.25; 0.1; -0.25; 1])
  = Throw (ValidationError "x2") /\
  CubicBezierSolver.new (Array [0.25; 0.1; 0.25; 1; 0])
  = Throw (ValidationError "controlPoints") /\
  exists solver,
    CubicBezierSolver.new (Array [0.25; 2e15; 0.25; 1]) = Normal solver /\
    controlPoints solver
    = {| p1x := 0.25; p1y := 1501199875790165; p2x := 0.25; p2y := 1 |}.
Proof.
  split; [| split; [| split]].
  - destruct (new_of_array [1.25; 0.1; 0.25; 1]) as [_ H].
    destruct (H _ _ _ _ eq_refl) as (H1 & _). now apply H1.
  - destruct (new_of_array [0.25; 0.1; -0.25; 1]) as [_ H].
    destruct (H _ _ _ _ eq_refl) as (_ & H2 & _). now apply H2.
  - destruct (new_of_array [0.25; 0.1; 0.25; 1; 0]) as [H _].
    apply H. discriminate.
  - destruct (new_of_array [0.25; 2e15; 0.25; 1]) as [_ H].
    destruct (H _ _ _ _ eq_refl) as (_ & _ & H3). now apply H3.
Defined.

End SolverConstruction.

(* ================================================================== *)
(** ** The control points a solver stores *)

Section StoredControlPoints.

Import CubicBezierSolver.

(** The limiter returns a finite number within the limit, whatever it is
    given: a [NaN] or an infinity is replaced by the limit like any other
    number that is not below it. *)
Lemma yLimiter_finite (y : float) :
  is_finite (yLimiter y) = true /\
  (abs (yLimiter y) <=? yLimit) = true /\
  (is_finite y = false -> yLimiter y = yLimit).
Proof.
  unfold yLimiter, JsNumber.Math_abs.
  destruct (abs y <? yLimit) eqn:E.
  - pose proof (FloatEquality.abs_ltb_is_finite _ _ E) as Hf.
    split; [exact Hf |].
    split; [now apply FloatEquality.ltb_leb | congruence].
  - repeat split.
Qed.

(** Whenever the constructor returns a solver for an array of four
    numbers, the y-coordinates the solver stores are finite and at most
    the limit in absolute value, whatever the numbers were. *)
Theorem new_stores_finite_y
    (x1 y1 x2 y2 : float) (solver : CubicBezierSolver.t) :
  CubicBezierSolver.new (Array [x1; y1; x2; y2]) = Normal solver ->
  (is_finite (p1y (controlPoints solver)) = true /\
   (JsNumber.Math_abs (p1y (controlPoints solver)) <=? yLimit) = true) /\
  (is_finite (p2y (controlPoints solver)) = true /\
   (JsNumber.Math_abs (p2y (controlPoints solver)) <=? yLimit) = true).
Proof.
  intros H. rewrite (new_array_points _ _ _ _ _ H). simpl.
  destruct (yLimiter_finite y1) as (F1 & B1 & _).
  destruct (yLimiter_finite y2) as (F2 & B2 & _).
  repeat split; assumption.
Qed.

(** The curve ["ease-in-out"] with its y-coordinates at 1e300 and
    -5e15. *)
Lemma new_stores_finite_y_witness :
  exists solver,
    CubicBezierSolver.new (Array [0.42; 1e300; 0.58; -5e15])
    = Normal solver /\
    is_finite (p1y (controlPoints solver)) = true /\
    is_finite (p2y (controlPoints solver)) = true.
Proof.
  destruct (CubicBezierSolver.new (Array [0.42; 1e300; 0.58; -5e15]))
    as [solver | e |] eqn:E; try (vm_compute in E; discriminate).
  exists solver. split; [reflexivity |].
  destruct (new_stores_finite_y _ _ _ _ _ E) as [(H1 & _) (H2 & _)].
  split; assumption.
Defined.

(** The x-coordinates a solver stores lie in [0, 1]. *)
Lemma new_array_x_range
    (x1 y1 x2 y2 : float) (solver : CubicBezierSolver.t) :
  CubicBezierSolver.new (Array [x1; y1; x2; y2]) = Normal solver ->
  (0 <=? x1) && (x1 <=? 1) = true /\ (0 <=? x2) && (x2 <=? 1) = true.
Proof.
  intros H. pose proof (new_array_cases [x1; y1; x2; y2]) as Hc.
  cbv beta iota in Hc.
  destruct ((0 <=? x1) && (x1 <=? 1)); [| simpl in Hc; congruence].
  destruct ((0 <=? x2) && (x2 <=? 1)); [| simpl in Hc; congruence].
  now split.
Qed.

(** The limiter leaves a y-coordinate unchanged exactly when the
    coordinate compares equal to what the limiter returns. *)
Lemma yLimiter_fixed (y : float) :
  (y =? yLimiter y) = true <-> yLimiter y = y.
Proof.
  split.
  - unfold yLimiter, JsNumber.Math_abs.
    destruct (abs y <? yLimit) eqn:E; [reflexivity |].
    intros H. destruct (FloatEquality.eqb_true _ _ H) as [-> | [_ Hz]];
      [reflexivity | discriminate Hz].
  - intros H. rewrite H. apply FloatEquality.eqb_refl.
    apply FloatFacts.is_finite_not_nan. rewrite <- H.
    apply yLimiter_finite.
Qed.

(** An array holding the numbers a solver was built from is recognised
    as the solver's exactly when the limiter has left both
    y-coordinates as they were. *)
Lemma matches_the_numbers_iff_y_within_limit
    (x1 y1 x2 y2 : float) (solver : CubicBezierSolver.t) :
  CubicBezierSolver.new (Array [x1; y1; x2; y2]) = Normal solver ->
  controlPointsMatchCurrentControlPoints solver [x1; y1; x2; y2] = true
  <-> yLimiter y1 = y1 /\ yLimiter y2 = y2.
Proof.
  intros H. destruct (new_array_x_range _ _ _ _ _ H) as [H1 H2].
  apply andb_true_iff in H1, H2.
  destruct H1 as [H1 _], H2 as [H2 _].
  apply FloatFacts.leb_not_nan in H1, H2.
  destruct H1 as [_ H1], H2 as [_ H2].
  unfold controlPointsMatchCurrentControlPoints.
  rewrite (new_array_points _ _ _ _ _ H). simpl.
  rewrite (FloatEquality.eqb_refl _ H1), (FloatEquality.eqb_refl _ H2).
  simpl. rewrite andb_true_r, andb_true_iff, !yLimiter_fixed. tauto.
Qed.

(** Limiting twice is limiting once. *)
Lemma yLimiter_idempotent (y : float) : yLimiter (yLimiter y) = yLimiter y.
Proof.
  unfold yLimiter. cbv zeta.
  destruct (JsNumber.Math_abs y <? yLimit) eqn:E; cbv iota.
  - now rewrite E.
  - vm_compute. reflexivity.
Qed.

(** An array the constructor accepts holds four numbers. *)
Lemma new_array_four (l : list float) (solver : CubicBezierSolver.t) :
  CubicBezierSolver.new (Array l) = Normal solver ->
  exists x1 y1 x2 y2, l = [x1; y1; x2; y2].
Proof.
  intros H. pose proof (new_array_cases l) as Hc.
  destruct l as [| x1 [| y1 [| x2 [| y2 [| extra l]]]]];
    try congruence.
  now exists x1, y1, x2, y2.
Qed.

(** The constructor builds the same solver from an array and from the
    array as it has left it. *)
Lemma new_of_written_array
    (x1 y1 x2 y2 : float) (solver : CubicBezierSolver.t) :
  CubicBezierSolver.new (Array [x1; y1; x2; y2]) = Normal solver ->
  CubicBezierSolver.new (Array [x1; yLimiter y1; x2; yLimiter y2])
  = Normal solver.
Proof.
  intros H. destruct (new_array_x_range _ _ _ _ _ H) as [H1 H2].
  revert H. unfold CubicBezierSolver.new, controlPointValidator.
  rewrite !validate_unit_interval, H1, H2.
  replace (validateArgument "controlPoints" (Array [x1; y1; x2; y2])
             [allowedTypes ["string"; "array"]]) with true by reflexivity.
  replace (validateArgument "controlPoints"
             (Array [x1; yLimiter y1; x2; yLimiter y2])
             [allowedTypes ["string"; "array"]]) with true by reflexivity.
  replace (validateArgument "controlPoints"
             (Number (of_uint63 (Uint63.of_Z (Z.of_nat (List.length [x1; y1; x2; y2])))))
             _) with true by reflexivity.
  replace (validateArgument "controlPoints"
             (Number (of_uint63 (Uint63.of_Z (Z.of_nat
                (List.length [x1; yLimiter y1; x2; yLimiter y2])))))
             _) with true by reflexivity.
  replace (forallb _ [x1; y1; x2; y2]) with true by reflexivity.
  replace (forallb _ [x1; yLimiter y1; x2; yLimiter y2])
    with true by reflexivity.
  cbv beta iota delta [negb nth]. rewrite !yLimiter_idempotent.
  exact (fun H => H).
Qed.

(** The constructor writes the limited y-coordinates into the array it
    is given, so the solver is always recognised as the solver of that
    array as the call has left it: [controlPointsMatchCurrentControlPoints]
    holds of it, and building again from it gives the same solver and
    writes nothing new.  Another array holding the numbers the first
    one held before the call is recognised exactly when the constructor
    found nothing to change. *)
Theorem solver_matches_the_array_it_was_built_from
    (controlPoints_ : list float) (solver : CubicBezierSolver.t) :
  CubicBezierSolver.new (Array controlPoints_) = Normal solver ->
  controlPointsMatchCurrentControlPoints solver
    (ArrayArgument.afterNew controlPoints_) = true /\
  CubicBezierSolver.new (Array (ArrayArgument.afterNew controlPoints_))
  = Normal solver /\
  ArrayArgument.afterNew (ArrayArgument.afterNew controlPoints_)
  = ArrayArgument.afterNew controlPoints_ /\
  (controlPointsMatchCurrentControlPoints solver controlPoints_ = true
   <-> ArrayArgument.afterNew controlPoints_ = controlPoints_).
Proof.
  intros H. destruct (new_array_four _ _ H) as (x1 & y1 & x2 & y2 & ->).
  pose proof (new_of_written_array _ _ _ _ _ H) as Hw.
  assert (Ha : ArrayArgument.afterNew [x1; y1; x2; y2]
               = [x1; yLimiter y1; x2; yLimiter y2])
    by (unfold ArrayArgument.afterNew; now rewrite H).
  rewrite Ha.
  assert (Hb : ArrayArgument.afterNew [x1; yLimiter y1; x2; yLimiter y2]
               = [x1; yLimiter y1; x2; yLimiter y2])
    by (unfold ArrayArgument.afterNew; rewrite Hw;
        now rewrite !yLimiter_idempotent).
  split; [| split; [exact Hw | split; [exact Hb |]]].
  - apply (matches_the_numbers_iff_y_within_limit _ _ _ _ _ Hw).
    split; apply yLimiter_idempotent.
  - rewrite (matches_the_numbers_iff_y_within_limit _ _ _ _ _ H).
    split.
    + intros [-> ->]. reflexivity.
    + intros E. injection E as E1 E2. now split.
Qed.

(** The curve ["ease"] is left as it is and recognised; with a first
    y-coordinate beyond the limit the array is rewritten, the rewritten
    array is recognised and the numbers it held before are not. *)
Lemma solver_matches_the_array_it_was_built_from_witness :
  (exists solver,
      CubicBezierSolver.new (Array [0.25; 0.1; 0.25; 1]) = Normal solver /\
      ArrayArgument.afterNew [0.25; 0.1; 0.25; 1] = [0.25; 0.1; 0.25; 1] /\
      controlPointsMatchCurrentControlPoints solver [0.25; 0.1; 0.25; 1]
      = true) /\
  (exists solver,
      CubicBezierSolver.new (Array [0.25; 2e15; 0.25; 1]) = Normal solver /\
      ArrayArgument.afterNew [0.25; 2e15; 0.25; 1]
      = [0.25; 1501199875790165; 0.25; 1] /\
      controlPointsMatchCurrentControlPoints solver
        [0.25; 1501199875790165; 0.25; 1] = true /\
      controlPointsMatchCurrentControlPoints solver [0.25; 2e15; 0.25; 1]
      = false).
Proof.
  split.
  - destruct (CubicBezierSolver.new (Array [0.25; 0.1; 0.25; 1]))
      as [solver | e |] eqn:E; try (vm_compute in E; discriminate).
    exists solver. split; [reflexivity |].
    destruct (solver_matches_the_array_it_was_built_from _ _ E)
      as (_ & _ & _ & M).
    assert (A : ArrayArgument.afterNew [0.25; 0.1; 0.25; 1]
                = [0.25; 0.1; 0.25; 1]) by (vm_compute; reflexivity).
    split; [exact A | now apply M].
  - destruct (CubicBezierSolver.new (Array [0.25; 2e15; 0.25; 1]))
      as [solver | e |] eqn:E; try (vm_compute in E; discriminate).
    exists solver. split; [reflexivity |].
    destruct (solver_matches_the_array_it_was_built_from _ _ E)
      as (M1 & _ & _ & M).
    assert (A : ArrayArgument.afterNew [0.25; 2e15; 0.25; 1]
                = [0.25; 1501199875790165; 0.25; 1])
      by (vm_compute; reflexivity).
    rewrite A in M1, M. split; [exact A |]. split; [exact M1 |].
    destruct (controlPointsMatchCurrentControlPoints solver
                [0.25; 2e15; 0.25; 1]); [| reflexivity].
    destruct M as [M _]. specialize (M eq_refl). discriminate M.
Defined.

End StoredControlPoints.

(* ================================================================== *)
(** ** What [solveCurveX] and [solve] return *)

Section SolverResults.

Import CubicBezierSolver.

Lemma validate_x (x : float) :
  validateArgument "x" (Number x)
    [allowedTypes ["number"]; allowedMin 0; allowedMax 1]
  = (0 <=? x) && (x <=? 1).
Proof.
  unfold validateArgument. simpl. now rewrite andb_true_r.
Qed.

(** [solveCurveX] and [solve] throw exactly when [x] is not in [0, 1],
    and then the error is that of the check of [x]; for an [x] in [0, 1]
    neither the Newton iterations nor the bisection loop throw
    anything. *)
Theorem solveCurveX_throws_iff_outside_unit_interval
    (this : CubicBezierSolver.t) (fuel : nat) (x epsilon : float) :
  if (0 <=? x) && (x <=? 1)
  then
    forall e,
      solveCurveX this fuel x epsilon <> Throw e /\
      solve this fuel x epsilon <> Throw e
  else
    solveCurveX this fuel x epsilon = Throw (ValidationError "x") /\
    solve this fuel x epsilon = Throw (ValidationError "x").
Proof.
  unfold solve, solveCurveX. rewrite validate_x.
  destruct ((0 <=? x) && (x <=? 1)); cbv beta iota delta [negb].
  - intros e.
    destruct (newton this x epsilon 8 x) as [t |];
      [split; discriminate |].
    destruct (bisection this x epsilon fuel _) as [t | e' |] eqn:E;
      try (split; discriminate).
    now apply bisection_never_throws in E.
  - split; reflexivity.
Qed.

(** The time ratios 0.5 and 1.5 on the linear curve. *)
Lemma solveCurveX_throws_iff_outside_unit_interval_examples :
  (forall e, solve linearSolver 0 0.5 1e-6 <> Throw e) /\
  solve linearSolver 0 1.5 1e-6 = Throw (ValidationError "x").
Proof.
  split.
  - intros e.
    apply (solveCurveX_throws_iff_outside_unit_interval
             linearSolver 0 0.5 1e-6).
  - apply (solveCurveX_throws_iff_outside_unit_interval
             linearSolver 0 1.5 1e-6).
Defined.

(** Whatever the curve, a parameter that [solveCurveX] returns meets the
    tolerance, [|X(t) - x| < epsilon], unless it is returned after the
    bisection loop, at [// Failed], the bracket having collapsed. *)
Theorem solveCurveX_meets_tolerance_unless_bracket_collapsed
    (this : CubicBezierSolver.t) (fuel : nat) (x epsilon t : float) :
  solveCurveX this fuel x epsilon = Normal t ->
  (JsNumber.Math_abs (sampleCurveX this t - x) <? epsilon) = true \/
  exists n b,
    bisectionAfter this x epsilon n {| t0 := 0; t1 := 1; t2 := x |}
    = Some b /\
    (t0 b <? t1 b) = false /\
    t = t2 b.
Proof.
  unfold solveCurveX. intros H.
  destruct (negb (validateArgument "x" (Number x) _)); [discriminate |].
  destruct (newton this x epsilon 8 x) as [t' |] eqn:EN.
  - inversion H; subst. left.
    exact (newton_meets_tolerance _ _ _ _ _ _ EN).
  - destruct (bisection_returns_from_a_step _ _ _ _ _ _ H)
      as (n & b & Hn & Hstep).
    unfold bisectionStep in Hstep.
    destruct (t0 b <? t1 b) eqn:Ebr.
    + destruct (JsNumber.Math_abs (sampleCurveX this (t2 b) - x) <? epsilon)
        eqn:Etol; [| discriminate].
      inversion Hstep; subst. now left.
    + inversion Hstep; subst. right. exists n, b. auto.
Qed.

(** The linear curve at the time ratio 0.3 with the tolerance of a scroll
    of one second: the parameter returned meets the tolerance. *)
Lemma solveCurveX_meets_tolerance_unless_bracket_collapsed_witness :
  exists t,
    solveCurveX linearSolver 0 0.3 (1 / (200 * 1000)) = Normal t /\
    (JsNumber.Math_abs (sampleCurveX linearSolver t - 0.3)
     <? 1 / (200 * 1000)) = true.
Proof.
  destruct (solveCurveX linearSolver 0 0.3 (1 / (200 * 1000)))
    as [t | e |] eqn:E; try (vm_compute in E; discriminate).
  exists t. split; [reflexivity |].
  destruct (solveCurveX_meets_tolerance_unless_bracket_collapsed _ _ _ _ _ E)
    as [H | (n & b & Hn & Hbr & Ht)]; [exact H |].
  revert E. vm_compute. intros E. inversion E. subst t. reflexivity.
Defined.

Lemma newton_returns_at_once
    (this : CubicBezierSolver.t) (x epsilon : float) (i : nat) (t : float) :
  (JsNumber.Math_abs (sampleCurveX this t - x) <? epsilon) = true ->
  newton this x epsilon (S i) t = Some t.
Proof.
  intros H. cbn [newton]. now rewrite H.
Qed.

(** The solvers of the five keywords. *)
Lemma keyword_solver_cases
    (keyword : string) (points : list float) (solver : CubicBezierSolver.t) :
  easingKeywordMap keyword = Some points ->
  CubicBezierSolver.new (Array points) = Normal solver ->
  In (Normal solver)
    (map (fun l => CubicBezierSolver.new (Array l))
       [[0.25; 0.1; 0.25; 1]; [0.42; 0; 1; 1]; [0; 0; 0.58; 1];
        [0.42; 0; 0.58; 1]; [0; 0; 1; 1]]).
Proof.
  intros Hk Hs.
  assert (Hin : In keyword easingKeywords)
    by (apply easingKeywordMap_keys; congruence).
  simpl in Hin. rewrite <- Hs.
  repeat (destruct Hin as [Hin | Hin];
          [subst keyword; vm_compute in Hk; inversion Hk; subst points;
           simpl; tauto |]).
  contradiction.
Qed.

Lemma keyword_solve_at (x : float)
    (keyword : string) (points : list float) (solver : CubicBezierSolver.t)
    (fuel : nat) (epsilon : float) :
  x = 0 \/ x = 1 ->
  easingKeywordMap keyword = Some points ->
  CubicBezierSolver.new (Array points) = Normal solver ->
  (0 <? epsilon) = true ->
  solve solver fuel x epsilon = Normal x.
Proof.
  intros Hx Hk Hs He.
  pose proof (keyword_solver_cases _ _ _ Hk Hs) as Hin. simpl in Hin.
  repeat (destruct Hin as [Hin | Hin];
          [vm_compute in Hin; inversion Hin; subst solver;
           unfold solve, solveCurveX; rewrite !validate_x;
           destruct Hx as [-> | ->];
           (rewrite newton_returns_at_once;
            [vm_compute; reflexivity
            | match goal with
              | |- (JsNumber.Math_abs ?d <? epsilon) = true =>
                  replace d with 0 by (vm_compute; reflexivity)
              end; exact He]) |]).
  contradiction.
Qed.

(** The five keyword curves start at 0 and end at 1 exactly: whatever the
    positive tolerance, [solve(0, epsilon)] is 0 and [solve(1, epsilon)]
    is 1, returned by the first Newton iteration. *)
Theorem keyword_curves_start_at_0_and_end_at_1
    (keyword : string) (points : list float) (solver : CubicBezierSolver.t)
    (fuel : nat) (epsilon : float) :
  easingKeywordMap keyword = Some points ->
  CubicBezierSolver.new (Array points) = Normal solver ->
  (0 <? epsilon) = true ->
  solve solver fuel 0 epsilon = Normal 0 /\
  solve solver fuel 1 epsilon = Normal 1.
Proof.
  intros Hk Hs He. split.
  - apply (keyword_solve_at 0 keyword points); auto.
  - apply (keyword_solve_at 1 keyword points); auto.
Qed.

(** The curve ["ease"] with the tolerance of a scroll of 600 ms. *)
Lemma keyword_curves_start_at_0_and_end_at_1_witness :
  exists solver,
    CubicBezierSolver.new (Array [0.25; 0.1; 0.25; 1]) = Normal solver /\
    solve solver 0 0 (1 / (200 * 600)) = Normal 0 /\
    solve solver 0 1 (1 / (200 * 600)) = Normal 1.
Proof.
  destruct (CubicBezierSolver.new (Array [0.25; 0.1; 0.25; 1]))
    as [solver | e |] eqn:E; try (vm_compute in E; discriminate).
  exists solver. split; [reflexivity |].
  apply (keyword_curves_start_at_0_and_end_at_1 "ease" [0.25; 0.1; 0.25; 1]);
    [reflexivity | exact E | reflexivity].
Defined.

End SolverResults.

(* ================================================================== *)
(** ** The cases of the clamp *)

Section ClampCases.

Import SmoothScroller.

Lemma ltb_nan_r (a : float) : (a <? nan) = false.
Proof.
  rewrite FloatAxioms.ltb_spec. change (Prim2SF nan) with S754_nan.
  unfold SFltb. now destruct (Prim2SF a).
Qed.

(** The clamp shared by the two axes, case by case. *)
Lemma clamp_cases (x edge : float) :
  let clamped := if x <? 0 then 0 else if edge <? x then edge else x in
  ((x <? 0) = true -> clamped = 0) /\
  ((0 <=? x) = true -> (edge <? x) = true -> clamped = edge) /\
  ((0 <=? x) = true -> (x <=? edge) = true -> clamped = x) /\
  (is_nan x = true -> is_nan clamped = true).
Proof.
  simpl. repeat split.
  - now intros ->.
  - intros H0 He. now rewrite (FloatFacts.leb_ltb_false _ _ H0), He.
  - intros H0 He.
    now rewrite (FloatFacts.leb_ltb_false _ _ H0),
      (FloatFacts.leb_ltb_false _ _ He).
  - intros Hn. rewrite (FloatFacts.is_nan_eq _ Hn).
    change (nan <? 0) with false. cbv beta iota.
    now rewrite ltb_nan_r.
Qed.

(** How a requested offset is clamped on each axis: a negative one
    becomes 0, one beyond the edge (scroll size minus client size)
    becomes the edge, and one from 0 to the edge is left exactly as it
    is; a [NaN], which passes the type check of the request, is left as
    it is too, since both comparisons fail. *)
Theorem clamp_moves_only_targets_outside_the_extent
    (c : Element) (x y : float) :
  (((x <? 0) = true -> limitCorrectedX c x = 0) /\
   ((0 <=? x) = true -> (rightEdge c <? x) = true ->
    limitCorrectedX c x = rightEdge c) /\
   ((0 <=? x) = true -> (x <=? rightEdge c) = true ->
    limitCorrectedX c x = x) /\
   (is_nan x = true -> is_nan (limitCorrectedX c x) = true)) /\
  (((y <? 0) = true -> limitCorrectedY c y = 0) /\
   ((0 <=? y) = true -> (bottomEdge c <? y) = true ->
    limitCorrectedY c y = bottomEdge c) /\
   ((0 <=? y) = true -> (y <=? bottomEdge c) = true ->
    limitCorrectedY c y = y) /\
   (is_nan y = true -> is_nan (limitCorrectedY c y) = true)).
Proof.
  split; [exact (clamp_cases x (rightEdge c))
         | exact (clamp_cases y (bottomEdge c))].
Qed.

(** On the container of the example, whose extent is 0 by 1000: 1500 is
    clamped to 1000, 250.5 is kept, and -40 becomes 0. *)
Lemma clamp_moves_only_targets_outside_the_extent_witness :
  limitCorrectedY tallContainer 1500 = 1000 /\
  limitCorrectedY tallContainer 250.5 = 250.5 /\
  limitCorrectedX tallContainer (-40) = 0.
Proof.
  destruct (clamp_moves_only_targets_outside_the_extent
              tallContainer (-40) 1500) as [(Hx & _) (_ & Hy & _)].
  destruct (clamp_moves_only_targets_outside_the_extent
              tallContainer 0 250.5) as [_ (_ & _ & Hy' & _)].
  split; [apply Hy; reflexivity |].
  split; [apply Hy'; reflexivity | apply Hx; reflexivity].
Defined.

End ClampCases.

(* ================================================================== *)
(** ** The trace of the operations *)

Import Traces.

Ltac open_cases :=
  repeat match goal with
    | H : _ \/ _ |- _ => destruct H
    | H : exists _, _ |- _ => destruct H
    | H : _ /\ _ |- _ => destruct H
    | H : Some _ = Some _ |- _ => inversion H; clear H
    | H : None = Some _ |- _ => discriminate H
    end; subst; simpl; rewrite ?Nat.eqb_refl; simpl.

Section TraceOfOperations.

Import SmoothScroller.

Lemma resolved_app (l1 l2 : list Effect) :
  resolved (l1 ++ l2) = resolved l1 ++ resolved l2.
Proof.
  unfold resolved. now rewrite resolutions_app, map_app.
Qed.

Lemma stopsAsAWhole_app (iOsSafari : bool) (l1 l2 : list Effect) :
  stopsAsAWhole iOsSafari l1 -> stopsAsAWhole iOsSafari l2 ->
  stopsAsAWhole iOsSafari (l1 ++ l2).
Proof.
  intros H1 H2. induction H1 as [| p d r rest _ IH | e rest He _ IH].
  - exact H2.
  - rewrite <- app_assoc. now apply whole_stop.
  - simpl. now apply whole_other.
Qed.

Lemma overflowHidden_app (l1 l2 : list Effect) (hidden : bool) :
  overflowHidden (l1 ++ l2) hidden
  = overflowHidden l2 (overflowHidden l1 hidden).
Proof.
  revert hidden. induction l1 as [| e l1 IH]; intros hidden;
    [reflexivity |].
  destruct e; simpl; apply IH.
Qed.

Lemma orderly_refl (w : World) : orderly w w.
Proof.
  split; [reflexivity |]. split; [lia |]. exists [].
  rewrite app_nil_r, Nat.sub_diag. simpl. rewrite app_nil_r.
  repeat split; auto using whole_nil.
Qed.

Lemma orderly_trans (w1 w2 w3 : World) :
  orderly w1 w2 -> orderly w2 w3 -> orderly w1 w3.
Proof.
  intros (Hi1 & Hn1 & l1 & Hl1 & Hr1 & Hs1 & Hf1 & Ho1)
         (Hi2 & Hn2 & l2 & Hl2 & Hr2 & Hs2 & Hf2 & Ho2).
  rewrite Hi1 in *.
  split; [congruence |]. split; [lia |]. exists (l1 ++ l2).
  split; [now rewrite Hl2, Hl1, app_assoc |].
  split.
  - rewrite resolved_app, <- app_assoc, Hr2, app_assoc, Hr1, <- app_assoc.
    f_equal.
    replace (nextPromise w3 - nextPromise w1)%nat
      with ((nextPromise w2 - nextPromise w1)
            + (nextPromise w3 - nextPromise w2))%nat by lia.
    rewrite seq_app. do 2 f_equal. lia.
  - split; [now apply stopsAsAWhole_app |].
    split.
    + intros H. rewrite filter_app, (Hf1 H), (Hf2 H). reflexivity.
    + intros H hidden Hp Hh. rewrite overflowHidden_app.
      apply (Ho2 H); [exact Hp |]. intros Hp2. now apply (Ho1 H).
Qed.

Ltac whole_stops :=
  repeat first
    [ apply whole_nil
    | apply whole_other; [reflexivity |]
    | match goal with
      | |- stopsAsAWhole true
             (ResolvePromise ?p ?d :: DispatchEvent _ _
              :: StyleRemoveProperty _ :: CancelAnimationFrame ?r :: ?rest) =>
          apply (whole_stop true p d r rest)
      | |- stopsAsAWhole false
             (ResolvePromise ?p ?d :: DispatchEvent _ _
              :: CancelAnimationFrame ?r :: ?rest) =>
          apply (whole_stop false p d r rest)
      end ].

(** Close a goal [orderly w w'] on two worlds written out in full. *)
Ltac orderly_by_computation :=
  unfold orderly, pendingOf, resolved;
  cbv beta iota zeta delta
    [this scrollResolve nextPromise isIOsSafari log];
  split; [reflexivity |];
  split; [lia |];
  eexists;
  split;
    [ first [ rewrite <- ?app_assoc; reflexivity
            | symmetry; apply app_nil_r ] |];
  rewrite ?Nat.sub_diag;
  repeat match goal with
         | |- context [(S ?n - ?n)%nat] =>
             replace (S n - n)%nat with 1%nat by lia
         end;
  split; [simpl; rewrite ?app_nil_r; reflexivity |];
  split; [simpl; whole_stops |];
  split;
    [ intros Hios; first [discriminate Hios | reflexivity]
    | intros Hios hidden Hp Hh;
      first [ discriminate Hios
            | exfalso; apply Hp; reflexivity
            | reflexivity
            | simpl; apply Hh; first [discriminate | assumption] ] ].

Lemma pointerdown_orderly (w : World) : orderly w (snd (pointerdown w)).
Proof.
  destruct (pointerdown w) as [c w'] eqn:H. simpl.
  unfold pointerdown in H. open_world w. run_in H.
  repeat case_hyp H; inversion H; subst; clear H;
    orderly_by_computation.
Qed.

Lemma checkArguments_orderly x y d e s w c w' :
  checkArguments x y d e s w = (c, w') -> orderly w w'.
Proof.
  unfold checkArguments. intros H. open_world w. run_in H.
  repeat case_hyp H; try absurd_type_check; inversion H; subst; clear H;
    orderly_by_computation.
Qed.

Lemma beginScroll_orderly x y d s w c w' :
  beginScroll x y d s w = (c, w') -> orderly w w'.
Proof.
  unfold beginScroll. intros H. open_world w. run_in H.
  repeat case_hyp H; inversion H; subst; clear H;
    orderly_by_computation.
Qed.

Lemma animate_orderly fuel t w c w' :
  animate fuel t w = (c, w') -> orderly w w'.
Proof.
  unfold animate. intros H. open_world w. run_in H.
  repeat case_hyp H; inversion H; subst; clear H;
    orderly_by_computation.
Qed.

Lemma scrollBody_orderly fuel options w c w' :
  scrollBody fuel options w = (c, w') -> orderly w w'.
Proof.
  cbv beta iota zeta delta [scrollBody newScroll bind getWorld ret].
  intros H.
  destruct (JsNumber.isNaN _).
  - match type of H with
    | context [checkArguments ?x ?y ?d ?e ?s w] =>
        destruct (checkArguments x y d e s w) as [[[] | e0 |] w1] eqn:HC
    end; cbv beta iota zeta in H;
      try (inversion H; subst; exact (checkArguments_orderly _ _ _ _ _ _ _ _ HC)).
    apply checkArguments_orderly in HC.
    match type of H with
    | context [beginScroll ?x ?y ?d ?s w1] =>
        destruct (beginScroll x y d s w1) as [[[r |] | e1 |] w2] eqn:HB
    end; cbv beta iota zeta in H; apply beginScroll_orderly in HB;
      try (inversion H; subst; exact (orderly_trans _ _ _ HC HB)).
    apply animate_orderly in H.
    exact (orderly_trans _ _ _ HC (orderly_trans _ _ _ HB H)).
  - exact (animate_orderly _ _ _ _ _ H).
Qed.

Lemma scroll_orderly fuel options w r w' :
  scroll fuel options w = (r, w') -> orderly w w'.
Proof.
  unfold scroll, async. intros H.
  destruct (scrollBody fuel options w) as [c w1] eqn:HB.
  apply scrollBody_orderly in HB.
  destruct c as [[] | |]; inversion H; subst; exact HB.
Qed.

Lemma set_animationFrames_orderly ids w :
  orderly w (set_animationFrames ids w).
Proof.
  destruct (orderly_refl w) as (Hi & Hn & l & Hl & H).
  split; [reflexivity |]. split; [simpl; lia |]. now exists l.
Qed.

Lemma runCallbacks_orderly fuel t ids :
  forall w w', runCallbacks fuel t ids w = Some w' -> orderly w w'.
Proof.
  induction ids as [| id rest IH]; simpl; intros w w' H.
  - inversion H. apply orderly_refl.
  - destruct (existsb (Nat.eqb id) (animationFrames w)); [| now apply IH].
    match type of H with
    | context [frameCallback fuel t ?w1] =>
        destruct (frameCallback fuel t w1) as [r w2] eqn:HF;
        pose proof (set_animationFrames_orderly
                      (filter (fun j => negb (Nat.eqb id j))
                         (animationFrames w)) w) as H1
    end.
    apply scroll_orderly in HF.
    destruct r; try discriminate H; apply IH in H;
      exact (orderly_trans _ _ _ H1 (orderly_trans _ _ _ HF H)).
Qed.

Lemma step_orderly w w' : step w w' -> orderly w w'.
Proof.
  intros [fuel options p w1 w2 _ H | fuel t w1 w2 H | w1].
  - exact (scroll_orderly _ _ _ _ _ H).
  - exact (runCallbacks_orderly _ _ _ _ _ H).
  - apply pointerdown_orderly.
Qed.

(** Every world the operations reach is reached from a new scroller by an
    orderly trace. *)
Lemma reachable_orderly w :
  reachable w ->
  exists container iOsSafari, orderly (newWorld container iOsSafari) w.
Proof.
  induction 1 as [container iOsSafari | w w' _ (c & b & IH) Hstep].
  - exists container, iOsSafari. apply orderly_refl.
  - exists c, b. exact (orderly_trans _ _ _ IH (step_orderly _ _ Hstep)).
Qed.

End TraceOfOperations.

(* ================================================================== *)
(** ** Listeners that leave the scroller alone *)

Ltac run_listeners :=
  cbv beta iota zeta delta
    [
     Listeners.dispatchEvent Listeners.stopScroll
     bind ret throw lift getWorld getThis modify perform when validate
     dispatchEvent writeScrollLeft writeScrollTop scrollTo
     requestAnimationFrame cancelAnimationFrame newPromise
     getScrollEventData stopScroll resetFields cubicBezierSolver
     scrolling stopScrollingOnPointerDown scrollDistanceX
     scrollDistanceY scrollDuration scrollElapsedTime
     scrollEndingPointX scrollEndingPointY scrollRafId scrollResolve
     scrollStartingPointX scrollStartingPointY scrollStartTime
     set_cubicBezierSolver set_scrolling
     set_stopScrollingOnPointerDown set_scrollDistanceX
     set_scrollDistanceY set_scrollDuration set_scrollElapsedTime
     set_scrollEndingPointX set_scrollEndingPointY set_scrollRafId
     set_scrollResolve set_scrollStartingPointX
     set_scrollStartingPointY set_scrollStartTime this scrollContainer
     isIOsSafari animationFrames nextAnimationFrame nextPromise log
     set_this set_scrollContainer set_animationFrames
     set_nextAnimationFrame set_nextPromise set_log scrollLeft
     scrollTop scrollWidth clientWidth scrollHeight clientHeight
    ].

(** Both runs take the same branches; [quiet] rewrites the calls of the
    listener that the hypotheses make do nothing. *)
Ltac same_run quiet :=
  run_listeners;
  repeat first
    [ reflexivity
    | progress quiet; cbv beta iota zeta
    | match goal with
      | |- context [match ?x with _ => _ end] =>
          let y := innermost x in
          destruct y eqn:?; cbv beta iota zeta
      end ].

Section QuietListeners.

Import SmoothScroller.

Variable listener : Listeners.Listener.

Lemma passive_quietOnInterruptions :
  Listeners.passive listener -> Listeners.quietOnInterruptions listener.
Proof. intros H detail w _. apply H. Qed.

Lemma stopScroll_interruption (cause : string) (w : World) :
  Listeners.quietOnInterruptions listener ->
  Listeners.stopScroll listener (Some cause) w = stopScroll (Some cause) w.
Proof.
  intros Hq. open_world w.
  same_run ltac:(rewrite Hq by (simpl; discriminate)).
Qed.

Lemma stopScroll_passive (extraData : ExtraData) (w : World) :
  Listeners.passive listener ->
  Listeners.stopScroll listener extraData w = stopScroll extraData w.
Proof.
  intros Hp. open_world w. same_run ltac:(rewrite Hp).
Qed.


Lemma beginScroll_passive x y d s w :
  Listeners.passive listener ->
  Listeners.beginScroll listener x y d s w = beginScroll x y d s w.
Proof.
  intros Hp. unfold Listeners.beginScroll, beginScroll. open_world w.
  same_run ltac:(rewrite Hp).
Qed.

Lemma animate_passive fuel t w :
  Listeners.passive listener ->
  Listeners.animate listener fuel t w = animate fuel t w.
Proof.
  intros Hp. unfold Listeners.animate, animate. open_world w.
  same_run ltac:(rewrite Hp).
Qed.

Lemma scroll_passive fuel options w :
  Listeners.passive listener ->
  Listeners.scroll listener fuel options w = scroll fuel options w.
Proof.
  intros Hp.
  unfold Listeners.scroll, scroll, async, Listeners.scrollBody, scrollBody,
    Listeners.newScroll, newScroll.
  cbv beta iota zeta delta [bind getWorld ret].
  destruct (JsNumber.isNaN _).
  - destruct (checkArguments _ _ _ _ _ w) as [[[] | e |] w1];
      try reflexivity.
    rewrite (beginScroll_passive _ _ _ _ _ Hp).
    destruct (beginScroll _ _ _ _ w1) as [[[r |] | e |] w2];
      try reflexivity.
    now rewrite (animate_passive _ _ _ Hp).
  - now rewrite (animate_passive _ _ _ Hp).
Qed.


Lemma pointerdown_passive w :
  Listeners.passive listener ->
  Listeners.pointerdown listener w = pointerdown w.
Proof.
  intros Hp. unfold Listeners.pointerdown, pointerdown. open_world w.
  same_run ltac:(rewrite Hp).
Qed.

Lemma runCallbacks_passive fuel t ids :
  Listeners.passive listener ->
  forall w,
    Listeners.runCallbacks listener fuel t ids w = runCallbacks fuel t ids w.
Proof.
  intros Hp. induction ids as [| id rest IH]; intros w; [reflexivity |].
  simpl. unfold Listeners.frameCallback, frameCallback.
  rewrite (scroll_passive _ _ _ Hp).
  destruct (existsb (Nat.eqb id) (animationFrames w)); [| apply IH].
  destruct (scroll _ _ _) as [[p | e |] w2]; try reflexivity; apply IH.
Qed.

(** With listeners that leave the scroller alone, the worlds reached are
    those reached without listeners. *)
Lemma reachable_passive w :
  Listeners.passive listener ->
  Listeners.reachable listener w -> reachable w.
Proof.
  intros Hp H. induction H as [container iOsSafari | w w' _ IH Hstep].
  - apply reachable_new.
  - apply (reachable_step w); [exact IH |].
    destruct Hstep as [fuel options p w w' Hnew Hs | fuel t w w' Hf
                      | w w' Hd].
    + rewrite (scroll_passive _ _ _ Hp) in Hs.
      exact (step_request _ _ _ _ _ Hnew Hs).
    + unfold Listeners.animationFrame in Hf.
      rewrite (runCallbacks_passive _ _ _ Hp) in Hf.
      exact (step_frame _ _ _ _ Hf).
    + rewrite (pointerdown_passive _ Hp) in Hd.
      replace w' with (snd (pointerdown w)) by (now rewrite Hd).
      apply step_pointerdown.
Qed.

(** And the other way round, the pointer-down listener always
    returning. *)
Lemma passive_reachable w :
  Listeners.passive listener ->
  reachable w -> Listeners.reachable listener w.
Proof.
  intros Hp H. induction H as [container iOsSafari | w w' _ IH Hstep].
  - apply Listeners.reachable_new.
  - apply (Listeners.reachable_step listener w); [exact IH |].
    destruct Hstep as [fuel options p w w' Hnew Hs | fuel t w w' Hf | w].
    + rewrite <- (scroll_passive _ _ _ Hp) in Hs.
      exact (Listeners.step_request _ _ _ _ _ _ Hnew Hs).
    + unfold animationFrame in Hf.
      rewrite <- (runCallbacks_passive _ _ _ Hp) in Hf.
      exact (Listeners.step_frame _ _ _ _ _ Hf).
    + apply Listeners.step_pointerdown.
      rewrite (pointerdown_passive _ Hp).
      destruct (pointerdown w) as [c w'] eqn:E. simpl.
      destruct c as [[] | e |]; [reflexivity | |];
        exfalso; revert E; unfold pointerdown; open_world w;
        run_listeners; cbv beta iota delta [andb]; intros E;
        repeat case_hyp E; discriminate E.
Qed.

End QuietListeners.

(* ================================================================== *)
(** ** What holds of the trace of every reachable world *)

Section TraceInvariants.

Import SmoothScroller.

Lemma exampleRepeated_reachable : reachable exampleRepeated.
Proof.
  apply (reachable_step exampleRequested).
  - apply (reachable_step exampleStart); [apply reachable_new |].
    apply (step_request 0 exampleRequest (Follows 0)); [reflexivity |].
    apply exampleRequest_returns_promise.
  - apply (step_request 0 exampleRequest (Follows 1)); [reflexivity |].
    vm_compute. reflexivity.
Qed.

Lemma exampleCompleted_reachable : reachable exampleCompleted.
Proof.
  destruct (animationFrame 0 100 exampleRepeated) as [w1 |] eqn:E1;
    [| vm_compute in E1; discriminate E1].
  destruct (animationFrame 0 1200 w1) as [w2 |] eqn:E2;
    [| revert E1; vm_compute; intros E1; inversion E1; subst w1;
       vm_compute in E2; discriminate E2].
  assert (exampleCompleted = w2) as ->.
  { unfold exampleCompleted. simpl runFrames. rewrite E1, E2. reflexivity. }
  apply (reachable_step w1);
    [apply (reachable_step exampleRepeated);
     [exact exampleRepeated_reachable |] |];
    eapply step_frame; eassumption.
Qed.

Lemma exampleOnIOsSafari_reachable : reachable exampleOnIOsSafari.
Proof.
  apply (reachable_step (newWorld tallContainer true));
    [apply reachable_new |].
  apply (step_request 0 exampleRequest (Follows 0)); [reflexivity |].
  vm_compute. reflexivity.
Qed.

Lemma noListener_passive : Listeners.passive Listeners.noListener.
Proof. intros type detail w. reflexivity. Qed.

(** Whatever requests, frames and pointer downs a scroller has seen,
    provided the listeners of its events leave it alone, that is, none
    of them calls back into the scroller or moves its container while the
    event is dispatched: the promises the scroller has resolved, followed
    by the promise it holds pending, are the promises it has created, in
    the order of their creation.  So no promise is resolved twice, none
    is dropped unresolved, a promise is resolved before the next one is
    created, and only the newest promise can be pending. *)
Theorem promises_are_resolved_once_in_order_of_creation
    (listener : Listeners.Listener) (w : World) :
  Listeners.passive listener ->
  Listeners.reachable listener w ->
  resolved (log w) ++ pendingOf w = seq 0 (nextPromise w) /\
  NoDup (resolved (log w)) /\
  (forall p, scrollResolve (this w) = Some p ->
             nextPromise w = S p /\ ~ In p (resolved (log w))).
Proof.
  intros Hp H. apply (reachable_passive _ _ Hp) in H.
  destruct (reachable_orderly _ H)
    as (c & b & _ & _ & l & Hl & Hr & _).
  simpl in Hl, Hr. rewrite Nat.sub_0_r in Hr. subst l.
  split; [exact Hr |].
  pose proof (seq_NoDup (nextPromise w) 0) as Hnd. rewrite <- Hr in Hnd.
  split; [exact (NoDup_app_remove_r _ _ Hnd) |].
  intros p Hq. unfold pendingOf in *. rewrite Hq in *.
  split.
  - pose proof (f_equal (@List.length nat) Hr) as Hlen.
    rewrite length_app, length_seq in Hlen. simpl in Hlen.
    pose proof (f_equal (fun l => nth (List.length (resolved (log w))) l 0%nat)
                  Hr) as Hnth.
    simpl in Hnth.
    rewrite app_nth2, Nat.sub_diag, seq_nth in Hnth by lia.
    simpl in Hnth. lia.
  - intros Hin. apply NoDup_remove_2 with (l' := []) in Hnd.
    apply Hnd. rewrite app_nil_r. exact Hin.
Qed.

(** Two requests in a row, then the frames that complete the second,
    with no listener: promise 0 then promise 1 are resolved, and nothing
    is pending. *)
Lemma promises_are_resolved_once_in_order_of_creation_witness :
  resolved (log exampleCompleted) = [0%nat; 1%nat] /\
  pendingOf exampleCompleted = [] /\
  resolved (log exampleCompleted) ++ pendingOf exampleCompleted
  = seq 0 (nextPromise exampleCompleted).
Proof.
  split; [vm_compute; reflexivity |].
  split; [vm_compute; reflexivity |].
  apply (promises_are_resolved_once_in_order_of_creation
           Listeners.noListener exampleCompleted noListener_passive).
  exact (passive_reachable _ _ noListener_passive
           exampleCompleted_reachable).
Defined.

Lemma whole_stop_events (iOsSafari : bool) (l : list Effect) :
  stopsAsAWhole iOsSafari l ->
  eventsOfType "smoothScrollerScrollStop" l = valuesOfResolutions l.
Proof.
  induction 1 as [| p d r rest _ IH | e rest He _ IH].
  - reflexivity.
  - destruct iOsSafari; simpl; now rewrite IH.
  - destruct e; cbn [endsScroll] in He; try discriminate He;
      cbn [eventsOfType valuesOfResolutions]; try exact IH.
    rewrite String.eqb_sym, He. exact IH.
Qed.

Lemma whole_resolution_is_announced (iOsSafari : bool) (l : list Effect) :
  stopsAsAWhole iOsSafari l ->
  forall l1 p d l2,
    l = l1 ++ ResolvePromise p d :: l2 ->
    exists rafId l3,
      l2 = DispatchEvent "smoothScrollerScrollStop" d
           :: (if iOsSafari then [StyleRemoveProperty "overflow"] else [])
           ++ CancelAnimationFrame rafId :: l3.
Proof.
  induction 1 as [| p0 d0 r rest _ IH | e rest He _ IH];
    intros l1 p d l2 E.
  - destruct l1; discriminate E.
  - destruct l1 as [| e1 l1].
    + unfold stopEffects in E. simpl in E. inversion E; subst.
      exists r, rest. now destruct iOsSafari.
    + unfold stopEffects in E. simpl in E. inversion E; subst e1; clear E.
      destruct l1 as [| e2 l1]; [discriminate |].
      match goal with
      | H : _ = (e2 :: l1) ++ _ |- _ => rename H into Ht
      end.
      destruct iOsSafari; simpl in Ht; injection Ht as _ Ht.
      * destruct l1 as [| e3 l1]; [discriminate Ht |].
        simpl in Ht. injection Ht as _ Ht.
        destruct l1 as [| e4 l1]; [discriminate Ht |].
        simpl in Ht. injection Ht as _ Ht.
        exact (IH _ _ _ _ Ht).
      * destruct l1 as [| e3 l1]; [discriminate Ht |].
        simpl in Ht. injection Ht as _ Ht.
        exact (IH _ _ _ _ Ht).
  - destruct l1 as [| e1 l1]; simpl in E; inversion E; subst.
    + discriminate He.
    + eapply IH. reflexivity.
Qed.

(** Whatever requests, frames and pointer downs a scroller has seen,
    provided the listeners of its events leave it alone: each resolution
    of a promise is followed at once by the [smoothScrollerScrollStop]
    event, dispatched with the very data the promise was resolved with,
    then by the removal of [overflow] on iOS Safari, then by
    [cancelAnimationFrame]; and the stop events dispatched are those of
    the resolutions, one for one. *)
Theorem every_resolution_is_announced_by_a_stop_event
    (listener : Listeners.Listener) (w : World) :
  Listeners.passive listener ->
  Listeners.reachable listener w ->
  eventsOfType "smoothScrollerScrollStop" (log w)
  = valuesOfResolutions (log w) /\
  (forall before promise data after,
      log w = before ++ ResolvePromise promise data :: after ->
      exists rafId rest,
        after
        = DispatchEvent "smoothScrollerScrollStop" data
          :: (if isIOsSafari w then [StyleRemoveProperty "overflow"] else [])
          ++ CancelAnimationFrame rafId :: rest).
Proof.
  intros Hp H. apply (reachable_passive _ _ Hp) in H.
  destruct (reachable_orderly _ H)
    as (c & b & Hi & _ & l & Hl & _ & Hw & _).
  simpl in Hl, Hw, Hi. subst l. rewrite Hi.
  split; [exact (whole_stop_events _ _ Hw) |].
  exact (whole_resolution_is_announced _ _ Hw).
Qed.

(** On the completed example, with no listener, the two stop events
    carry the data of the two resolutions, the first interrupted, the
    second not. *)
Lemma every_resolution_is_announced_by_a_stop_event_witness :
  map EventData.interruptedBy
    (eventsOfType "smoothScrollerScrollStop" (log exampleCompleted))
  = [Some "New smooth scroll"; None] /\
  eventsOfType "smoothScrollerScrollStop" (log exampleCompleted)
  = valuesOfResolutions (log exampleCompleted).
Proof.
  split; [vm_compute; reflexivity |].
  apply (every_resolution_is_announced_by_a_stop_event
           Listeners.noListener exampleCompleted noListener_passive).
  exact (passive_reachable _ _ noListener_passive
           exampleCompleted_reachable).
Defined.

(** Momentum scrolling: off iOS Safari the scroller never touches the
    style of its container; on iOS Safari the container has
    [overflow: hidden] whenever a promise is pending. *)
Theorem overflow_is_hidden_while_a_scroll_is_pending (w : World) :
  reachable w ->
  (isIOsSafari w = false -> filter isStyleEffect (log w) = []) /\
  (isIOsSafari w = true ->
   scrollResolve (this w) <> None ->
   overflowHidden (log w) false = true).
Proof.
  intros H. destruct (reachable_orderly _ H)
    as (c & b & Hi & _ & l & Hl & _ & _ & Hf & Ho).
  simpl in Hl, Hi, Hf, Ho. subst l. rewrite Hi.
  split; [exact Hf |].
  intros Hios Hp. apply (Ho Hios).
  - unfold pendingOf. destruct (scrollResolve (this w));
      [discriminate | congruence].
  - intros Hn. now elim Hn.
Qed.

(** The example request on iOS Safari, waiting for its first frame. *)
Lemma overflow_is_hidden_while_a_scroll_is_pending_witness :
  scrollResolve (this exampleOnIOsSafari) = Some 0%nat /\
  overflowHidden (log exampleOnIOsSafari) false = true.
Proof.
  split; [vm_compute; reflexivity |].
  apply (overflow_is_hidden_while_a_scroll_is_pending exampleOnIOsSafari);
    [exact exampleOnIOsSafari_reachable | reflexivity
    | vm_compute; discriminate].
Defined.

(** Whatever a scroller has seen, at most one frame callback is
    requested and not yet run or cancelled, and it is the one whose
    identifier [#scrollRafId] holds; without a pending promise none is,
    so animation frames then do nothing at all. *)
Theorem at_most_one_frame_is_requested (w : World) :
  reachable w ->
  (List.length (animationFrames w) <= 1)%nat /\
  (forall id, In id (animationFrames w) ->
              scrollRafId (this w) = Some id /\
              scrollResolve (this w) <> None) /\
  (scrollResolve (this w) = None ->
   forall fuel timestamp, animationFrame fuel timestamp w = Some w).
Proof.
  intros H. destruct (reachable_consistent _ H) as [Hf _].
  unfold framesConsistent in Hf.
  destruct (scrollResolve (this w)) as [p |].
  - destruct Hf as [Hf | (id & Hf & Hid)]; rewrite Hf; simpl.
    + split; [lia |]. split; [contradiction | discriminate].
    + split; [lia |]. split; [| discriminate].
      intros id' [<- | []]. split; [exact Hid | discriminate].
  - rewrite Hf. simpl. split; [lia |]. split; [contradiction |].
    intros _ fuel timestamp.
    now apply animationFrame_without_callbacks.
Qed.

(** The repeated example: the frame of the first request was cancelled,
    that of the second is the only one requested; once completed, frames
    do nothing. *)
Lemma at_most_one_frame_is_requested_witness :
  animationFrames exampleRepeated = [1%nat] /\
  scrollRafId (this exampleRepeated) = Some 1%nat /\
  animationFrame 0 2000 exampleCompleted = Some exampleCompleted.
Proof.
  split; [vm_compute; reflexivity |].
  split.
  - apply (at_most_one_frame_is_requested exampleRepeated);
      [exact exampleRepeated_reachable | vm_compute; auto].
  - apply (at_most_one_frame_is_requested exampleCompleted);
      [exact exampleCompleted_reachable | vm_compute; reflexivity].
Defined.

End TraceInvariants.

(* ================================================================== *)
(** ** A listener that scrolls on when a scroll has completed *)

Section ChainedScroll.

Import SmoothScroller.

Variable next : Options.t.
Variable fuel : nat.












End ChainedScroll.


(* ================================================================== *)
(** ** A pointer going down on the container *)

Section PointerDown.

Import SmoothScroller.

Lemma exampleRequested_reachable : reachable exampleRequested.
Proof.
  apply (reachable_step exampleStart); [apply reachable_new |].
  apply (step_request 0 exampleRequest (Follows 0)); [reflexivity |].
  apply exampleRequest_returns_promise.
Qed.

Lemma pointerdown_not_applicable (w : World) :
  scrollResolve (this w) = None \/
  stopScrollingOnPointerDown (this w) <> Some true ->
  pointerdown w = (Normal tt, w).
Proof.
  intros H. unfold pointerdown. open_world w. run_in H.
  cbv beta iota zeta delta [bind getThis when ret scrollResolve
                            stopScrollingOnPointerDown this].
  destruct scrollResolve0 as [p |];
    destruct stopScrollingOnPointerDown0 as [[] |];
    try reflexivity.
  destruct H as [H | H]; [discriminate H | now elim H].
Qed.

Lemma pointerdown_stops (w : World) (p : nat) :
  scrollResolve (this w) = Some p ->
  stopScrollingOnPointerDown (this w) = Some true ->
  framesConsistent w ->
  exists data,
    fst (pointerdown w) = Normal tt /\
    log (snd (pointerdown w))
    = log w ++ stopEffects (isIOsSafari w) p data (scrollRafId (this w)) /\
    EventData.interruptedBy data = Some "Pointer down on scroll container" /\
    EventData.elapsedTime data = scrollElapsedTime (this w) /\
    EventData.endPoint data
    = (scrollEndingPointX (this w), scrollEndingPointY (this w)) /\
    scrollContainer (snd (pointerdown w)) = scrollContainer w /\
    scrollResolve (this (snd (pointerdown w))) = None /\
    animationFrames (snd (pointerdown w)) = [].
Proof.
  intros Hp Hs Hf.
  destruct (pointerdown w) as [c w'] eqn:H.
  unfold pointerdown, framesConsistent in *. open_world w.
  run_in H. run_in Hp. run_in Hs. run_in Hf. subst.
  cbv beta iota zeta delta [andb] in H.
  repeat case_hyp H; inversion H; subst; clear H;
    cbv beta iota zeta delta
      [fst snd this scrollResolve scrollContainer animationFrames
       scrollRafId scrollElapsedTime scrollEndingPointX
       scrollEndingPointY isIOsSafari log stopEffects];
    open_cases;
    eexists; repeat split; rewrite <- ?app_assoc; reflexivity.
Qed.

(** The [pointerdown] listener.  Without a pending promise, or with
    [stopScrollingOnPointerDown] off, it changes nothing and has no
    effect.  Otherwise it stops the scroll: the pending promise is
    resolved with [interruptedBy] "Pointer down on scroll container", the
    elapsed time and end point being those the last tick has stored; the
    offsets of the container are left as they are, the requested frame is
    cancelled, and the animation frames that follow do nothing. *)
Theorem pointerdown_stops_the_scroll_when_enabled (w : World) :
  reachable w ->
  (scrollResolve (this w) = None \/
   stopScrollingOnPointerDown (this w) <> Some true ->
   pointerdown w = (Normal tt, w)) /\
  (forall p,
      scrollResolve (this w) = Some p ->
      stopScrollingOnPointerDown (this w) = Some true ->
      exists data,
        fst (pointerdown w) = Normal tt /\
        effectsSince w (snd (pointerdown w))
        = stopEffects (isIOsSafari w) p data (scrollRafId (this w)) /\
        EventData.interruptedBy data
        = Some "Pointer down on scroll container" /\
        EventData.elapsedTime data = scrollElapsedTime (this w) /\
        EventData.endPoint data
        = (scrollEndingPointX (this w), scrollEndingPointY (this w)) /\
        scrollContainer (snd (pointerdown w)) = scrollContainer w /\
        scrollResolve (this (snd (pointerdown w))) = None /\
        forall fuel timestamp,
          animationFrame fuel timestamp (snd (pointerdown w))
          = Some (snd (pointerdown w))).
Proof.
  intros H. split; [apply pointerdown_not_applicable |].
  intros p Hp Hs. destruct (reachable_consistent _ H) as [Hf _].
  destruct (pointerdown_stops w p Hp Hs Hf)
    as (data & Hc & Hl & Hi & He & Hend & Hcont & Hr & Ha).
  exists data. rewrite (effectsSince_app _ _ _ Hl).
  repeat split; try assumption.
  intros fuel timestamp. now apply animationFrame_without_callbacks.
Qed.

(** A pointer goes down while the example scroll is waiting for its
    first frame; the frame at 100 then finds nothing to run. *)
Lemma pointerdown_stops_the_scroll_when_enabled_witness :
  resolutions (log examplePointerDown)
  = [(0%nat, Some "Pointer down on scroll container")] /\
  animationFrame 0 100 examplePointerDown = Some examplePointerDown /\
  pointerdown examplePointerDown = (Normal tt, examplePointerDown).
Proof.
  split; [vm_compute; reflexivity |].
  destruct (pointerdown_stops_the_scroll_when_enabled exampleRequested
              exampleRequested_reachable) as [_ H].
  destruct (H 0%nat) as (data & _ & _ & _ & _ & _ & _ & Hr & Ha);
    [vm_compute; reflexivity | vm_compute; reflexivity |].
  split; [exact (Ha 0%nat 100) |].
  apply pointerdown_not_applicable. left. exact Hr.
Defined.

(** Whatever the request block does, it leaves the option of the request
    in [#stopScrollingOnPointerDown]. *)
Lemma beginScroll_keeps_option x y d s w c w' :
  beginScroll x y d s w = (c, w') ->
  stopScrollingOnPointerDown (this w') = Some s.
Proof.
  unfold beginScroll. intros H. open_world w. run_in H.
  repeat case_hyp H; inversion H; subst; clear H; reflexivity.
Qed.

(** The option [stopScrollingOnPointerDown] of the request that started
    the scroll in progress decides what a pointer going down does: with
    the option on, as it is by default, the promise of that request is
    resolved with [interruptedBy] "Pointer down on scroll container";
    with the option off the pointer changes nothing and the scroll goes
    on. *)
Theorem pointer_down_obeys_the_option_of_the_request
    (fuel : nat) (options : Options.t) (w : World) :
  Scenario.reachable w ->
  startsAnimation options w = true ->
  exists w',
    scroll fuel options w = (Returns (Follows (nextPromise w)), w') /\
    if requestedStopScrollingOnPointerDown options
    then
      resolutions (effectsSince w' (snd (pointerdown w')))
      = [(nextPromise w, Some "Pointer down on scroll container")] /\
      scrollResolve (this (snd (pointerdown w'))) = None /\
      animationFrames (snd (pointerdown w')) = []
    else pointerdown w' = (Normal tt, w').
Proof.
  intros Hreach Hs. destruct (reachable_consistent _ Hreach) as [Hinv _].
  pose proof Hs as Hs'. unfold startsAnimation in Hs.
  repeat (apply andb_true_iff in Hs; destruct Hs as [Hs ?]).
  destruct (Options.currentTime options) eqn:Hnew; [discriminate |].
  destruct (checkArguments_valid
              (requestedX options w) (requestedY options w)
              (requestedDuration options) (requestedEasing options)
              (requestedStopScrollingOnPointerDown options) w)
    as (w1 & HC & Hc1 & Hl1 & Hp1 & Ha1 & Hf1 & Hr1 & Hid1);
    [assumption | assumption |].
  destruct (beginScroll (requestedX options w) (requestedY options w)
              (requestedDuration options)
              (requestedStopScrollingOnPointerDown options) w1)
    as [c w'] eqn:HB.
  assert (Hinv1 : framesConsistent w1)
    by (unfold framesConsistent in *; now rewrite Hr1, Hf1, Hid1).
  pose proof (beginScroll_keeps_option _ _ _ _ _ _ _ HB) as Hopt.
  destruct (beginScroll_starts _ _ _ _ _ _ _ HB)
    as (-> & Hres & Hnp & Hc & Hfr & Hid & _);
    [assumption
    | unfold distanceX, distanceY in *; now rewrite Hc1
    | exact Hinv1 |].
  exists w'. rewrite Hp1 in *.
  split; [exact (scroll_new_request fuel options w w1 w' _ Hnew HC HB) |].
  destruct (requestedStopScrollingOnPointerDown options).
  - destruct (pointerdown_stops w' (nextPromise w) Hres Hopt)
      as (data & _ & Hl & Hi & _ & _ & _ & Hr & Ha).
    { unfold framesConsistent. rewrite Hres. right.
      exists (nextAnimationFrame w1). now split. }
    rewrite (effectsSince_app _ _ _ Hl).
    split; [| now split].
    destruct (isIOsSafari w'); simpl; now rewrite Hi.
  - apply pointerdown_not_applicable. right. rewrite Hopt. discriminate.
Qed.

(** The example request, and the same with the option off. *)
Lemma pointer_down_obeys_the_option_of_the_request_witness :
  resolutions
    (effectsSince exampleRequested (snd (pointerdown exampleRequested)))
  = [(0%nat, Some "Pointer down on scroll container")] /\
  (exists w',
      scroll 0 unstoppableRequest exampleStart = (Returns (Follows 0), w') /\
      pointerdown w' = (Normal tt, w')).
Proof.
  split.
  - destruct (pointer_down_obeys_the_option_of_the_request
                0 exampleRequest exampleStart)
      as (w' & Hs & Hr & _);
      [apply Scenario.reachable_new | vm_compute; reflexivity |].
    destruct exampleRequest_returns_promise as [Hs' _].
    rewrite Hs' in Hs. inversion Hs. subst w'. exact Hr.
  - exact (pointer_down_obeys_the_option_of_the_request
             0 unstoppableRequest exampleStart
             (Scenario.reachable_new _ _) eq_refl).
Defined.

End PointerDown.

(* ================================================================== *)
(** ** Requests with duration 0 *)

Ltac before_scrollTo l :=
  match l with
  | ScrollTo _ _ :: _ => constr:(@nil Effect)
  | ?e :: ?rest => let b := before_scrollTo rest in constr:(e :: b)
  end.

Section InstantScroll.

Import SmoothScroller.

(** The second half of the request block for a request with duration 0
    and at least one unit to travel: a scroll in progress is interrupted,
    [scrollTo] moves the container to the clamped target, and the new
    promise is created and resolved on the spot. *)
Lemma beginScroll_instant x y d s w c w' :
  beginScroll x y d s w = (c, w') ->
  (d <=? 0) = true ->
  (1 <=? JsNumber.Math_abs
           (limitCorrectedX (scrollContainer w) x
            - scrollLeft (scrollContainer w)))
  || (1 <=? JsNumber.Math_abs
              (limitCorrectedY (scrollContainer w) y
               - scrollTop (scrollContainer w)))
  = true ->
  framesConsistent w ->
  c = Normal (Some (ReturnPromise (nextPromise w))) /\
  scrollResolve (this w') = None /\
  animationFrames w' = [] /\
  scrollLeft (scrollContainer w') = limitCorrectedX (scrollContainer w) x /\
  scrollTop (scrollContainer w') = limitCorrectedY (scrollContainer w) y /\
  exists l,
    log w' = log w ++ l /\
    exists before data rafId,
      l = before
          ++ ScrollTo (limitCorrectedX (scrollContainer w) x)
               (limitCorrectedY (scrollContainer w) y)
          :: stopEffects (isIOsSafari w) (nextPromise w) data rafId /\
      Forall (fun e => endsScroll e || isStyleEffect e = true) before /\
      resolutions before
      = map (fun p => (p, Some "New smooth scroll")) (pendingOf w) /\
      EventData.interruptedBy data = None /\
      EventData.duration data = d /\
      EventData.startPoint data
      = (scrollLeft (scrollContainer w), scrollTop (scrollContainer w)).
Proof.
  intros H Hd Hdist Hinv.
  pose proof (FloatFacts.leb_ltb_andb_false _ _ Hdist) as Hsub.
  unfold beginScroll, framesConsistent, pendingOf in *. open_world w.
  run_in H. run_in Hdist. run_in Hsub. run_in Hinv.
  cbv beta iota zeta delta
    [this scrollResolve nextPromise scrollContainer animationFrames
     nextAnimationFrame scrollRafId log isIOsSafari scrollLeft scrollTop].
  repeat case_hyp H; try congruence;
    inversion H; subst; clear H;
    try simpl in Hinv; open_cases;
    repeat match goal with |- _ /\ _ => split end; try reflexivity;
    (eexists; split; [rewrite <- ?app_assoc; reflexivity |]);
    simpl;
    match goal with
    | |- exists b d r, ?l = _ /\ _ =>
        let b := before_scrollTo l in exists b
    end;
    do 2 eexists;
    (split; [reflexivity |]);
    (split; [repeat constructor |]);
    repeat split.
Qed.

(** A request that passes validation gets through the checks, which
    touch nothing but the solver. *)
Lemma passesValidation_checkArguments options w :
  passesValidation options w = true ->
  exists w1,
    checkArguments (requestedX options w) (requestedY options w)
      (requestedDuration options) (requestedEasing options)
      (requestedStopScrollingOnPointerDown options) w = (Normal tt, w1) /\
    scrollContainer w1 = scrollContainer w /\ log w1 = log w /\
    nextPromise w1 = nextPromise w /\
    animationFrames w1 = animationFrames w /\
    isIOsSafari w1 = isIOsSafari w /\
    scrollResolve (this w1) = scrollResolve (this w) /\
    scrollRafId (this w1) = scrollRafId (this w).
Proof.
  unfold passesValidation. intros H.
  destruct (checkArguments _ _ _ _ _ w) as [[[] | |] w1] eqn:HC;
    try discriminate H.
  exists w1. split; [reflexivity |].
  destruct (checkArguments_returns _ _ _ _ _ _ _ HC)
    as [_ [[-> _] | [solver ->]]]; repeat split.
Qed.

(** A request with duration 0 whose clamped target is at least one unit
    away on some axis is carried out within the call: a scroll in
    progress is interrupted, the container is moved to the clamped target
    by one call of [scrollTo], and the promise returned is resolved at
    once, as a completed scroll of duration 0.  No frame is requested, no
    [scrollLeft] or [scrollTop] is assigned and no start or frame-sample
    event is dispatched: apart from [scrollTo] the effects are those of
    [#stopScroll] and, on iOS Safari, the setting of [overflow]. *)
Theorem zero_duration_request_scrolls_within_the_call
    (fuel : nat) (options : Options.t) (w : World) :
  reachable w ->
  Options.currentTime options = None ->
  passesValidation options w = true ->
  (requestedDuration options <=? 0) = true ->
  (1 <=? JsNumber.Math_abs (distanceX options w))
  || (1 <=? JsNumber.Math_abs (distanceY options w)) = true ->
  exists w' before data rafId,
    scroll fuel options w = (Returns (Follows (nextPromise w)), w') /\
    effectsSince w w'
    = before
      ++ ScrollTo
           (limitCorrectedX (scrollContainer w) (requestedX options w))
           (limitCorrectedY (scrollContainer w) (requestedY options w))
      :: stopEffects (isIOsSafari w) (nextPromise w) data rafId /\
    Forall (fun e => endsScroll e || isStyleEffect e = true) before /\
    resolutions before
    = map (fun p => (p, Some "New smooth scroll")) (pendingOf w) /\
    EventData.interruptedBy data = None /\
    EventData.duration data = requestedDuration options /\
    EventData.startPoint data
    = (scrollLeft (scrollContainer w), scrollTop (scrollContainer w)) /\
    scrollLeft (scrollContainer w')
    = limitCorrectedX (scrollContainer w) (requestedX options w) /\
    scrollTop (scrollContainer w')
    = limitCorrectedY (scrollContainer w) (requestedY options w) /\
    scrollResolve (this w') = None /\
    animationFrames w' = [].
Proof.
  intros Hreach Hnew Hvalid Hd Hdist.
  destruct (reachable_consistent _ Hreach) as [Hinv _].
  destruct (passesValidation_checkArguments _ _ Hvalid)
    as (w1 & HC & Hc1 & Hl1 & Hp1 & Hf1 & Hi1 & Hr1 & Hid1).
  destruct (beginScroll (requestedX options w) (requestedY options w)
              (requestedDuration options)
              (requestedStopScrollingOnPointerDown options) w1)
    as [c w'] eqn:HB.
  assert (Hinv1 : framesConsistent w1)
    by (unfold framesConsistent in *; now rewrite Hr1, Hf1, Hid1).
  unfold distanceX, distanceY in Hdist. rewrite <- Hc1 in Hdist.
  destruct (beginScroll_instant _ _ _ _ _ _ _ HB Hd Hdist Hinv1)
    as (-> & Hres & Hfr & Hx & Hy & l & Hlog
        & before & data & rafId & -> & Hbefore & Hresol & Hi & Hdur & Hsp).
  exists w', before, data, rafId.
  rewrite (scroll_new_request fuel options w w1 w' _ Hnew HC HB).
  rewrite Hl1 in Hlog. rewrite (effectsSince_app _ _ _ Hlog).
  unfold pendingOf in *.
  rewrite Hc1, Hp1, Hi1, Hr1 in *.
  repeat split; assumption.
Qed.

(** The example request with duration 0 on a scroller that has never
    scrolled: the container is at the clamped target 1000 when the call
    returns, and nothing is left pending. *)
Lemma zero_duration_request_scrolls_within_the_call_witness :
  exists w',
    scroll 0 instantRequest exampleStart = (Returns (Follows 0), w') /\
    scrollTop (scrollContainer w') = 1000 /\
    scrollResolve (this w') = None /\
    animationFrames w' = [].
Proof.
  destruct (zero_duration_request_scrolls_within_the_call
              0 instantRequest exampleStart)
    as (w' & before & data & rafId & Hs & _ & _ & _ & _ & _ & _
        & _ & Hy & Hr & Hf);
    [apply reachable_new | reflexivity | vm_compute; reflexivity
    | reflexivity | reflexivity |].
  exists w'. repeat split; assumption.
Defined.

End InstantScroll.

(* ================================================================== *)
(** ** Requests with an unknown easing keyword *)

Section UnknownKeyword.

Import SmoothScroller.

(** A request whose easing is a string that the keyword map does not
    have is rejected, the world being left as it was, and the error
    depends on whether the scroller has a solver yet: without one, the
    constructor of the solver is given [undefined] and throws the error
    of its [controlPoints] check; with one, spreading [undefined] into
    [controlPointsMatchCurrentControlPoints] is a [TypeError]. *)
Theorem unknown_easing_keyword_is_rejected
    (fuel : nat) (options : Options.t) (keyword : string) (w : World) :
  Options.currentTime options = None ->
  Options.easing options = Some (Options.Keyword keyword) ->
  CubicBezierSolver.easingKeywordMap keyword = None ->
  validateArgument "duration" (Number (requestedDuration options))
    [allowedTypes ["number"]; allowedMin 0; allowFiniteNumbersOnly true]
  = true ->
  scroll fuel options w
  = (Returns
       (RejectedWith
          match cubicBezierSolver (this w) with
          | None => ValidationError "controlPoints"
          | Some _ => TypeError "easing is not iterable"
          end),
     w).
Proof.
  intros Hnew He Hk Hd. unfold requestedDuration in Hd.
  cbv beta iota zeta delta
    [scroll async scrollBody newScroll bind getWorld getThis ret
     checkArguments validate throw lift].
  rewrite Hnew, He, Hk. change (JsNumber.isNaN nan) with true.
  cbv beta iota zeta. rewrite Hd.
  replace (validateArgument "x" _ _) with true by reflexivity.
  replace (validateArgument "y" _ _) with true by reflexivity.
  replace (validateArgument "stopScrollingOnPointerDown" _ _) with true
    by (destruct (Options.stopScrollingOnPointerDown options);
        reflexivity).
  cbv beta iota zeta.
  destruct (cubicBezierSolver (this w)); reflexivity.
Qed.

(** The keyword ["bounce"] on a new scroller, and while the example
    scroll, which has built a solver, is waiting for its first frame. *)
Lemma unknown_easing_keyword_is_rejected_witness :
  let request :=
    {| Options.x := None; Options.y := Some 1500;
       Options.duration := None;
       Options.easing := Some (Options.Keyword "bounce");
       Options.stopScrollingOnPointerDown := None;
       Options.currentTime := None |} in
  scroll 0 request exampleStart
  = (Returns (RejectedWith (ValidationError "controlPoints")), exampleStart)
  /\
  scroll 0 request exampleRequested
  = (Returns (RejectedWith (TypeError "easing is not iterable")),
     exampleRequested).
Proof.
  intros request. split.
  - apply (unknown_easing_keyword_is_rejected 0 request "bounce"
             exampleStart); reflexivity.
  - rewrite (unknown_easing_keyword_is_rejected 0 request "bounce"
               exampleRequested); reflexivity.
Defined.

End UnknownKeyword.

(* ================================================================== *)
(** ** The tick that completes a scroll *)

Section LastTick.

Import SmoothScroller.

Lemma leb_antisym_eqb (a b : float) :
  (a <=? b) = true -> (a <? b) = false -> (a =? b) = true.
Proof.
  rewrite FloatAxioms.leb_spec, FloatAxioms.ltb_spec, FloatAxioms.eqb_spec.
  unfold SFleb, SFltb, SFeqb.
  destruct (SFcompare (Prim2SF a) (Prim2SF b)) as [[] |]; congruence.
Qed.

(** [Math.min(r, 1)] is 1 as soon as [r >= 1]. *)
Lemma Math_min_at_least_1 (r : float) :
  (1 <=? r) = true -> JsNumber.Math_min r 1 = 1.
Proof.
  intros H. unfold JsNumber.Math_min.
  destruct (FloatFacts.leb_not_nan _ _ H) as [_ Hr]. rewrite Hr.
  rewrite (FloatFacts.leb_ltb_false _ _ H). simpl.
  destruct (1 <? r) eqn:E; [reflexivity |].
  destruct (FloatEquality.eqb_true _ _ (leb_antisym_eqb _ _ H E))
    as [<- | [Hz _]]; [reflexivity | discriminate Hz].
Qed.

Lemma solve_returns_in_range solver fuel x epsilon y :
  CubicBezierSolver.solve solver fuel x epsilon = Normal y ->
  (0 <=? x) && (x <=? 1) = true.
Proof.
  unfold CubicBezierSolver.solve, CubicBezierSolver.solveCurveX.
  rewrite validate_x.
  destruct ((0 <=? x) && (x <=? 1)); [reflexivity | discriminate].
Qed.

(** One tick of a scroll in progress whose start time is latched, when
    the solver returns [ratio]. *)
Lemma animate_tick fuel t w p solver ratio c w' :
  animate fuel t w = (c, w') ->
  scrollResolve (this w) = Some p ->
  cubicBezierSolver (this w) = Some solver ->
  JsNumber.truthy (scrollStartTime (this w)) = true ->
  CubicBezierSolver.solve solver fuel
    (JsNumber.Math_min
       ((t - scrollStartTime (this w)) / scrollDuration (this w)) 1)
    (1 / (200 * scrollDuration (this w)))
  = Normal ratio ->
  c = Normal ReturnUndefined /\
  exists l,
    log w' = log w ++ l /\
    filter isOffsetWrite l
    = (if JsNumber.truthy (scrollDistanceX (this w))
       then [SetScrollLeft (scrollStartingPointX (this w)
                            + ratio * scrollDistanceX (this w))]
       else [])
      ++ (if JsNumber.truthy (scrollDistanceY (this w))
          then [SetScrollTop (scrollStartingPointY (this w)
                              + ratio * scrollDistanceY (this w))]
          else []) /\
    eventsOfType "smoothScrollerScrollStart" l = [] /\
    if JsNumber.Math_min
         ((t - scrollStartTime (this w)) / scrollDuration (this w)) 1 <? 1
    then
      filter isFrameRequest l = [RequestAnimationFrame (nextAnimationFrame w)] /\
      scrollRafId (this w') = Some (nextAnimationFrame w) /\
      resolutions l = [] /\
      scrollResolve (this w') = Some p /\
      scrollElapsedTime (this w') = t - scrollStartTime (this w) /\
      scrollEndingPointX (this w') = scrollLeft (scrollContainer w') /\
      scrollEndingPointY (this w') = scrollTop (scrollContainer w')
    else
      filter isFrameRequest l = [] /\
      resolutions l = [(p, None)] /\
      scrollResolve (this w') = None.
Proof.
  intros H Hp Hs Ht Hsolve.
  pose proof (solve_returns_in_range _ _ _ _ _ Hsolve) as Hrange.
  apply andb_true_iff in Hrange. destruct Hrange as [Hrange _].
  apply FloatFacts.leb_not_nan in Hrange. destruct Hrange as [_ Hnan].
  unfold animate in H. open_world w.
  run_in H. run_in Hp. run_in Hs. run_in Ht. run_in Hsolve. run_in Hnan.
  subst. rewrite Ht in H. cbv beta iota zeta delta [negb] in H.
  cbv beta iota zeta delta
    [this scrollResolve scrollContainer scrollLeft scrollTop log
     scrollDistanceX scrollDistanceY scrollStartingPointX
     scrollStartingPointY scrollStartTime scrollDuration
     nextAnimationFrame scrollRafId scrollElapsedTime
     scrollEndingPointX scrollEndingPointY].
  set (r := JsNumber.Math_min _ 1) in *.
  rewrite Hsolve in H. cbv beta iota zeta in H.
  destruct (r <? 1) eqn:Elt.
  - repeat case_hyp H; inversion H; subst; clear H;
      (split; [reflexivity |]);
      (eexists; split; [rewrite <- ?app_assoc; reflexivity |]);
      repeat split.
  - rewrite (FloatFacts.ltb_false_leb r 1 Hnan eq_refl Elt) in H.
    repeat case_hyp H; inversion H; subst; clear H;
      (split; [reflexivity |]);
      (eexists; split; [rewrite <- ?app_assoc; reflexivity |]);
      repeat split.
Qed.

(** The tick of a scroll in progress at which the time ratio has reached
    1, when the solver returns [ratio] for the time ratio 1: each axis
    with a distance is written once, at start + ratio * distance; the
    promise is resolved with the offsets read back from the container and
    the elapsed time of this tick; no further frame is requested. *)
Lemma animate_last_tick fuel t w p solver ratio c w' :
  animate fuel t w = (c, w') ->
  scrollResolve (this w) = Some p ->
  cubicBezierSolver (this w) = Some solver ->
  JsNumber.truthy (scrollStartTime (this w)) = true ->
  (1 <=? (t - scrollStartTime (this w)) / scrollDuration (this w)) = true ->
  CubicBezierSolver.solve solver fuel 1 (1 / (200 * scrollDuration (this w)))
  = Normal ratio ->
  c = Normal ReturnUndefined /\
  scrollResolve (this w') = None /\
  exists l data,
    log w' = log w ++ l /\
    filter isOffsetWrite l
    = (if JsNumber.truthy (scrollDistanceX (this w))
       then [SetScrollLeft (scrollStartingPointX (this w)
                            + ratio * scrollDistanceX (this w))]
       else [])
      ++ (if JsNumber.truthy (scrollDistanceY (this w))
          then [SetScrollTop (scrollStartingPointY (this w)
                              + ratio * scrollDistanceY (this w))]
          else []) /\
    filter isFrameRequest l = [] /\
    resolutions l = [(p, None)] /\
    valuesOfResolutions l = [data] /\
    EventData.endPoint data
    = (scrollLeft (scrollContainer w'), scrollTop (scrollContainer w')) /\
    EventData.elapsedTime data = t - scrollStartTime (this w) /\
    EventData.duration data = scrollDuration (this w).
Proof.
  intros H Hp Hs Ht Hr Hsolve.
  pose proof (Math_min_at_least_1 _ Hr) as Hmin.
  unfold animate in H. open_world w.
  run_in H. run_in Hp. run_in Hs. run_in Ht. run_in Hmin. run_in Hsolve.
  subst. rewrite Ht in H. cbv beta iota zeta delta [negb] in H.
  rewrite Hmin, Hsolve in H.
  change (1 <? 1) with false in H. change (1 <=? 1) with true in H.
  cbv beta iota zeta in H.
  cbv beta iota zeta delta
    [this scrollResolve scrollContainer scrollLeft scrollTop log
     scrollDistanceX scrollDistanceY scrollStartingPointX
     scrollStartingPointY scrollStartTime scrollDuration].
  repeat case_hyp H; inversion H; subst; clear H;
    (split; [reflexivity |]); (split; [reflexivity |]);
    (eexists; eexists;
     split; [rewrite <- ?app_assoc; reflexivity |]);
    repeat split.
Qed.

(** With one of the five keyword curves, the tick at which the time
    ratio has reached 1 completes the scroll with the progress ratio 1
    exactly: each axis that has a distance is written once, at
    start + 1 * distance, no further frame is requested, and the promise
    is resolved, as a completed scroll, with the offsets then read back
    from the container and with the elapsed time of this tick, which may
    exceed the duration. *)
Theorem last_tick_of_a_keyword_curve_covers_the_whole_distance
    (fuel : nat) (t : float) (w : World) (p : nat)
    (keyword : string) (points : list float) (solver : CubicBezierSolver.t) :
  scrollResolve (this w) = Some p ->
  cubicBezierSolver (this w) = Some solver ->
  CubicBezierSolver.easingKeywordMap keyword = Some points ->
  CubicBezierSolver.new (Array points) = Normal solver ->
  JsNumber.truthy (scrollStartTime (this w)) = true ->
  (1 <=? (t - scrollStartTime (this w)) / scrollDuration (this w)) = true ->
  (0 <? 1 / (200 * scrollDuration (this w))) = true ->
  exists w' data,
    animate fuel t w = (Normal ReturnUndefined, w') /\
    filter isOffsetWrite (effectsSince w w')
    = (if JsNumber.truthy (scrollDistanceX (this w))
       then [SetScrollLeft (scrollStartingPointX (this w)
                            + 1 * scrollDistanceX (this w))]
       else [])
      ++ (if JsNumber.truthy (scrollDistanceY (this w))
          then [SetScrollTop (scrollStartingPointY (this w)
                              + 1 * scrollDistanceY (this w))]
          else []) /\
    filter isFrameRequest (effectsSince w w') = [] /\
    resolutions (effectsSince w w') = [(p, None)] /\
    valuesOfResolutions (effectsSince w w') = [data] /\
    EventData.endPoint data
    = (scrollLeft (scrollContainer w'), scrollTop (scrollContainer w')) /\
    EventData.elapsedTime data = t - scrollStartTime (this w) /\
    EventData.duration data = scrollDuration (this w) /\
    scrollResolve (this w') = None.
Proof.
  intros Hp Hs Hk Hnew Ht Hr He.
  destruct (animate fuel t w) as [c w'] eqn:H.
  destruct (animate_last_tick _ _ _ _ _ 1 _ _ H Hp Hs Ht Hr)
    as (-> & Hres & l & data & Hl & Hw & Hf & Hresol & Hv & Hend & Hel & Hd).
  - apply (keyword_solve_at 1 keyword points); auto.
  - exists w', data. rewrite (effectsSince_app _ _ _ Hl).
    repeat split; assumption.
Qed.

(** The example, first tick at 100: the tick at 1200 writes
    [scrollTop = 0 + 1 * 1000] and resolves the promise with the end
    point (0, 1000) and the elapsed time 1100. *)
Lemma last_tick_of_a_keyword_curve_covers_the_whole_distance_witness :
  exists w' data,
    animate 0 1200 exampleAfterFirstTick = (Normal ReturnUndefined, w') /\
    filter isOffsetWrite (effectsSince exampleAfterFirstTick w')
    = [SetScrollTop 1000] /\
    EventData.endPoint data = (0, 1000) /\
    EventData.elapsedTime data = 1100 /\
    valuesOfResolutions (effectsSince exampleAfterFirstTick w') = [data].
Proof.
  destruct (last_tick_of_a_keyword_curve_covers_the_whole_distance
              0 1200 exampleAfterFirstTick 0 "ease-out" [0; 0; 0.58; 1]
              easeOutSolver)
    as (w' & data & Ha & Hw & _ & _ & Hv & Hend & Hel & _ & _);
    try (vm_compute; reflexivity).
  exists w', data.
  split; [exact Ha |].
  split; [rewrite Hw; vm_compute; reflexivity |].
  split; [rewrite Hend; revert Ha; vm_compute; intros Ha; inversion Ha;
          reflexivity |].
  split; [rewrite Hel; vm_compute; reflexivity | exact Hv].
Defined.

(** A tick of a scroll in progress whose start time is latched, for which
    the solver returns: no start event is dispatched; each axis that has
    a distance is written once, at start + ratio * distance; then, while
    the time ratio is below 1, exactly one frame is requested, its
    identifier is remembered and the promise stays pending; otherwise no
    frame is requested and the promise is resolved as a completed
    scroll. *)
Theorem tick_writes_then_requests_one_frame_or_completes
    (fuel : nat) (t : float) (w w' : World) (p : nat)
    (solver : CubicBezierSolver.t) (ratio : float) (c : Completion Returned) :
  animate fuel t w = (c, w') ->
  scrollResolve (this w) = Some p ->
  cubicBezierSolver (this w) = Some solver ->
  JsNumber.truthy (scrollStartTime (this w)) = true ->
  CubicBezierSolver.solve solver fuel
    (JsNumber.Math_min
       ((t - scrollStartTime (this w)) / scrollDuration (this w)) 1)
    (1 / (200 * scrollDuration (this w)))
  = Normal ratio ->
  c = Normal ReturnUndefined /\
  filter isOffsetWrite (effectsSince w w')
  = (if JsNumber.truthy (scrollDistanceX (this w))
     then [SetScrollLeft (scrollStartingPointX (this w)
                          + ratio * scrollDistanceX (this w))]
     else [])
    ++ (if JsNumber.truthy (scrollDistanceY (this w))
        then [SetScrollTop (scrollStartingPointY (this w)
                            + ratio * scrollDistanceY (this w))]
        else []) /\
  eventsOfType "smoothScrollerScrollStart" (effectsSince w w') = [] /\
  if JsNumber.Math_min
       ((t - scrollStartTime (this w)) / scrollDuration (this w)) 1 <? 1
  then
    filter isFrameRequest (effectsSince w w')
    = [RequestAnimationFrame (nextAnimationFrame w)] /\
    scrollRafId (this w') = Some (nextAnimationFrame w) /\
    resolutions (effectsSince w w') = [] /\
    scrollResolve (this w') = Some p /\
    scrollElapsedTime (this w') = t - scrollStartTime (this w) /\
    scrollEndingPointX (this w') = scrollLeft (scrollContainer w') /\
    scrollEndingPointY (this w') = scrollTop (scrollContainer w')
  else
    filter isFrameRequest (effectsSince w w') = [] /\
    resolutions (effectsSince w w') = [(p, None)] /\
    scrollResolve (this w') = None.
Proof.
  intros H Hp Hs Ht Hsolve.
  destruct (animate_tick _ _ _ _ _ _ _ _ H Hp Hs Ht Hsolve)
    as (-> & l & Hl & Hw & Hstart & Hcases).
  rewrite (effectsSince_app _ _ _ Hl). auto.
Qed.

(** The example after its first tick at 100: the tick at 600 writes
    [scrollTop] and requests frame 2. *)
Lemma tick_writes_then_requests_one_frame_or_completes_witness :
  exists w' ratio,
    animate 0 600 exampleAfterFirstTick = (Normal ReturnUndefined, w') /\
    filter isOffsetWrite (effectsSince exampleAfterFirstTick w')
    = [SetScrollTop (0 + ratio * 1000)] /\
    filter isFrameRequest (effectsSince exampleAfterFirstTick w')
    = [RequestAnimationFrame 2] /\
    scrollResolve (this w') = Some 0%nat.
Proof.
  destruct (animate 0 600 exampleAfterFirstTick) as [c w'] eqn:H.
  destruct (CubicBezierSolver.solve easeOutSolver
              0 (JsNumber.Math_min ((600 - 100) / 1000) 1)
              (1 / (200 * 1000)))
    as [ratio | e |] eqn:Es; try (vm_compute in Es; discriminate Es).
  destruct (tick_writes_then_requests_one_frame_or_completes
              0 600 exampleAfterFirstTick w' 0 easeOutSolver ratio c H)
    as (-> & Hw & _ & Hcases);
    [vm_compute; reflexivity | vm_compute; reflexivity
    | vm_compute; reflexivity | exact Es |].
  exists w', ratio. split; [reflexivity |].
  split; [exact Hw |].
  change (JsNumber.Math_min
            ((600 - scrollStartTime (this exampleAfterFirstTick))
             / scrollDuration (this exampleAfterFirstTick)) 1 <? 1)
    with true in Hcases.
  destruct Hcases as (Hf & _ & _ & Hp & _). split; assumption.
Defined.

End LastTick.

(* ================================================================== *)
(** ** Which tick latches the start time *)

Section StartLatch.

Import SmoothScroller.

Lemma animate_latch fuel t w c w' :
  animate fuel t w = (c, w') ->
  exists l,
    log w' = log w ++ l /\
    (resolutions l <> [] ->
     scrollStartTime (this w') = nan /\ scrolling (this w') = false) /\
    (resolutions l = [] ->
     scrollStartTime (this w')
     = (if JsNumber.truthy (scrollStartTime (this w))
        then scrollStartTime (this w) else t) /\
     scrolling (this w')
     = (if JsNumber.truthy (scrollStartTime (this w))
        then scrolling (this w) else true)) /\
    if JsNumber.truthy (scrollStartTime (this w))
    then eventsOfType "smoothScrollerScrollStart" l = []
    else
      exists data rest,
        l = DispatchEvent "smoothScrollerScrollStart" data
            :: DispatchEvent "smoothScrollerScroll" data :: rest /\
        eventsOfType "smoothScrollerScrollStart" rest = [] /\
        EventData.startPoint data
        = (scrollStartingPointX (this w), scrollStartingPointY (this w)) /\
        EventData.duration data = scrollDuration (this w).
Proof.
  intros H. unfold animate in H. open_world w. run_in H.
  cbv beta iota zeta delta
    [this log scrollStartTime scrollStartingPointX scrollStartingPointY
     scrollDuration scrolling].
  destruct (JsNumber.truthy scrollStartTime0) eqn:Et;
    cbv beta iota zeta delta [negb] in H;
    repeat case_hyp H; inversion H; subst; clear H;
    (eexists; split; [rewrite <- ?app_assoc; reflexivity |]);
    (split; [simpl; intros Hn; first [now split | now elim Hn] |]);
    (split; [simpl; intros Hn; first [now split | discriminate Hn] |]);
    first [ reflexivity
          | simpl; do 2 eexists; repeat split ].
Qed.

(** The [smoothScrollerScrollStart] event is dispatched by exactly those
    ticks that find [#scrollStartTime] falsy, that is unset or 0: such a
    tick takes its own timestamp as the start time and dispatches the
    start event first, then the frame-sample event with the same data; a
    tick that finds a start time that is neither dispatches no start
    event.  A tick that resolves no promise, and so has not stopped the
    scroll, leaves the start time it has latched or found, and the flag
    [#scrolling], which [getScrollerData] reports, set if it has latched
    and as it was otherwise; a tick that resolves the promise leaves the
    start time unset and the flag cleared. *)
Theorem start_event_is_dispatched_by_the_ticks_that_find_no_start_time
    (fuel : nat) (t : float) (w w' : World) (c : Completion Returned) :
  animate fuel t w = (c, w') ->
  (resolutions (effectsSince w w') <> [] ->
   scrollStartTime (this w') = nan /\ scrolling (this w') = false) /\
  (resolutions (effectsSince w w') = [] ->
   scrollStartTime (this w')
   = (if JsNumber.truthy (scrollStartTime (this w))
      then scrollStartTime (this w) else t) /\
   scrolling (this w')
   = (if JsNumber.truthy (scrollStartTime (this w))
      then scrolling (this w) else true)) /\
  if JsNumber.truthy (scrollStartTime (this w))
  then eventsOfType "smoothScrollerScrollStart" (effectsSince w w') = []
  else
    exists data rest,
      effectsSince w w'
      = DispatchEvent "smoothScrollerScrollStart" data
        :: DispatchEvent "smoothScrollerScroll" data :: rest /\
      eventsOfType "smoothScrollerScrollStart" rest = [] /\
      EventData.startPoint data
      = (scrollStartingPointX (this w), scrollStartingPointY (this w)) /\
      EventData.duration data = scrollDuration (this w).
Proof.
  intros H.
  destruct (animate_latch _ _ _ _ _ H) as (l & Hl & Hf1 & Hf2 & He).
  rewrite (effectsSince_app _ _ _ Hl). auto.
Qed.

(** The first tick of the example, at 100, and its second, at 600, which
    keeps the start time 100. *)
Lemma start_event_is_dispatched_by_the_ticks_that_find_no_start_time_witness :
  (exists data rest,
      effectsSince exampleRequested
        (snd (animate 0 100 exampleRequested))
      = DispatchEvent "smoothScrollerScrollStart" data
        :: DispatchEvent "smoothScrollerScroll" data :: rest) /\
  eventsOfType "smoothScrollerScrollStart"
    (effectsSince exampleAfterFirstTick
       (snd (animate 0 600 exampleAfterFirstTick))) = [] /\
  scrollStartTime (this (snd (animate 0 600 exampleAfterFirstTick))) = 100.
Proof.
  split; [| split].
  - destruct (animate 0 100 exampleRequested) as [c w'] eqn:H.
    destruct (start_event_is_dispatched_by_the_ticks_that_find_no_start_time
                _ _ _ _ _ H) as (_ & _ & He).
    change (JsNumber.truthy (scrollStartTime (this exampleRequested)))
      with false in He.
    destruct He as (data & rest & He & _). now exists data, rest.
  - destruct (animate 0 600 exampleAfterFirstTick) as [c w'] eqn:H.
    destruct (start_event_is_dispatched_by_the_ticks_that_find_no_start_time
                _ _ _ _ _ H) as (_ & _ & He).
    exact He.
  - destruct (animate 0 600 exampleAfterFirstTick) as [c w'] eqn:H.
    destruct (start_event_is_dispatched_by_the_ticks_that_find_no_start_time
                _ _ _ _ _ H) as (_ & Hk & _).
    assert (Hr : resolutions (effectsSince exampleAfterFirstTick w') = []).
    { replace w' with (snd (animate 0 600 exampleAfterFirstTick))
        by (rewrite H; reflexivity).
      vm_compute. reflexivity. }
    destruct (Hk Hr) as [Hs _]. exact Hs.
Defined.

End StartLatch.

(* ================================================================== *)
(** ** The static members: one scroller for each container *)

Section OneScrollerPerContainer.

Import SmoothScroller.
Import SmoothScrollerClass.

Lemma get_key element map scroller :
  get element map = Some scroller -> fst scroller = element.
Proof.
  induction map as [| current rest IH]; simpl; [discriminate |].
  destruct (Nat.eqb_spec (fst current) element) as [E | E].
  - intros H. inversion H. now subst.
  - exact IH.
Qed.

Lemma get_set_same scroller map :
  get (fst scroller) (set scroller map) = Some scroller.
Proof.
  induction map as [| current rest IH]; simpl.
  - now rewrite Nat.eqb_refl.
  - destruct (Nat.eqb_spec (fst current) (fst scroller)) as [E | E]; simpl.
    + now rewrite Nat.eqb_refl.
    + apply Nat.eqb_neq in E. now rewrite E.
Qed.

Lemma get_set_pair element world map :
  get element (set (element, world) map) = Some (element, world).
Proof. exact (get_set_same (element, world) map). Qed.

Lemma get_set_other element scroller map :
  element <> fst scroller ->
  get element (set scroller map) = get element map.
Proof.
  intros Hne. induction map as [| current rest IH]; simpl.
  - apply not_eq_sym, Nat.eqb_neq in Hne. now rewrite Hne.
  - destruct (Nat.eqb_spec (fst current) (fst scroller)) as [E | E]; simpl.
    + rewrite E. apply not_eq_sym, Nat.eqb_neq in Hne. now rewrite Hne.
    + now rewrite IH.
Qed.

Lemma get_none_keys element map :
  get element map = None <-> ~ In element (List.map fst map).
Proof.
  induction map as [| current rest IH]; simpl; [tauto |].
  destruct (Nat.eqb_spec (fst current) element) as [E | E].
  - split; [discriminate | tauto].
  - rewrite IH. tauto.
Qed.

(** The keys of the map after [set]: unchanged for a key already
    present, with the key added at the end otherwise. *)
Lemma keys_set scroller map :
  List.map fst (set scroller map)
  = List.map fst map
    ++ match get (fst scroller) map with Some _ => [] | None => [fst scroller] end.
Proof.
  induction map as [| current rest IH]; simpl; [reflexivity |].
  destruct (Nat.eqb_spec (fst current) (fst scroller)) as [E | E]; simpl.
  - now rewrite app_nil_r, E.
  - now rewrite IH.
Qed.

Lemma async_never_throws fuel options w e :
  fst (SmoothScroller.scroll fuel options w) <> Throws e.
Proof.
  unfold SmoothScroller.scroll, async.
  destruct (scrollBody fuel options w) as [[[] | |] ?]; discriminate.
Qed.

(** [static scroll] throws at its caller exactly when the container is
    no element, and then nothing on the page has changed; with an
    element it throws nothing, whatever the other arguments are: their
    errors come back in the promise. *)
Theorem static_scroll_throws_only_for_a_container_that_is_no_element
    (fuel : nat) (scrollContainer : Container) (options : Options.t)
    (page : Page) :
  match scrollContainer with
  | NotAnElement _ =>
      SmoothScrollerClass.scroll fuel scrollContainer options page
      = (Throws (ValidationError "scrollContainer"), page)
  | AnElement _ =>
      forall e,
        fst (SmoothScrollerClass.scroll fuel scrollContainer options page)
        <> Throws e
  end.
Proof.
  destruct scrollContainer as [element | v]; [| reflexivity].
  intros e. unfold SmoothScrollerClass.scroll, getScroller, createScroller,
    SmoothScrollerClass.new.
  destruct (get element (scrollerMap page)) as [scroller |];
    cbv beta iota zeta;
    match goal with
    | |- context [SmoothScroller.scroll ?f ?o ?w] =>
        pose proof (async_never_throws f o w e) as H;
        destruct (SmoothScroller.scroll f o w) as [r w']
    end; exact H.
Qed.

(** A string as container, and the invalid duration -1 on element 7. *)
Lemma static_scroll_throws_only_for_a_container_that_is_no_element_witness :
  SmoothScrollerClass.scroll 0 (NotAnElement (String "#list"))
    exampleRequest examplePage
  = (Throws (ValidationError "scrollContainer"), examplePage) /\
  fst (SmoothScrollerClass.scroll 0 (AnElement 7) negativeDurationRequest
         examplePage)
  = Returns (RejectedWith (ValidationError "duration")).
Proof.
  split.
  - exact (static_scroll_throws_only_for_a_container_that_is_no_element
             0 (NotAnElement (String "#list")) exampleRequest examplePage).
  - vm_compute. reflexivity.
Defined.

(** What [static scroll] does to the page for an element.  The scroller
    of the element is the one the map had, or else a new one, which is
    added at the end of the map, its container being given the class and
    the listener; [#scroll] runs on that scroller, and the map then holds
    the scroller as [#scroll] left it, whether the promise returned is
    pending, resolved or rejected.  The scrollers of the other elements
    are untouched. *)
Theorem static_scroll_finds_or_creates_the_scroller
    (fuel : nat) (element : nat) (options : Options.t) (page : Page) :
  let existing := get element (scrollerMap page) in
  let world :=
    match existing with
    | Some scroller => snd scroller
    | None => newWorld (elements page element) (browserIsIOsSafari page)
    end in
  let added {A : Type} (a : A) : list A :=
    match existing with Some _ => [] | None => [a] end in
  let page' :=
    snd (SmoothScrollerClass.scroll fuel (AnElement element) options page) in
  fst (SmoothScrollerClass.scroll fuel (AnElement element) options page)
  = fst (SmoothScroller.scroll fuel (forwarded options) world) /\
  getScroller (AnElement element) page'
  = Some (element,
          snd (SmoothScroller.scroll fuel (forwarded options) world)) /\
  (forall other,
      other <> element ->
      getScroller (AnElement other) page'
      = getScroller (AnElement other) page) /\
  map fst (getAllScrollers page')
  = map fst (getAllScrollers page) ++ added element /\
  classListAdditions page'
  = classListAdditions page ++ added (element, "smooth-scroller") /\
  listenersAdded page'
  = listenersAdded page ++ added (element, "pointerdown").
Proof.
  intros existing world added page'. subst existing world added page'.
  unfold SmoothScrollerClass.scroll, getScroller, getAllScrollers,
    createScroller, SmoothScrollerClass.new.
  destruct (get element (scrollerMap page)) as [scroller |] eqn:E;
    cbv beta iota zeta.
  - pose proof (get_key _ _ _ E) as Hk.
    destruct (SmoothScroller.scroll fuel (forwarded options) (snd scroller))
      as [r w'].
    simpl. rewrite Hk. split; [reflexivity |].
    split; [exact (get_set_same (element, w') _) |].
    split; [intros other Hne; now apply get_set_other |].
    rewrite keys_set. simpl. rewrite E, !app_nil_r. auto.
  - cbn [fst snd elements browserIsIOsSafari scrollerMap set_scrollerMap].
    destruct (SmoothScroller.scroll fuel (forwarded options)
                (newWorld (elements page element) (browserIsIOsSafari page)))
      as [r w'].
    simpl. split; [reflexivity |].
    split; [exact (get_set_same (element, w') _) |].
    split.
    + intros other Hne. rewrite !get_set_other by exact Hne. reflexivity.
    + rewrite !keys_set. simpl. rewrite E, get_set_pair, app_nil_r. auto.
Qed.

(** The example request on element 7 of the example page, twice: one
    scroller is created, and the second call interrupts the scroll of
    the first on that same scroller. *)
Lemma static_scroll_finds_or_creates_the_scroller_witness :
  let once := snd (SmoothScrollerClass.scroll 0 (AnElement 7) exampleRequest
                     examplePage) in
  let twice := snd (SmoothScrollerClass.scroll 0 (AnElement 7) exampleRequest
                      once) in
  getScroller (AnElement 7) once = Some (7%nat, exampleRequested) /\
  map fst (getAllScrollers twice) = [7%nat] /\
  classListAdditions twice = [(7%nat, "smooth-scroller")] /\
  getScroller (AnElement 7) twice = Some (7%nat, exampleRepeated).
Proof.
  intros once twice.
  destruct (static_scroll_finds_or_creates_the_scroller
              0 7 exampleRequest examplePage) as (_ & H1 & _).
  destruct (static_scroll_finds_or_creates_the_scroller
              0 7 exampleRequest once) as (_ & H2 & _ & H3 & H4 & _).
  split; [exact H1 |].
  split; [exact H3 |].
  split; [exact H4 |].
  fold twice in H2. rewrite H2. vm_compute. reflexivity.
Defined.

Lemma in_set scroller' scroller map :
  In scroller' (set scroller map) ->
  scroller' = scroller \/ In scroller' map.
Proof.
  induction map as [| current rest IH]; simpl.
  - intros [H | []]; auto.
  - destruct (Nat.eqb (fst current) (fst scroller)); simpl;
      intros [H | H]; auto.
    destruct (IH H); auto.
Qed.

Lemma get_in element map scroller :
  get element map = Some scroller -> In scroller map.
Proof.
  induction map as [| current rest IH]; simpl; [discriminate |].
  destruct (Nat.eqb (fst current) element).
  - intros H. inversion H. now left.
  - auto.
Qed.

Lemma in_get scroller map :
  NoDup (List.map fst map) -> In scroller map ->
  get (fst scroller) map = Some scroller.
Proof.
  induction map as [| current rest IH]; simpl; [contradiction |].
  intros Hnd [-> | Hin].
  - now rewrite Nat.eqb_refl.
  - inversion Hnd as [| k ks Hk Hnd']; subst.
    destruct (Nat.eqb_spec (fst current) (fst scroller)) as [E | E].
    + elim Hk. rewrite E. now apply in_map.
    + now apply IH.
Qed.

(** What [set] on a scroller already in the map keeps. *)
Lemma set_present_keeps (P : World -> Prop) scroller world map :
  get (fst scroller) map = Some scroller ->
  P world ->
  (forall s, In s map -> P (snd s)) ->
  List.map fst (set (fst scroller, world) map) = List.map fst map /\
  (forall s, In s (set (fst scroller, world) map) -> P (snd s)).
Proof.
  intros Hget Hw Hall. split.
  - rewrite keys_set. simpl. now rewrite Hget, app_nil_r.
  - intros s Hin. destruct (in_set _ _ _ Hin) as [-> | Hin']; auto.
Qed.

(** The world-level operations leave [isIOsSafari] alone. *)
Lemma scroll_keeps_browser fuel options w :
  isIOsSafari (snd (SmoothScroller.scroll fuel options w)) = isIOsSafari w.
Proof.
  destruct (SmoothScroller.scroll fuel options w) as [r w'] eqn:H.
  now destruct (scroll_orderly _ _ _ _ _ H).
Qed.

(** A scroller of the map takes a step of its own. *)
Lemma wellFormed_update page scroller world :
  wellFormed page ->
  get (fst scroller) (scrollerMap page) = Some scroller ->
  Scenario.step (snd scroller) world ->
  isIOsSafari world = isIOsSafari (snd scroller) ->
  wellFormed
    (set_scrollerMap (set (fst scroller, world) (scrollerMap page)) page).
Proof.
  intros (Hnd & Hall & Hc & Hl) Hget Hstep Hios.
  destruct (Hall _ (get_in _ _ _ Hget)) as [Hreach Hb].
  destruct (set_present_keeps
              (fun w => Scenario.reachable w /\
                        isIOsSafari w = browserIsIOsSafari page)
              scroller world _ Hget) as [Hkeys Hall'].
  - split; [exact (Scenario.reachable_step _ _ Hreach Hstep) | congruence].
  - exact Hall.
  - unfold wellFormed. simpl. rewrite Hkeys. auto.
Qed.

(** A scroller is created for an element that has none. *)
Lemma wellFormed_create page element :
  wellFormed page ->
  get element (scrollerMap page) = None ->
  forall page1 scroller,
    createScroller (AnElement element) page = (Normal scroller, page1) ->
    wellFormed page1 /\
    get (fst scroller) (scrollerMap page1) = Some scroller /\
    browserIsIOsSafari page1 = browserIsIOsSafari page.
Proof.
  intros (Hnd & Hall & Hc & Hl) Hget page1 scroller H.
  unfold createScroller, SmoothScrollerClass.new in H.
  inversion H; subst; clear H.
  cbn [fst snd elements browserIsIOsSafari scrollerMap set_scrollerMap
       classListAdditions listenersAdded].
  split; [| split; [apply get_set_pair | reflexivity]].
  unfold wellFormed.
  cbn [fst snd elements browserIsIOsSafari scrollerMap set_scrollerMap
       classListAdditions listenersAdded].
  rewrite keys_set. cbn [fst]. rewrite Hget, !map_app, Hc, Hl.
  split; [| split; [| split; reflexivity]].
  - apply NoDup_app; [exact Hnd | repeat constructor; simpl; tauto |].
    intros k Hin [<- | []]. now apply (proj1 (get_none_keys _ _) Hget).
  - intros s Hin. destruct (in_set _ _ _ Hin) as [-> | Hin']; auto.
    split; [apply Scenario.reachable_new | reflexivity].
Qed.

Lemma step_keeps_wellFormed page page' :
  wellFormed page -> SmoothScrollerClass.step page page' ->
  wellFormed page'.
Proof.
  intros Hwf Hstep.
  destruct Hstep
    as [fuel [element | v] options page r page' Hs Hr
       | fuel t element scroller world page Hget Hf
       | element scroller page Hget].
  - unfold SmoothScrollerClass.scroll, getScroller in Hs.
    destruct (get element (scrollerMap page)) as [scroller |] eqn:E.
    + destruct (SmoothScroller.scroll fuel (forwarded options)
                  (snd scroller)) as [r' w'] eqn:Ew.
      inversion Hs; subst; clear Hs.
      rewrite <- (get_key _ _ _ E) in E.
      apply (wellFormed_update _ _ _ Hwf E).
      * destruct r as [p | e |]; try (now elim Hr).
        -- apply (Scenario.step_request fuel (forwarded options) p);
             [reflexivity | exact Ew].
        -- exfalso.
           apply (async_never_throws fuel (forwarded options)
                    (snd scroller) e). now rewrite Ew.
      * pose proof (scroll_keeps_browser fuel (forwarded options)
                      (snd scroller)) as Hb.
        now rewrite Ew in Hb.
    + destruct (createScroller (AnElement element) page)
        as [[scroller | e |] page1] eqn:Ec;
        try (unfold createScroller, SmoothScrollerClass.new in Ec;
             discriminate Ec).
      destruct (wellFormed_create _ _ Hwf E _ _ Ec) as (Hwf1 & Hget1 & _).
      destruct (SmoothScroller.scroll fuel (forwarded options)
                  (snd scroller)) as [r' w'] eqn:Ew.
      inversion Hs; subst; clear Hs.
      apply (wellFormed_update _ _ _ Hwf1 Hget1).
      * destruct r as [p | e |]; try (now elim Hr).
        -- apply (Scenario.step_request fuel (forwarded options) p);
             [reflexivity | exact Ew].
        -- exfalso.
           apply (async_never_throws fuel (forwarded options)
                    (snd scroller) e). now rewrite Ew.
      * pose proof (scroll_keeps_browser fuel (forwarded options)
                      (snd scroller)) as Hb.
        now rewrite Ew in Hb.
  - inversion Hs; subst. exact Hwf.
  - rewrite <- (get_key _ _ _ Hget) in Hget.
    apply (wellFormed_update _ _ _ Hwf Hget).
    + exact (Scenario.step_frame _ _ _ _ Hf).
    + now destruct (runCallbacks_orderly _ _ _ _ _ Hf).
  - rewrite <- (get_key _ _ _ Hget) in Hget.
    apply (wellFormed_update _ _ _ Hwf Hget).
    + apply Scenario.step_pointerdown.
    + now destruct (pointerdown_orderly (snd scroller)).
Qed.

Lemma reachable_wellFormed page :
  SmoothScrollerClass.reachable page -> wellFormed page.
Proof.
  induction 1 as [els ios | page page' _ IH Hstep].
  - unfold wellFormed. simpl. repeat split; try constructor; contradiction.
  - exact (step_keeps_wellFormed _ _ IH Hstep).
Qed.

Lemma examplePageScrolled_reachable :
  SmoothScrollerClass.reachable examplePageScrolled.
Proof.
  unfold examplePageScrolled.
  repeat match goal with
         | |- SmoothScrollerClass.reachable (snd (SmoothScrollerClass.scroll ?f ?c ?o ?p)) =>
             apply (SmoothScrollerClass.reachable_step p);
             [| apply (step_scroll f c o p
                         (fst (SmoothScrollerClass.scroll f c o p)));
                [apply surjective_pairing | vm_compute; discriminate]]
         end.
  apply SmoothScrollerClass.reachable_new.
Qed.

(** Whatever calls of [static scroll], animation frames and pointer
    downs a page has seen: the map holds exactly one scroller for each
    container that was ever scrolled, in the order of their first scroll,
    and [getScroller] finds it; no scroller is ever removed or replaced,
    so each is in a state that its own requests, frames and pointer downs
    have led to; and each of these containers has been given the class
    [smooth-scroller] and the [pointerdown] listener exactly once. *)
Theorem every_scrolled_container_has_one_scroller (page : Page) :
  SmoothScrollerClass.reachable page ->
  NoDup (map fst (getAllScrollers page)) /\
  (forall element scroller,
      getScroller (AnElement element) page = Some scroller <->
      In scroller (getAllScrollers page) /\ fst scroller = element) /\
  (forall scroller,
      In scroller (getAllScrollers page) ->
      Scenario.reachable (snd scroller) /\
      isIOsSafari (snd scroller) = browserIsIOsSafari page) /\
  classListAdditions page
  = map (fun element => (element, "smooth-scroller"))
      (map fst (getAllScrollers page)) /\
  listenersAdded page
  = map (fun element => (element, "pointerdown"))
      (map fst (getAllScrollers page)).
Proof.
  intros H. destruct (reachable_wellFormed _ H) as (Hnd & Hall & Hc & Hl).
  unfold getAllScrollers, getScroller.
  split; [exact Hnd |]. split; [| auto].
  intros element scroller. split.
  - intros Hget. split; [exact (get_in _ _ _ Hget) | exact (get_key _ _ _ Hget)].
  - intros [Hin <-]. now apply in_get.
Qed.

(** Elements 7, 3 and again 7 of the example page are scrolled: two
    scrollers, in that order, and each container has the class once. *)
Lemma every_scrolled_container_has_one_scroller_witness :
  map fst (getAllScrollers examplePageScrolled) = [7%nat; 3%nat] /\
  NoDup (map fst (getAllScrollers examplePageScrolled)) /\
  classListAdditions examplePageScrolled
  = [(7%nat, "smooth-scroller"); (3%nat, "smooth-scroller")].
Proof.
  destruct (every_scrolled_container_has_one_scroller examplePageScrolled
              examplePageScrolled_reachable) as (Hnd & _ & _ & Hc & _).
  assert (Hk : map fst (getAllScrollers examplePageScrolled) = [7%nat; 3%nat])
    by (vm_compute; reflexivity).
  split; [exact Hk |]. split; [exact Hnd |].
  rewrite Hc, Hk. reflexivity.
Defined.

End OneScrollerPerContainer.

(* ================================================================== *)
(** ** A scroll from its request to its completion *)

Module FloatArithmetic.

(** A finite number minus itself is [+0]. *)
Lemma sub_diag (t : float) : is_finite t = true -> t - t = 0.
Proof.
  intros H. apply FloatEquality.Prim2SF_inj.
  rewrite FloatAxioms.sub_spec.
  change (Prim2SF 0) with (S754_zero false).
  unfold is_finite, is_nan, is_infinity in H.
  rewrite !FloatAxioms.eqb_spec, FloatAxioms.abs_spec in H.
  change (Prim2SF infinity) with (S754_infinity false) in H.
  destruct (Prim2SF t) as [[] | [] | | s m e]; try discriminate H;
    try reflexivity.
  unfold SF64sub, SFsub. cbv zeta. now rewrite Z.sub_diag.
Qed.

(** [+0] divided by a positive number is [+0]. *)
Lemma zero_div (d : float) : (0 <? d) = true -> 0 / d = 0.
Proof.
  intros H. apply FloatEquality.Prim2SF_inj.
  rewrite FloatAxioms.div_spec. rewrite FloatAxioms.ltb_spec in H.
  change (Prim2SF 0) with (S754_zero false) in *.
  destruct (Prim2SF d) as [[] | [] | | [] m e]; try discriminate H;
    reflexivity.
Qed.

End FloatArithmetic.

Section WholeScroll.

Import SmoothScroller.

(** At the first tick the time ratio is 0. *)
Lemma first_time_ratio (t d : float) :
  is_finite t = true -> (0 <? d) = true ->
  JsNumber.Math_min ((t - t) / d) 1 = 0.
Proof.
  intros Ht Hd.
  now rewrite (FloatArithmetic.sub_diag _ Ht), (FloatArithmetic.zero_div _ Hd).
Qed.

(** One animation frame when a single callback is requested and the
    timestamp is a number: the callback is taken off the queue and runs
    the animation step. *)
Lemma animationFrame_single fuel t id w r w' :
  animationFrames w = [id] ->
  is_nan t = false ->
  animate fuel t (set_animationFrames [] w) = (Normal r, w') ->
  animationFrame fuel t w = Some w'.
Proof.
  intros Hf Ht Ha. unfold animationFrame. rewrite Hf.
  cbn [runCallbacks]. rewrite Hf. cbn [existsb filter].
  rewrite Nat.eqb_refl. cbn [orb negb].
  rewrite (frameCallback_animates _ _ _ Ht). unfold async. rewrite Ha.
  now destruct r.
Qed.

(** The first tick of a session whose start time is unset, when the
    solver returns [ratio] for the time ratio 0. *)
Lemma animate_first_tick fuel t w session ratio c w' :
  animate fuel t w = (c, w') ->
  inSession session w ->
  scrollStartTime (this w) = nan ->
  animationFrames w = [] ->
  is_finite t = true ->
  (0 <? duration session) = true ->
  CubicBezierSolver.solve (solver session) fuel 0
    (1 / (200 * duration session)) = Normal ratio ->
  c = Normal ReturnUndefined /\
  inSession session w' /\
  scrollStartTime (this w') = t /\
  (scrollLeft (scrollContainer w'), scrollTop (scrollContainer w'))
  = offsetsAfterTick session ratio (scrollContainer w) /\
  animationFrames w' = [nextAnimationFrame w] /\
  nextAnimationFrame w' = S (nextAnimationFrame w) /\
  scrollRafId (this w') = Some (nextAnimationFrame w) /\
  nextPromise w' = nextPromise w /\
  exists l, log w' = log w ++ l /\ resolutions l = [].
Proof.
  intros H (Hp & Hs & Hd & Hsx & Hsy & Hdx & Hdy) Hst Hf Ht Hpos Hsolve.
  pose proof (first_time_ratio _ _ Ht Hpos) as Hratio.
  unfold animate in H. unfold inSession, offsetsAfterTick. open_world w.
  run_in H. run_in Hp. run_in Hs. run_in Hd. run_in Hsx. run_in Hsy.
  run_in Hdx. run_in Hdy. run_in Hst. run_in Hf.
  destruct session as [p s d sx sy dx dy].
  cbv beta iota zeta delta
    [promise solver duration startingPointX startingPointY distanceOnX
     distanceOnY] in *.
  subst.
  change (JsNumber.truthy nan) with false in H.
  cbv beta iota zeta delta [negb] in H.
  rewrite Hratio, Hsolve in H.
  change (0 <? 1) with true in H. cbv beta iota zeta in H.
  cbv beta iota zeta delta
    [this scrollResolve scrollContainer scrollLeft scrollTop log
     cubicBezierSolver scrollDistanceX scrollDistanceY
     scrollStartingPointX scrollStartingPointY scrollStartTime
     scrollDuration nextAnimationFrame scrollRafId animationFrames
     nextPromise].
  repeat case_hyp H; inversion H; subst; clear H;
    (split; [reflexivity |]);
    (split; [repeat split |]);
    repeat (split; [reflexivity |]);
    (eexists; split; [rewrite <- ?app_assoc; reflexivity | reflexivity]).
Qed.

(** The tick of a session at which the time ratio has reached 1, when the
    solver returns [ratio] for the time ratio 1. *)
Lemma animate_completing_tick fuel t w session ratio c w' :
  animate fuel t w = (c, w') ->
  inSession session w ->
  animationFrames w = [] ->
  JsNumber.truthy (scrollStartTime (this w)) = true ->
  (1 <=? (t - scrollStartTime (this w)) / duration session) = true ->
  CubicBezierSolver.solve (solver session) fuel 1
    (1 / (200 * duration session)) = Normal ratio ->
  c = Normal ReturnUndefined /\
  scrollResolve (this w') = None /\
  (scrollLeft (scrollContainer w'), scrollTop (scrollContainer w'))
  = offsetsAfterTick session ratio (scrollContainer w) /\
  animationFrames w' = [] /\
  nextPromise w' = nextPromise w /\
  exists l data,
    log w' = log w ++ l /\
    resolutions l = [(promise session, None)] /\
    valuesOfResolutions l = [data] /\
    EventData.startPoint data
    = (startingPointX session, startingPointY session) /\
    EventData.endPoint data
    = (scrollLeft (scrollContainer w'), scrollTop (scrollContainer w')) /\
    EventData.elapsedTime data = t - scrollStartTime (this w) /\
    EventData.duration data = duration session.
Proof.
  intros H (Hp & Hs & Hd & Hsx & Hsy & Hdx & Hdy) Hf Ht Hr Hsolve.
  rewrite <- Hd in Hr, Hsolve.
  pose proof (Math_min_at_least_1 _ Hr) as Hmin.
  unfold animate in H. unfold offsetsAfterTick. open_world w.
  run_in H. run_in Hp. run_in Hs. run_in Hsx. run_in Hsy.
  run_in Hdx. run_in Hdy. run_in Ht. run_in Hmin. run_in Hsolve. run_in Hf.
  destruct session as [p s d sx sy dx dy].
  cbv beta iota zeta delta
    [promise solver duration startingPointX startingPointY distanceOnX
     distanceOnY scrollDuration this] in *.
  subst. rewrite Ht in H. cbv beta iota zeta delta [negb] in H.
  rewrite Hmin, Hsolve in H.
  change (1 <? 1) with false in H. change (1 <=? 1) with true in H.
  cbv beta iota zeta in H.
  cbv beta iota zeta delta
    [this scrollResolve scrollContainer scrollLeft scrollTop log
     scrollStartTime scrollRafId animationFrames nextPromise].
  repeat case_hyp H; inversion H; subst; clear H;
    repeat (split; [reflexivity |]);
    (eexists; eexists;
     split; [rewrite <- ?app_assoc; reflexivity |]);
    repeat split.
Qed.

(** The second half of the request block for a request that animates:
    the session it opens. *)
Lemma beginScroll_opens_session x y d s w c w' solver0 :
  beginScroll x y d s w = (c, w') ->
  (0 <? d) = true ->
  (1 <=? JsNumber.Math_abs
           (limitCorrectedX (scrollContainer w) x
            - scrollLeft (scrollContainer w)))
  || (1 <=? JsNumber.Math_abs
              (limitCorrectedY (scrollContainer w) y
               - scrollTop (scrollContainer w)))
  = true ->
  framesConsistent w ->
  (scrollResolve (this w) = None -> scrollStartTime (this w) = nan) ->
  cubicBezierSolver (this w) = Some solver0 ->
  inSession
    {| promise := nextPromise w;
       solver := solver0;
       duration := d;
       startingPointX := scrollLeft (scrollContainer w);
       startingPointY := scrollTop (scrollContainer w);
       distanceOnX :=
         limitCorrectedX (scrollContainer w) x - scrollLeft (scrollContainer w);
       distanceOnY :=
         limitCorrectedY (scrollContainer w) y - scrollTop (scrollContainer w) |}
    w' /\
  scrollStartTime (this w') = nan.
Proof.
  intros H Hd Hdist Hinv Hstart Hsolver.
  pose proof (FloatFacts.ltb_leb_false _ _ Hd) as Hd'.
  pose proof (FloatFacts.leb_ltb_andb_false _ _ Hdist) as Hsub.
  unfold beginScroll, framesConsistent, inSession in *. open_world w.
  run_in H. run_in Hdist. run_in Hsub. run_in Hinv. run_in Hstart.
  run_in Hsolver.
  cbv beta iota zeta delta
    [this scrollResolve nextPromise scrollContainer cubicBezierSolver
     scrollDuration scrollStartingPointX scrollStartingPointY
     scrollDistanceX scrollDistanceY scrollStartTime scrollLeft scrollTop
     promise solver duration startingPointX startingPointY distanceOnX
     distanceOnY].
  repeat case_hyp H; try congruence;
    inversion H; subst; clear H;
    repeat split; try reflexivity; auto.
Qed.

(** The checks of a request with a keyword leave the solver of that
    keyword in place, when the scroller had none or had that one. *)
Lemma checkArguments_keyword x y d keyword s w w1 points solver0 :
  checkArguments x y d (Options.Keyword keyword) s w = (Normal tt, w1) ->
  CubicBezierSolver.easingKeywordMap keyword = Some points ->
  CubicBezierSolver.new (Array points) = Normal solver0 ->
  (forall current,
      cubicBezierSolver (this w) = Some current -> current = solver0) ->
  cubicBezierSolver (this w1) = Some solver0 /\
  scrollStartTime (this w1) = scrollStartTime (this w) /\
  isIOsSafari w1 = isIOsSafari w.
Proof.
  unfold checkArguments. intros H Hk Hnew Hcur. open_world w.
  run_in H. run_in Hcur. rewrite Hk in H. cbv beta iota zeta in H.
  rewrite ?Hnew in H.
  cbv beta iota zeta delta
    [this cubicBezierSolver scrollStartTime isIOsSafari].
  repeat case_hyp H; inversion H; subst; clear H;
    repeat split; try reflexivity;
    f_equal; now apply Hcur.
Qed.

Lemma valuesOfResolutions_app (l1 l2 : list Effect) :
  valuesOfResolutions (l1 ++ l2)
  = valuesOfResolutions l1 ++ valuesOfResolutions l2.
Proof.
  induction l1 as [| e l1 IH]; [reflexivity |].
  destruct e; simpl; now rewrite ?IH.
Qed.

Lemma resolutions_nil_values (l : list Effect) :
  resolutions l = [] -> valuesOfResolutions l = [].
Proof.
  induction l as [| e l IH]; [reflexivity |].
  destruct e; simpl; auto; discriminate.
Qed.

Lemma offsetsAfterTick_twice session ratio ratio' before between :
  (scrollLeft between, scrollTop between)
  = offsetsAfterTick session ratio' before ->
  offsetsAfterTick session ratio between
  = offsetsAfterTick session ratio before.
Proof.
  unfold offsetsAfterTick. intros H. inversion H as [[Hl Ht]].
  destruct (JsNumber.truthy (distanceOnX session)),
    (JsNumber.truthy (distanceOnY session)); congruence.
Qed.

Lemma truthy_is_number (t : float) :
  JsNumber.truthy t = true -> is_nan t = false.
Proof.
  unfold JsNumber.truthy. now destruct (is_nan t).
Qed.

(** A scroll with a keyword curve, from the request to its completion.
    The request is valid and has a positive duration and at least one unit
    to travel, on a scroller that has no solver yet or has the solver of
    that keyword.  Its first frame comes at a finite time [t0] other than
    0, a second one at a time [t1] by which the duration has elapsed.
    Then the second frame completes the scroll: the container ends at
    start + 1 * distance on each axis that has a distance and where it was
    on the other; the promise of the request is resolved, once, as a
    completed scroll whose data hold these offsets as end point, the
    offsets at the time of the request as start point, and the elapsed
    time [t1 - t0]; a scroll that was in progress has been interrupted;
    and nothing is left pending or requested. *)
Theorem keyword_scroll_completes_at_the_full_distance
    (fuel : nat) (options : Options.t) (w : World)
    (keyword : string) (points : list float)
    (solver0 : CubicBezierSolver.t) (t0 t1 : float) :
  Scenario.reachable w ->
  startsAnimation options w = true ->
  requestedEasing options = Options.Keyword keyword ->
  CubicBezierSolver.easingKeywordMap keyword = Some points ->
  CubicBezierSolver.new (Array points) = Normal solver0 ->
  (forall current,
      cubicBezierSolver (this w) = Some current -> current = solver0) ->
  (0 <? 1 / (200 * requestedDuration options)) = true ->
  is_finite t0 = true ->
  JsNumber.truthy t0 = true ->
  is_nan t1 = false ->
  (1 <=? (t1 - t0) / requestedDuration options) = true ->
  exists w1 w' data,
    scroll fuel options w = (Returns (Follows (nextPromise w)), w1) /\
    runFrames fuel [t0; t1] w1 = Some w' /\
    (scrollLeft (scrollContainer w'), scrollTop (scrollContainer w'))
    = offsetsAfterTick (sessionOf options solver0 w) 1 (scrollContainer w) /\
    resolutions (effectsSince w w')
    = map (fun p => (p, Some "New smooth scroll")) (pendingOf w)
      ++ [(nextPromise w, None)] /\
    valuesOfResolutions (effectsSince w1 w') = [data] /\
    EventData.startPoint data
    = (scrollLeft (scrollContainer w), scrollTop (scrollContainer w)) /\
    EventData.endPoint data
    = (scrollLeft (scrollContainer w'), scrollTop (scrollContainer w')) /\
    EventData.elapsedTime data = t1 - t0 /\
    EventData.duration data = requestedDuration options /\
    scrollResolve (this w') = None /\
    animationFrames w' = [].
Proof.
  intros Hreach Hs Heasing Hk Hnew Hcur Heps Hfin0 Htruthy0 Hnan1 Hratio.
  destruct (reachable_consistent _ Hreach) as [Hinv Hset].
  unfold startsAnimation in Hs.
  repeat (apply andb_true_iff in Hs; destruct Hs as [Hs ?]).
  destruct (Options.currentTime options) eqn:Hnew0; [discriminate |].
  destruct (checkArguments_valid
              (requestedX options w) (requestedY options w)
              (requestedDuration options) (requestedEasing options)
              (requestedStopScrollingOnPointerDown options) w)
    as (w0 & HC & Hc0 & Hl0 & Hp0 & Ha0 & Hf0 & Hr0 & Hid0);
    [assumption | assumption |].
  pose proof HC as HC'. rewrite Heasing in HC'.
  destruct (checkArguments_keyword _ _ _ _ _ _ _ _ _ HC' Hk Hnew Hcur)
    as (Hsolver0 & Hstart0 & Hios0).
  destruct (beginScroll (requestedX options w) (requestedY options w)
              (requestedDuration options)
              (requestedStopScrollingOnPointerDown options) w0)
    as [c w1] eqn:HB.
  assert (Hinv0 : framesConsistent w0)
    by (unfold framesConsistent in *; now rewrite Hr0, Hf0, Hid0).
  assert (Hdist0 :
            (1 <=? JsNumber.Math_abs
                     (limitCorrectedX (scrollContainer w0)
                        (requestedX options w)
                      - scrollLeft (scrollContainer w0)))
            || (1 <=? JsNumber.Math_abs
                        (limitCorrectedY (scrollContainer w0)
                           (requestedY options w)
                         - scrollTop (scrollContainer w0))) = true)
    by (unfold distanceX, distanceY in *; now rewrite Hc0).
  destruct (beginScroll_starts _ _ _ _ _ _ _ HB)
    as (-> & Hres1 & Hnp1 & Hc1 & Hfr1 & Hid1 & l0 & Hlog1 & Hresol1);
    [assumption | exact Hdist0 | exact Hinv0 |].
  destruct (beginScroll_opens_session _ _ _ _ _ _ _ solver0 HB)
    as (Hsession1 & Hstart1);
    [assumption | exact Hdist0 | exact Hinv0
    | rewrite Hr0, Hstart0; intros Hnone; rewrite Hnone in Hset;
      now destruct Hset as (_ & ? & _)
    | exact Hsolver0 |].
  rewrite Hc0, Hp0 in Hsession1.
  change {| promise := nextPromise w; solver := solver0;
            duration := requestedDuration options;
            startingPointX := scrollLeft (scrollContainer w);
            startingPointY := scrollTop (scrollContainer w);
            distanceOnX := _; distanceOnY := _ |}
    with (sessionOf options solver0 w) in Hsession1.
  set (session := sessionOf options solver0 w) in *.
  assert (Hpos : (0 <? duration session) = true) by assumption.
  (* the first frame *)
  destruct (animate fuel t0 (set_animationFrames [] w1)) as [c2 w2] eqn:HA2.
  destruct (animate_first_tick _ _ _ session 0 _ _ HA2)
    as (-> & Hsession2 & Hstart2 & Hoff2 & Hfr2 & _ & Hid2 & Hnp2
        & l1 & Hlog2 & Hresol2);
    [exact Hsession1 | exact Hstart1 | reflexivity | exact Hfin0
    | exact Hpos
    | apply (keyword_solve_at 0 keyword points); auto |].
  pose proof (animationFrame_single _ _ _ _ _ _ Hfr1
                (truthy_is_number _ Htruthy0) HA2) as Hframe1.
  (* the second frame *)
  destruct (animate fuel t1 (set_animationFrames [] w2)) as [c3 w3] eqn:HA3.
  destruct (animate_completing_tick _ _ _ session 1 _ _ HA3)
    as (-> & Hres3 & Hoff3 & Hfr3 & Hnp3
        & l2 & data & Hlog3 & Hresol3 & Hval3 & Hsp & Hep & Hel & Hdu);
    [exact Hsession2 | reflexivity
    | simpl; now rewrite Hstart2
    | simpl; now rewrite Hstart2
    | apply (keyword_solve_at 1 keyword points); auto |].
  pose proof (animationFrame_single _ _ _ _ _ _ Hfr2 Hnan1 HA3) as Hframe2.
  exists w1, w3, data.
  split;
    [rewrite <- Hp0;
     exact (scroll_new_request fuel options w w0 w1 _ Hnew0 HC HB) |].
  split; [cbn [runFrames]; now rewrite Hframe1, Hframe2 |].
  simpl in Hlog2, Hlog3, Hoff2, Hoff3, Hel.
  rewrite Hstart2 in Hel.
  split.
  { rewrite Hoff3.
    rewrite (offsetsAfterTick_twice session 1 0 (scrollContainer w1)
               (scrollContainer w2) Hoff2).
    now rewrite Hc1, Hc0. }
  assert (Hlog13 : log w3 = log w1 ++ (l1 ++ l2))
    by (now rewrite Hlog3, Hlog2, app_assoc).
  assert (Hlog03 : log w3 = log w ++ (l0 ++ l1 ++ l2))
    by (rewrite Hlog13, Hlog1, Hl0; now rewrite <- app_assoc).
  split.
  { rewrite (effectsSince_app _ _ _ Hlog03), !resolutions_app, Hresol1,
      Hresol2, Hresol3.
    unfold pendingOf. now rewrite Hr0. }
  split.
  { rewrite (effectsSince_app _ _ _ Hlog13), valuesOfResolutions_app,
      (resolutions_nil_values _ Hresol2), Hval3. reflexivity. }
  repeat split; try assumption.
Qed.

(** The example: frames at 100 and 1200 take the container from 0 to
    0 + 1 * 1000 and leave nothing pending. *)
Lemma keyword_scroll_completes_at_the_full_distance_witness :
  exists w',
    runFrames 0 [100; 1200] exampleRequested = Some w' /\
    scrollTop (scrollContainer w') = 1000 /\
    scrollResolve (this w') = None.
Proof.
  destruct (keyword_scroll_completes_at_the_full_distance
              0 exampleRequest exampleStart "ease-out" [0; 0; 0.58; 1]
              easeOutSolver 100 1200)
    as (w1 & w' & data & Hs & Hf & Ho & _ & _ & _ & _ & _ & _ & Hr & _);
    try (vm_compute; reflexivity);
    [apply Scenario.reachable_new | discriminate |].
  destruct exampleRequest_returns_promise as [Hs' _].
  rewrite Hs' in Hs. inversion Hs. subst w1.
  exists w'. split; [exact Hf |]. split; [| exact Hr].
  inversion Ho as [[Hl Ht]]. rewrite Ht. vm_compute. reflexivity.
Defined.

End WholeScroll.
